(** * Adhan: prayer-time alarms, voice store and playback selection

    A shallow embedding of the scheduling, voice-store and playback code of
    the application (services/notifications.ts, services/voices.ts,
    services/voicesManager.ts, services/adhanVoices.ts, the helpers exported
    by components/AdhanVoiceSelector.tsx and the handlers of the two
    application shells, with the prayer of the moment, the countdowns and
    the Hijri date the second shell shows), followed by the properties
    proved about it.

    The asynchronous functions of the source are embedded as computations of
    a state-and-exception monad over a [World]: the device (key-value store,
    file system, notification registry, audio player, clock) together with
    the few pieces of component state the handlers read.  A computation is
    an asynchronous function awaited to its end; the clock stands still
    while it runs, and local time is read through the time zone of the
    device, with its changes of offset.  For the playback handler, which
    the platform may invoke again while an earlier invocation is
    suspended, the turns of the event loop are modelled as well. *)

From Stdlib Require Import ZArith Ascii String List Bool Lia DecimalString.
From stdpp Require Import gmap strings list.

Import ListNotations.
Local Open Scope string_scope.
Local Open Scope list_scope.
Local Open Scope Z_scope.

(** ** Data *)

(** A JavaScript [Date] is its time value: milliseconds since the epoch. *)
Definition Date := Z.

(** Identifiers handed out by expo-notifications and handles of loaded
    [Audio.Sound] objects are opaque to the program; the model takes them
    from a counter of the platform. *)
Definition NotificationId := nat.
Definition SoundHandle := nat.

(** [idTag] of a notification.  The source builds the string
    [`${name}-${date.toISOString().slice(0, 10)}`] (daily) or
    [`test-${date.toISOString()}`] (test); the model keeps the two parts
    apart and leaves the date unrendered: the UTC day number for the
    former, the time value for the latter. *)
Record IdTag := { tag_name : string; tag_stamp : Z }.

Record NotificationData := { idTag : IdTag; voicePath : option string }.

Record NotificationContent := {
  title : string;
  body : string;
  sound : string;
  data : NotificationData }.

(** An entry of the platform's registry of scheduled notifications. *)
Record ScheduledNotification := {
  identifier : NotificationId;
  content : NotificationContent;
  trigger : Date }.

(** services/voicesManager.ts *)
Record VoiceMeta := {
  vm_id : string;
  vm_name : string;
  vm_path : option string;
  vm_variant : option string }.

Record RemoteVoice := {
  rv_id : string;
  rv_name : string;
  rv_previewUrl : string }.

(** services/adhanVoices.ts *)
Inductive AdhanType := regular | fajr.

Record AdhanVoice := {
  av_id : string;
  av_name : string;
  av_reciter : string;
  av_type : AdhanType;
  av_previewUrl : string;
  av_downloadUrl : string;
  av_duration : option string;
  av_origin : option string }.

(** services/prayerTimes.ts *)
Record PrayerTimesMap := {
  pt_fajr : Date;
  pt_sunrise : Date;
  pt_dhuhr : Date;
  pt_asr : Date;
  pt_maghrib : Date;
  pt_isha : Date }.

(** ** Local time

    The time zone of the runtime: the offset of local time from UTC, in
    milliseconds, in force before the first transition, and the
    transitions (daylight-saving changes and the like) in ascending
    order of their instants, each with the offset in force from that
    instant on. *)
Record TimeZone := {
  tz_initial : Z;
  tz_transitions : list (Date * Z) }.

Definition msPerDay : Z := 86400000.

Fixpoint offset_from (o : Z) (transitions : list (Date * Z)) (t : Date) : Z :=
  match transitions with
  | [] => o
  | (instant, o') :: rest =>
      if instant <=? t then offset_from o' rest t else o
  end.

(** The offset in force at the instant [t]. *)
Definition offset_at (tz : TimeZone) (t : Date) : Z :=
  offset_from (tz_initial tz) (tz_transitions tz) t.

(** [LocalTime(t)] of ECMAScript: the local reading of the instant. *)
Definition LocalTime (tz : TimeZone) (t : Date) : Z := t + offset_at tz t.

(** [Day(t)] *)
Definition Day (t : Z) : Z := t / msPerDay.

Definition offsets (tz : TimeZone) : list Z :=
  tz_initial tz :: map snd (tz_transitions tz).

(** The offsets under which the local reading [tl] is that of an
    instant: there is one for each instant that reads [tl]. *)
Definition possible_offsets (tz : TimeZone) (tl : Z) : list Z :=
  List.filter (fun o => offset_at tz (tl - o) =? o) (offsets tz).

(** The offset before the transition that skips the local reading
    [tl], going through the transitions with [o] in force before them. *)
Fixpoint skipped_by (o : Z) (transitions : list (Date * Z)) (tl : Z)
  : option Z :=
  match transitions with
  | [] => None
  | (instant, o') :: rest =>
      if (instant + o <=? tl) && (tl <? instant + o')
      then Some o
      else skipped_by o' rest tl
  end.

(** [UTC(tl)] of ECMAScript: the instant of the local reading [tl].  A
    reading that repeats (the clocks were set back) is that of the
    first of its instants; a reading that was skipped (the clocks were
    set forward) is taken with the offset before the transition. *)
Definition UTC (tz : TimeZone) (tl : Z) : Date :=
  match possible_offsets tz tl with
  | o :: rest => tl - fold_right Z.max o rest
  | [] =>
      tl - match skipped_by (tz_initial tz) (tz_transitions tz) tl with
           | Some o => o
           | None => tz_initial tz
           end
  end.

(** What [Audio.Sound.createAsync] is given: [{ uri }] or the bundled
    [require('../assets/adhan.mp3')]. *)
Inductive AudioSource :=
| Uri (uri : string)
| BundledAsset.

Inductive AudioEvent :=
| Created (h : SoundHandle) (src : AudioSource)
| Unloaded (h : SoundHandle)
| VolumeSet (h : SoundHandle)
| Played (h : SoundHandle).

(** ** The device *)

(** The keys of AsyncStorage the modelled code uses. *)
Inductive Key :=
| SCHEDULED_IDS_KEY
| DOWNLOADED_KEY
| ACTIVE_VOICE_KEY
| STORAGE_KEY_REGULAR
| STORAGE_KEY_FAJR.

(** AsyncStorage.  Every value the code stores under a key is the
    [JSON.stringify] of a value of one type (or a bare string), and is read
    back with [JSON.parse]; the store is kept per key at that type, [None]
    being the absent key ([getItem] gives [null]). *)
Record Storage := {
  scheduled_ids : option (list NotificationId);
  downloaded_voices : option (list VoiceMeta);
  active_voice_id : option string;
  selected_regular : option string;
  selected_fajr : option string }.

(** The platform calls of the code.  Each of them returns a promise that
    may reject; which ones do is a parameter of the world. *)
Inductive Op :=
| GetItem (k : Key)
| SetItem (k : Key)
| RemoveItem (k : Key)
| RequestPermissions
| SetNotificationChannel
| ScheduleNotification (tag : IdTag)
| CancelScheduledNotification (id : NotificationId)
| MakeDirectory (dir : string)
| DeleteFile (path : string)
| Download (url path : string)
| CopyFile (from to : string)
| WriteFile (path : string)
| GetInfo (path : string)
| ReadDirectory (dir : string)
| CreateSound (src : AudioSource)
| UnloadSound (h : SoundHandle)
| ReplaySound (h : SoundHandle)
| PlaySound (h : SoundHandle)
| SetVolume (h : SoundHandle).

(** What a rejected promise carries. *)
Inductive Error :=
| Rejected (op : Op)
| NoSuchFile (path : string).

Record World := {
  (* AsyncStorage *)
  storage : Storage;
  (* expo-file-system: the paths that exist, directories included *)
  documentDirectory : string;
  files : gset string;
  (* expo-notifications *)
  android : bool;
  permission : bool;
  pending : list ScheduledNotification;
  next_notification : NotificationId;
  (* expo-av *)
  loaded : list SoundHandle;
  next_sound : SoundHandle;
  audio_trace : list AudioEvent;
  (* component state of the application shell *)
  soundRef : option SoundHandle;
  silentMode : bool;
  (* the clock and the time zone, console.warn, and the calls that
     reject *)
  now : Date;
  timeZone : TimeZone;
  console : list string;
  fails : Op -> bool }.

(** ** Promises: state and exceptions *)

Inductive Outcome (A : Type) :=
| Resolved (a : A)
| Threw (e : Error).
Arguments Resolved {A} a.
Arguments Threw {A} e.

(** An asynchronous function awaited to its end: the settled promise and
    the world it leaves.  What a computation did before it threw stays
    done. *)
Definition Promise (A : Type) := World -> Outcome A * World.

Definition ret {A} (a : A) : Promise A := fun w => (Resolved a, w).

Definition throw {A} (e : Error) : Promise A := fun w => (Threw e, w).

Definition bind {A B} (m : Promise A) (k : A -> Promise B) : Promise B :=
  fun w =>
    match m w with
    | (Resolved a, w') => k a w'
    | (Threw e, w') => (Threw e, w')
    end.

(** [try { m } catch (e) { h e }] *)
Definition try_catch {A} (m : Promise A) (h : Error -> Promise A) : Promise A :=
  fun w =>
    match m w with
    | (Resolved a, w') => (Resolved a, w')
    | (Threw e, w') => h e w'
    end.

Notation "'await' x <- m 'in' k" := (bind m (fun x => k))
  (at level 10, x name, m at level 100, k at level 200, only parsing).
Notation "'attempt' m 'catch' e => h" := (try_catch m (fun e => h))
  (at level 10, e name, m at level 200, h at level 200, only parsing).

Definition get : Promise World := fun w => (Resolved w, w).

Definition modify (f : World -> World) : Promise unit :=
  fun w => (Resolved tt, f w).

(** A platform call: it rejects, without effect, when the world says so. *)
Definition call (op : Op) : Promise unit :=
  fun w => if fails w op then (Threw (Rejected op), w) else (Resolved tt, w).

(** [await Promise.all(ms)] for promises created in the order of [ms]:
    every one of them is started and runs to its end whatever becomes of
    the others; the result rejects with the first rejection, if any. *)
Fixpoint promise_all {A} (ms : list (Promise A)) : Promise (list A) :=
  match ms with
  | [] => ret []
  | m :: rest =>
      fun w =>
        match m w with
        | (Resolved a, w1) =>
            match promise_all rest w1 with
            | (Resolved l, w2) => (Resolved (a :: l), w2)
            | (Threw e, w2) => (Threw e, w2)
            end
        | (Threw e, w1) => (Threw e, snd (promise_all rest w1))
        end
  end.

(** An asynchronous function in the middle of its run: finished, or
    suspended at an [await] with what it does when resumed, up to its
    next [await]. *)
Unset Elimination Schemes.
Inductive Task :=
| Finished
| Awaiting (resume : World -> Task * World).
Set Elimination Schemes.

(** One turn of the event loop given to a task. *)
Definition advance (t : Task) (w : World) : Task * World :=
  match t with
  | Finished => (Finished, w)
  | Awaiting resume => resume w
  end.

(** A task run on its own, for at most [turns] turns. *)
Fixpoint run_turns (turns : nat) (t : Task) (w : World) : Task * World :=
  match turns with
  | O => (t, w)
  | S n => let (t', w') := advance t w in run_turns n t' w'
  end.

(** Two tasks run by the event loop; the schedule tells whose turn it
    is: [true] for the first task, [false] for the second. *)
Fixpoint interleave (schedule : list bool) (a b : Task) (w : World)
  : Task * Task * World :=
  match schedule with
  | [] => (a, b, w)
  | true :: rest => let (a', w') := advance a w in interleave rest a' b w'
  | false :: rest => let (b', w') := advance b w in interleave rest a b' w'
  end.

Definition result {A} (r : Outcome A * World) : Outcome A := fst r.
Definition after {A} (r : Outcome A * World) : World := snd r.

(** JavaScript truthiness of a [string | undefined | null]. *)
Definition truthy (s : option string) : bool :=
  match s with
  | Some s => negb (String.eqb s EmptyString)
  | None => false
  end.

(** ** Platform interfaces *)

Definition with_storage (w : World) (s : Storage) : World :=
  {| storage := s; documentDirectory := documentDirectory w;
     files := files w; android := android w; permission := permission w;
     pending := pending w; next_notification := next_notification w;
     loaded := loaded w; next_sound := next_sound w;
     audio_trace := audio_trace w; soundRef := soundRef w;
     silentMode := silentMode w; now := now w; timeZone := timeZone w;
     console := console w;
     fails := fails w |}.

Definition with_files (w : World) (fs : gset string) : World :=
  {| storage := storage w; documentDirectory := documentDirectory w;
     files := fs; android := android w; permission := permission w;
     pending := pending w; next_notification := next_notification w;
     loaded := loaded w; next_sound := next_sound w;
     audio_trace := audio_trace w; soundRef := soundRef w;
     silentMode := silentMode w; now := now w; timeZone := timeZone w;
     console := console w;
     fails := fails w |}.

Definition with_registry (w : World) (p : list ScheduledNotification)
    (n : NotificationId) : World :=
  {| storage := storage w; documentDirectory := documentDirectory w;
     files := files w; android := android w; permission := permission w;
     pending := p; next_notification := n;
     loaded := loaded w; next_sound := next_sound w;
     audio_trace := audio_trace w; soundRef := soundRef w;
     silentMode := silentMode w; now := now w; timeZone := timeZone w;
     console := console w;
     fails := fails w |}.

Definition with_player (w : World) (l : list SoundHandle) (n : SoundHandle)
    (t : list AudioEvent) : World :=
  {| storage := storage w; documentDirectory := documentDirectory w;
     files := files w; android := android w; permission := permission w;
     pending := pending w; next_notification := next_notification w;
     loaded := l; next_sound := n; audio_trace := t; soundRef := soundRef w;
     silentMode := silentMode w; now := now w; timeZone := timeZone w;
     console := console w;
     fails := fails w |}.

Definition with_soundRef (w : World) (r : option SoundHandle) : World :=
  {| storage := storage w; documentDirectory := documentDirectory w;
     files := files w; android := android w; permission := permission w;
     pending := pending w; next_notification := next_notification w;
     loaded := loaded w; next_sound := next_sound w;
     audio_trace := audio_trace w; soundRef := r;
     silentMode := silentMode w; now := now w; timeZone := timeZone w;
     console := console w;
     fails := fails w |}.

Definition with_console (w : World) (c : list string) : World :=
  {| storage := storage w; documentDirectory := documentDirectory w;
     files := files w; android := android w; permission := permission w;
     pending := pending w; next_notification := next_notification w;
     loaded := loaded w; next_sound := next_sound w;
     audio_trace := audio_trace w; soundRef := soundRef w;
     silentMode := silentMode w; now := now w; timeZone := timeZone w;
     console := c;
     fails := fails w |}.

Definition with_timeZone (w : World) (tz : TimeZone) : World :=
  {| storage := storage w; documentDirectory := documentDirectory w;
     files := files w; android := android w; permission := permission w;
     pending := pending w; next_notification := next_notification w;
     loaded := loaded w; next_sound := next_sound w;
     audio_trace := audio_trace w; soundRef := soundRef w;
     silentMode := silentMode w; now := now w; timeZone := tz;
     console := console w; fails := fails w |}.

(** [console.warn(msg, e)] *)
Definition console_warn (msg : string) : Promise unit :=
  modify (fun w => with_console w (console w ++ [msg])).

(** [new Date()] *)
Definition Date_now : Promise Date := fun w => (Resolved (now w), w).

(** The time zone in which the methods of [Date] read local time. *)
Definition Date_timeZone : Promise TimeZone :=
  fun w => (Resolved (timeZone w), w).

Module AsyncStorage.

Definition set_scheduled_ids (v : option (list NotificationId)) (s : Storage) :=
  {| scheduled_ids := v; downloaded_voices := downloaded_voices s;
     active_voice_id := active_voice_id s;
     selected_regular := selected_regular s;
     selected_fajr := selected_fajr s |}.

Definition set_downloaded_voices (v : option (list VoiceMeta)) (s : Storage) :=
  {| scheduled_ids := scheduled_ids s; downloaded_voices := v;
     active_voice_id := active_voice_id s;
     selected_regular := selected_regular s;
     selected_fajr := selected_fajr s |}.

Definition set_active_voice_id (v : option string) (s : Storage) :=
  {| scheduled_ids := scheduled_ids s;
     downloaded_voices := downloaded_voices s;
     active_voice_id := v;
     selected_regular := selected_regular s;
     selected_fajr := selected_fajr s |}.

Definition set_selected_regular (v : option string) (s : Storage) :=
  {| scheduled_ids := scheduled_ids s;
     downloaded_voices := downloaded_voices s;
     active_voice_id := active_voice_id s;
     selected_regular := v;
     selected_fajr := selected_fajr s |}.

Definition set_selected_fajr (v : option string) (s : Storage) :=
  {| scheduled_ids := scheduled_ids s;
     downloaded_voices := downloaded_voices s;
     active_voice_id := active_voice_id s;
     selected_regular := selected_regular s;
     selected_fajr := v |}.

(** [getItem], [setItem] and [removeItem] at the type held under the
    key; [field] and [update] pick the key's slot of the store. *)
Definition getItem {A} (k : Key) (field : Storage -> option A)
  : Promise (option A) :=
  await _ <- call (GetItem k) in
  await w <- get in
  ret (field (storage w)).

Definition setItem {A} (k : Key)
    (update : option A -> Storage -> Storage) (v : A) : Promise unit :=
  await _ <- call (SetItem k) in
  modify (fun w => with_storage w (update (Some v) (storage w))).

Definition removeItem {A} (k : Key)
    (update : option A -> Storage -> Storage) : Promise unit :=
  await _ <- call (RemoveItem k) in
  modify (fun w => with_storage w (update None (storage w))).

End AsyncStorage.

Module Notifications.

(** [scheduleNotificationAsync({ content, trigger: { date } })]: the
    platform registers the request under a fresh identifier. *)
Definition scheduleNotificationAsync (c : NotificationContent) (date : Date)
  : Promise NotificationId :=
  await _ <- call (ScheduleNotification (idTag (data c))) in
  await w <- get in
  let id := next_notification w in
  await _ <- modify (fun w =>
    with_registry w
      (pending w ++ [{| identifier := id; content := c; trigger := date |}])
      (S id)) in
  ret id.

(** [cancelScheduledNotificationAsync(id)] *)
Definition cancelScheduledNotificationAsync (id : NotificationId)
  : Promise unit :=
  await _ <- call (CancelScheduledNotification id) in
  modify (fun w =>
    with_registry w
      (List.filter (fun n => negb (Nat.eqb (identifier n) id)) (pending w))
      (next_notification w)).

(** [setNotificationChannelAsync('adhan-channel', ...)] *)
Definition setNotificationChannelAsync : Promise unit :=
  call SetNotificationChannel.

(** [requestPermissionsAsync()], reduced to whether the status is
    ['granted'] or ['provisional']. *)
Definition requestPermissionsAsync : Promise bool :=
  await _ <- call RequestPermissions in
  await w <- get in
  ret (permission w).

End Notifications.

Module FileSystem.

Definition exists_ (path : string) (w : World) : bool :=
  bool_decide (path ∈ files w).

(** [getInfoAsync(path)], reduced to [info.exists]. *)
Definition getInfoAsync (path : string) : Promise bool :=
  await _ <- call (GetInfo path) in
  await w <- get in
  ret (exists_ path w).

(** [makeDirectoryAsync(dir, { intermediates: true })] *)
Definition makeDirectoryAsync (dir : string) : Promise unit :=
  await _ <- call (MakeDirectory dir) in
  modify (fun w => with_files w (files w ∪ {[dir]})).

(** [deleteAsync(path, { idempotent: true })] *)
Definition deleteAsync (path : string) : Promise unit :=
  await _ <- call (DeleteFile path) in
  modify (fun w => with_files w (files w ∖ {[path]})).

(** [downloadAsync(url, path)] *)
Definition downloadAsync (url path : string) : Promise unit :=
  await _ <- call (Download url path) in
  modify (fun w => with_files w (files w ∪ {[path]})).

(** [writeAsStringAsync(path, base64, ...)]; the contents of files play
    no part in the modelled code. *)
Definition writeAsStringAsync (path : string) : Promise unit :=
  await _ <- call (WriteFile path) in
  modify (fun w => with_files w (files w ∪ {[path]})).

(** [copyAsync({ from, to })] rejects when there is nothing to copy. *)
Definition copyAsync (from to : string) : Promise unit :=
  await _ <- call (CopyFile from to) in
  await w <- get in
  if exists_ from w
  then modify (fun w => with_files w (files w ∪ {[to]}))
  else throw (NoSuchFile from).

(** The name under which [path] shows in a listing of [dir]: what
    follows [dir] in it, when that is one path segment (a trailing
    slash marks a directory and is not part of the name). *)
Fixpoint segment (s : string) : option string :=
  match s with
  | EmptyString => Some EmptyString
  | String c rest =>
      if Ascii.eqb c "/"%char
      then match rest with EmptyString => Some EmptyString | _ => None end
      else option_map (String c) (segment rest)
  end.

Definition entry_name (dir path : string) : option string :=
  if String.prefix dir path
  then match segment (substring (String.length dir)
                        (String.length path - String.length dir) path) with
       | Some EmptyString => None
       | r => r
       end
  else None.

Definition listing (dir : string) (fs : gset string) : list string :=
  omap (entry_name dir) (elements fs).

(** [readDirectoryAsync(dir)]; the order of the names is the
    platform's. *)
Definition readDirectoryAsync (dir : string) : Promise (list string) :=
  await _ <- call (ReadDirectory dir) in
  await w <- get in
  if exists_ dir w
  then ret (listing dir (files w))
  else throw (NoSuchFile dir).

End FileSystem.

Module Audio.

(** [Audio.Sound.createAsync(source)]: a new sound is loaded. *)
Definition createAsync (src : AudioSource) : Promise SoundHandle :=
  await _ <- call (CreateSound src) in
  await w <- get in
  let h := next_sound w in
  await _ <- modify (fun w =>
    with_player w (loaded w ++ [h]) (S h)
      (audio_trace w ++ [Created h src])) in
  ret h.

Definition unload (h : SoundHandle) (l : list SoundHandle) :=
  List.filter (fun h' => negb (Nat.eqb h' h)) l.

(** [sound.unloadAsync()] *)
Definition unloadAsync (h : SoundHandle) : Promise unit :=
  await _ <- call (UnloadSound h) in
  modify (fun w =>
    with_player w (unload h (loaded w)) (next_sound w)
      (audio_trace w ++ [Unloaded h])).

Definition start (op : Op) (h : SoundHandle) : Promise unit :=
  await _ <- call op in
  modify (fun w =>
    with_player w (loaded w) (next_sound w) (audio_trace w ++ [Played h])).

(** [sound.replayAsync()] and [sound.playAsync()] *)
Definition replayAsync (h : SoundHandle) : Promise unit :=
  start (ReplaySound h) h.

Definition playAsync (h : SoundHandle) : Promise unit :=
  start (PlaySound h) h.

(** [sound.setVolumeAsync(volume)] *)
Definition setVolumeAsync (h : SoundHandle) : Promise unit :=
  await _ <- call (SetVolume h) in
  modify (fun w =>
    with_player w (loaded w) (next_sound w)
      (audio_trace w ++ [VolumeSet h])).

End Audio.

(** ** services/notifications.ts *)

(** [raw ? JSON.parse(raw) : []] *)
Definition parse_array {A} (raw : option (list A)) : list A :=
  match raw with
  | Some arr => arr
  | None => []
  end.

Module NotificationsService.

Definition ensureNotificationChannel : Promise unit :=
  await w <- get in
  if android w then Notifications.setNotificationChannelAsync else ret tt.

Definition requestPermissions : Promise bool :=
  Notifications.requestPermissionsAsync.

Definition scheduleNotificationForPrayer (idTag : IdTag) (title body : string)
    (date : Date) (voicePath : option string) : Promise NotificationId :=
  await id <- Notifications.scheduleNotificationAsync
                {| title := title; body := body; sound := "default";
                   data := {| idTag := idTag; voicePath := voicePath |} |}
                date in
  (* persist scheduled id *)
  await _ <- (attempt
                (await raw <- AsyncStorage.getItem SCHEDULED_IDS_KEY
                                scheduled_ids in
                 let arr := parse_array raw in
                 AsyncStorage.setItem SCHEDULED_IDS_KEY
                   AsyncStorage.set_scheduled_ids (arr ++ [id]))
              catch e => (* ignore persistence errors *) ret tt) in
  ret id.

Definition cancelAllScheduledNotifications : Promise unit :=
  attempt
    (await raw <- AsyncStorage.getItem SCHEDULED_IDS_KEY scheduled_ids in
     let arr := parse_array raw in
     await _ <- promise_all
                  (map Notifications.cancelScheduledNotificationAsync arr) in
     AsyncStorage.removeItem SCHEDULED_IDS_KEY
       AsyncStorage.set_scheduled_ids)
  catch e => (* ignore *) ret tt.

Definition MS_PER_DAY : Z := 86400000.
Definition MS_PER_MINUTE : Z := 60000.

(** [d.setDate(d.getDate() + 1)]: the local reading of [d] is moved to
    the same time of day on the next calendar day, [MakeDay] with the
    day of the month plus one being [Day] plus one, and the instant of
    that reading is taken. *)
Definition Date_addDay (tz : TimeZone) (d : Date) : Date :=
  UTC tz (LocalTime tz d + msPerDay).

(** [d.setMinutes(d.getMinutes() + m)] *)
Definition Date_addMinutes (d : Date) (m : Z) : Date := d + m * MS_PER_MINUTE.

(** [d.toISOString().slice(0, 10)], as the number of the UTC day. *)
Definition Date_toISODate (d : Date) : Z := d / MS_PER_DAY.

(** [Object.entries(prayerTimesMap)] of the map built by
    [getPrayerTimesForDate]: own keys in insertion order. *)
Definition Object_entries (m : PrayerTimesMap) : list (string * Date) :=
  [ ("fajr", pt_fajr m); ("sunrise", pt_sunrise m); ("dhuhr", pt_dhuhr m);
    ("asr", pt_asr m); ("maghrib", pt_maghrib m); ("isha", pt_isha m) ].

(** The date a prayer is scheduled for, given the clock's reading. *)
Definition scheduledDate (tz : TimeZone) (dt now : Date) : Date :=
  (* If time is in the past for today, schedule for tomorrow *)
  if dt <=? now then Date_addDay tz dt else dt.

(** The [for (const [name, dt] of entries)] loop of
    [scheduleDailyPrayerNotifications]; [scheduled] is the array the
    loop pushes to. *)
Fixpoint scheduleEntries (entries : list (string * Date))
    (voicePath : option string) (scheduled : list NotificationId)
  : Promise (list NotificationId) :=
  match entries with
  | [] => ret scheduled
  | (name, dt) :: rest =>
      await now <- Date_now in
      await tz <- Date_timeZone in
      let scheduledDate := scheduledDate tz dt now in
      await id <- scheduleNotificationForPrayer
                    {| tag_name := name;
                       tag_stamp := Date_toISODate scheduledDate |}
                    (name +:+ " prayer time")
                    ("It's time for " +:+ name +:+ " prayer")
                    scheduledDate voicePath in
      scheduleEntries rest voicePath (scheduled ++ [id])
  end.

Definition scheduleDailyPrayerNotifications
    (prayerTimesMap : list (string * Date)) (voicePath : option string)
  : Promise (list NotificationId) :=
  await _ <- cancelAllScheduledNotifications in
  await _ <- ensureNotificationChannel in
  let entries := prayerTimesMap in
  scheduleEntries entries voicePath [].

Definition scheduleTestNotification (minutesFromNow : Z)
    (voicePath : option string) : Promise (NotificationId * Date) :=
  await _ <- ensureNotificationChannel in
  await now <- Date_now in
  let date := Date_addMinutes now minutesFromNow in
  await id <- scheduleNotificationForPrayer
                {| tag_name := "test"; tag_stamp := date |}
                "Test Adhan"
                "This notification will play the active adhan voice when received."
                date voicePath in
  (* return the scheduled id and date for UI *)
  ret (id, date).

End NotificationsService.

(** ** services/voices.ts *)

Module Voices.

(** [generateSyntheticAdhan(variant)]: the waveform of the variant is
    computed and written, base64-encoded, to a file of the document
    directory whose path is returned.  Only the file and its path
    matter to the callers modelled here. *)
Definition generateSyntheticAdhan (variant : string) : Promise string :=
  await w <- get in
  let path := documentDirectory w +:+ "adhan-synthetic-" +:+ variant +:+ ".wav" in
  await _ <- FileSystem.writeAsStringAsync path in
  ret path.

(** An [ArrayBuffer] under a [DataView]: its bytes, each in 0..255. *)
Definition Buffer := list Z.

(** [new ArrayBuffer(n)] *)
Definition ArrayBuffer (n : nat) : Buffer := repeat 0 n.

(** The [n] low bytes of [value], least significant first: the integer
    is taken modulo [2^(8n)], as [ToUint32] and [ToUint16] do. *)
Fixpoint low_bytes (n : nat) (value : Z) : list Z :=
  match n with
  | O => []
  | S n' => Z.land value 255 :: low_bytes n' (Z.shiftr value 8)
  end.

(** [view.setUint32(offset, value, littleEndian)] and [setUint16], for
    [n] = 4 and 2; a write that does not fit raises a [RangeError]. *)
Definition setUint (n : nat) (buffer : Buffer) (offset : nat) (value : Z)
    (littleEndian : bool) : option Buffer :=
  let bytes := low_bytes n value in
  let bytes := if littleEndian then bytes else rev bytes in
  if (offset + n <=? length buffer)%nat
  then Some (firstn offset buffer ++ bytes ++ skipn (offset + n) buffer)
  else None.

Definition setUint32 := setUint 4.
Definition setUint16 := setUint 2.

(** What the arithmetic of numbers makes of an integer result: the
    double nearest to [x], a tie going to the even significand of 53
    bits (up to the range where doubles overflow). *)
Definition Number_round (x : Z) : Z :=
  let a := Z.abs x in
  let bits := Z.log2 a + 1 in
  if bits <=? 53 then x else
  let shift := bits - 53 in
  let q := Z.shiftr a shift in
  let r := a - Z.shiftl q shift in
  let half := Z.shiftl 1 (shift - 1) in
  let q := if (half <? r) || ((r =? half) && Z.odd q) then q + 1 else q in
  Z.sgn x * Z.shiftl q shift.

(** [writeWavHeader], for arguments that are integers. *)
Definition writeWavHeader (dataByteLength sampleRate numChannels : Z)
  : option Buffer :=
  let blockAlign := Number_round (numChannels * 2) in (* 16-bit *)
  let byteRate := Number_round (sampleRate * blockAlign) in
  let view := ArrayBuffer 44 in
  (* RIFF identifier *)
  view ← setUint32 view 0 0x52494646 false;
  (* file length minus RIFF and length (8) *)
  view ← setUint32 view 4 (Number_round (36 + dataByteLength)) true;
  (* RIFF type *)
  view ← setUint32 view 8 0x57415645 false;
  (* format chunk identifier *)
  view ← setUint32 view 12 0x666d7420 false;
  (* format chunk length *)
  view ← setUint32 view 16 16 true;
  (* sample format (raw) *)
  view ← setUint16 view 20 1 true;
  (* channel count *)
  view ← setUint16 view 22 numChannels true;
  (* sample rate *)
  view ← setUint32 view 24 sampleRate true;
  (* byte rate (sample rate * block align) *)
  view ← setUint32 view 28 byteRate true;
  (* block align (channel count * bytes per sample) *)
  view ← setUint16 view 32 blockAlign true;
  (* bits per sample *)
  view ← setUint16 view 34 16 true;
  (* data chunk identifier *)
  view ← setUint32 view 36 0x64617461 false;
  (* data chunk length *)
  view ← setUint32 view 40 dataByteLength true;
  Some view.

Definition ensureSyntheticAdhanExists (variant : string)
  : Promise (option string) :=
  await w <- get in
  let path := documentDirectory w +:+ "adhan-synthetic-" +:+ variant +:+ ".wav" in
  await info_exists <- FileSystem.getInfoAsync path in
  if info_exists then ret (Some path) else
  attempt
    (await generated <- generateSyntheticAdhan variant in
     ret (Some generated))
  catch e => ret None.

Definition removeSyntheticAdhan (variant : string) : Promise unit :=
  await w <- get in
  let path := documentDirectory w +:+ "adhan-synthetic-" +:+ variant +:+ ".wav" in
  await info_exists <- FileSystem.getInfoAsync path in
  if info_exists then FileSystem.deleteAsync path else ret tt.

End Voices.

(** ** services/voicesManager.ts *)

Module VoicesManager.

Definition other_than (id : string) (a : VoiceMeta) : bool :=
  negb (String.eqb (vm_id a) id).

Definition downloadRemoteVoice (remote : RemoteVoice)
  : Promise (option VoiceMeta) :=
  attempt
    (await w <- get in
     let destDir := documentDirectory w +:+ "voices/" in
     await _ <- FileSystem.makeDirectoryAsync destDir in
     let filename := "voice-" +:+ rv_id remote +:+ ".wav" in
     let newPath := destDir +:+ filename in
     await _ <- FileSystem.deleteAsync newPath in
     await _ <- FileSystem.downloadAsync (rv_previewUrl remote) newPath in
     let meta := {| vm_id := rv_id remote; vm_name := rv_name remote;
                    vm_path := Some newPath;
                    vm_variant := Some (rv_id remote) |} in
     await raw <- AsyncStorage.getItem DOWNLOADED_KEY downloaded_voices in
     let arr := parse_array raw in
     let filtered := List.filter (other_than (rv_id remote)) arr in
     await _ <- AsyncStorage.setItem DOWNLOADED_KEY
                  AsyncStorage.set_downloaded_voices (filtered ++ [meta]) in
     ret (Some meta))
  catch e =>
    (await _ <- console_warn "downloadRemoteVoice failed" in
     ret None).

Definition downloadVoice (voiceId : string) : Promise (option VoiceMeta) :=
  attempt
    (await w <- get in
     let destDir := documentDirectory w +:+ "voices/" in
     await _ <- FileSystem.makeDirectoryAsync destDir in
     await path <- Voices.generateSyntheticAdhan voiceId in
     (* move file into voices folder *)
     let filename := "voice-" +:+ voiceId +:+ ".wav" in
     let newPath := destDir +:+ filename in
     await _ <- FileSystem.copyAsync path newPath in
     let meta := {| vm_id := voiceId; vm_name := voiceId;
                    vm_path := Some newPath; vm_variant := Some voiceId |} in
     await raw <- AsyncStorage.getItem DOWNLOADED_KEY downloaded_voices in
     let arr := parse_array raw in
     let filtered := List.filter (other_than voiceId) arr in
     await _ <- AsyncStorage.setItem DOWNLOADED_KEY
                  AsyncStorage.set_downloaded_voices (filtered ++ [meta]) in
     ret (Some meta))
  catch e =>
    (await _ <- console_warn "downloadVoice failed" in
     ret None).

Definition removeDownloadedVoice (voiceId : string) : Promise unit :=
  await raw <- AsyncStorage.getItem DOWNLOADED_KEY downloaded_voices in
  let arr := parse_array raw in
  let keep := List.filter (other_than voiceId) arr in
  await _ <- AsyncStorage.setItem DOWNLOADED_KEY
               AsyncStorage.set_downloaded_voices keep in
  await w <- get in
  let path := documentDirectory w +:+ "voices/voice-" +:+ voiceId +:+ ".wav" in
  await info_exists <- FileSystem.getInfoAsync path in
  await _ <- (if info_exists then FileSystem.deleteAsync path else ret tt) in
  await active <- AsyncStorage.getItem ACTIVE_VOICE_KEY active_voice_id in
  if bool_decide (active = Some voiceId)
  then AsyncStorage.removeItem ACTIVE_VOICE_KEY
         AsyncStorage.set_active_voice_id
  else ret tt.

Definition listDownloadedVoices : Promise (list VoiceMeta) :=
  await raw <- AsyncStorage.getItem DOWNLOADED_KEY downloaded_voices in
  ret (parse_array raw).

Definition setActiveVoice (voiceId : option string) : Promise unit :=
  match voiceId with
  | Some id =>
      if truthy voiceId
      then AsyncStorage.setItem ACTIVE_VOICE_KEY
             AsyncStorage.set_active_voice_id id
      else AsyncStorage.removeItem ACTIVE_VOICE_KEY
             AsyncStorage.set_active_voice_id
  | None => AsyncStorage.removeItem ACTIVE_VOICE_KEY
              AsyncStorage.set_active_voice_id
  end.

Definition getActiveVoice : Promise (option VoiceMeta) :=
  await id <- AsyncStorage.getItem ACTIVE_VOICE_KEY active_voice_id in
  match id with
  | Some id' =>
      if truthy id
      then await arr <- listDownloadedVoices in
           ret (List.find (fun a => String.eqb (vm_id a) id') arr)
      else ret None
  | None => ret None
  end.

End VoicesManager.

(** ** services/adhanVoices.ts *)

Module AdhanVoices.

Definition voice (id name reciter : string) (type : AdhanType)
    (url duration origin : string) : AdhanVoice :=
  {| av_id := id; av_name := name; av_reciter := reciter; av_type := type;
     av_previewUrl := url; av_downloadUrl := url;
     av_duration := Some duration; av_origin := Some origin |}.

Definition ADHAN_VOICES : list AdhanVoice :=
  [ (* Regular Adhan (for Dhuhr, Asr, Maghrib, Isha) *)
    voice "makkah-regular" "Makkah Adhan" "Sheikh Ali Ahmed Mullah" regular
      "https://www.islamcan.com/audio/adhan/azan1.mp3" "3:45"
      "Masjid al-Haram, Makkah";
    voice "madinah-regular" "Madinah Adhan" "Sheikh Essam Bukhari" regular
      "https://www.islamcan.com/audio/adhan/azan2.mp3" "3:30"
      "Masjid an-Nabawi, Madinah";
    voice "mishary-regular" "Mishary Rashid Adhan" "Mishary Rashid Alafasy"
      regular "https://www.islamcan.com/audio/adhan/azan3.mp3" "4:00"
      "Kuwait";
    voice "abdul-basit-regular" "Abdul Basit Adhan" "Sheikh Abdul Basit"
      regular "https://www.islamcan.com/audio/adhan/azan4.mp3" "3:50"
      "Egypt";
    voice "egypt-regular" "Egyptian Adhan" "Al-Azhar Mosque" regular
      "https://www.islamcan.com/audio/adhan/azan5.mp3" "4:10"
      "Al-Azhar, Cairo";
    voice "turkish-regular" "Turkish Adhan" "Turkish Style" regular
      "https://www.islamcan.com/audio/adhan/azan6.mp3" "3:40" "Turkey";
    (* Fajr Adhan (special melody) *)
    voice "makkah-fajr" "Makkah Fajr Adhan" "Sheikh Ali Ahmed Mullah" fajr
      "https://www.islamcan.com/audio/adhan/azan7.mp3" "4:00"
      "Masjid al-Haram, Makkah";
    voice "madinah-fajr" "Madinah Fajr Adhan" "Sheikh Essam Bukhari" fajr
      "https://www.islamcan.com/audio/adhan/azan8.mp3" "4:15"
      "Masjid an-Nabawi, Madinah";
    voice "mishary-fajr" "Mishary Fajr Adhan" "Mishary Rashid Alafasy" fajr
      "https://www.islamcan.com/audio/adhan/azan9.mp3" "4:30" "Kuwait";
    voice "abdul-basit-fajr" "Abdul Basit Fajr" "Sheikh Abdul Basit" fajr
      "https://www.islamcan.com/audio/adhan/azan10.mp3" "4:20" "Egypt" ].

(** Get voice by ID *)
Definition getAdhanVoiceById (id : string) : option AdhanVoice :=
  List.find (fun v => String.eqb (av_id v) id) ADHAN_VOICES.

Definition has_type (t : AdhanType) (v : AdhanVoice) : bool :=
  match av_type v, t with
  | regular, regular | fajr, fajr => true
  | _, _ => false
  end.

(** Get all regular Adhan voices (for Dhuhr, Asr, Maghrib, Isha) *)
Definition getRegularAdhanVoices : list AdhanVoice :=
  List.filter (has_type regular) ADHAN_VOICES.

(** Get all Fajr Adhan voices *)
Definition getFajrAdhanVoices : list AdhanVoice :=
  List.filter (has_type fajr) ADHAN_VOICES.

(** Get all voices *)
Definition getAllAdhanVoices : list AdhanVoice := ADHAN_VOICES.

(** Get default voices; the source asserts, with [!], that both are
    found. *)
Definition getDefaultVoices : option AdhanVoice * option AdhanVoice :=
  (List.find (fun v => String.eqb (av_id v) "makkah-regular") ADHAN_VOICES,
   List.find (fun v => String.eqb (av_id v) "makkah-fajr") ADHAN_VOICES).

End AdhanVoices.

(** ** components/AdhanVoiceSelector.tsx: the exported helpers *)

Module AdhanVoiceSelector.

(** [id || fallback] *)
Definition or_else (id : option string) (fallback : string) : string :=
  match id with
  | Some s => if truthy id then s else fallback
  | None => fallback
  end.

Definition getSelectedRegularAdhan : Promise string :=
  attempt
    (await id <- AsyncStorage.getItem STORAGE_KEY_REGULAR selected_regular in
     ret (or_else id "makkah-regular"))
  catch e => ret "makkah-regular".

Definition getSelectedFajrAdhan : Promise string :=
  attempt
    (await id <- AsyncStorage.getItem STORAGE_KEY_FAJR selected_fajr in
     ret (or_else id "makkah-fajr"))
  catch e => ret "makkah-fajr".

(** [s.toLowerCase()] on the letters A to Z. *)
Definition lower (c : ascii) : ascii :=
  let n := nat_of_ascii c in
  if (65 <=? n)%nat && (n <=? 90)%nat then ascii_of_nat (n + 32) else c.

Fixpoint toLowerCase (s : string) : string :=
  match s with
  | EmptyString => EmptyString
  | String c rest => String (lower c) (toLowerCase rest)
  end.

Definition DEFAULT_FAJR_URL := "https://www.islamcan.com/audio/adhan/azan7.mp3".
Definition DEFAULT_REGULAR_URL := "https://www.islamcan.com/audio/adhan/azan1.mp3".

Definition getAdhanUrlForPrayer (prayerName : string) : Promise string :=
  let isFajr := String.eqb (toLowerCase prayerName) "fajr" in
  await selectedId <- (if isFajr then getSelectedFajrAdhan
                       else getSelectedRegularAdhan) in
  match AdhanVoices.getAdhanVoiceById selectedId with
  | None =>
      (* Return default Makkah adhan *)
      ret (if isFajr then DEFAULT_FAJR_URL else DEFAULT_REGULAR_URL)
  | Some voice =>
      (* Check if downloaded locally *)
      await w <- get in
      let localPath := documentDirectory w +:+ "adhan/" +:+ av_id voice +:+ ".mp3" in
      await found <- (attempt
                        (await info_exists <- FileSystem.getInfoAsync localPath in
                         ret info_exists)
                      catch e => ret false) in
      if found then ret localPath else ret (av_previewUrl voice)
  end.

(** [saveSelection], without the component state it sets and the alerts
    it shows. *)
Definition saveSelection (voiceId : string) (type : AdhanType) : Promise unit :=
  attempt
    (match type with
     | regular =>
         AsyncStorage.setItem STORAGE_KEY_REGULAR
           AsyncStorage.set_selected_regular voiceId
     | fajr =>
         AsyncStorage.setItem STORAGE_KEY_FAJR
           AsyncStorage.set_selected_fajr voiceId
     end)
  catch e => ret tt.

End AdhanVoiceSelector.

(** ** The application shells

    Two versions of the component [AppMain] are in the repository.  Of
    each, the handlers that schedule and play are modelled;
    [soundRef.current] and [silentMode] are fields of the world. *)

Definition set_soundRef (r : option SoundHandle) : Promise unit :=
  modify (fun w => with_soundRef w r).

(** [if (soundRef.current) { try { await soundRef.current.unloadAsync(); }
    catch {} soundRef.current = null; }], the opening of every [playAdhan]. *)
Definition unloadPrevious : Promise unit :=
  await w <- get in
  match soundRef w with
  | Some current =>
      await _ <- (attempt Audio.unloadAsync current catch e => ret tt) in
      set_soundRef None
  | None => ret tt
  end.

(** The first shell: one active voice, kept by services/voicesManager. *)
Module AppBasic.

(** [const { sound } = await Audio.Sound.createAsync(src);
    soundRef.current = sound; await soundRef.current.replayAsync();] *)
Definition createAndReplay (src : AudioSource) : Promise unit :=
  await sound <- Audio.createAsync src in
  await _ <- set_soundRef (Some sound) in
  Audio.replayAsync sound.

Definition starts_with (p : string) (f : string) : bool := String.prefix p f.

Definition FALLBACK_URL :=
  "https://actions.google.com/sounds/v1/alarms/beep_short.ogg".

(** Each step of the chain answers whether [playAdhan] returns there. *)
Definition playProvided (voicePath : option string) : Promise bool :=
  match voicePath with
  | Some path =>
      if truthy voicePath
      then attempt
             (await _ <- createAndReplay (Uri path) in ret true)
           catch e =>
             (await _ <- console_warn
                "Failed to play voice from provided path, falling back" in
              ret false)
      else ret false
  | None => ret false
  end.

Definition playDownloaded : Promise bool :=
  await w <- get in
  let voicesDir := documentDirectory w +:+ "voices/" in
  await info_exists <- FileSystem.getInfoAsync voicesDir in
  if info_exists
  then await files <- FileSystem.readDirectoryAsync voicesDir in
       match List.find (starts_with "voice-") files with
       | Some found =>
           let fp := voicesDir +:+ found in
           await _ <- createAndReplay (Uri fp) in ret true
       | None => ret false
       end
  else ret false.

Definition playSynthetic : Promise bool :=
  await w <- get in
  await entries <- FileSystem.readDirectoryAsync (documentDirectory w) in
  match List.find (starts_with "adhan-synthetic") entries with
  | Some synthetic =>
      let fp := documentDirectory w +:+ synthetic in
      await _ <- createAndReplay (Uri fp) in ret true
  | None => ret false
  end.

Definition playAdhan (voicePath : option string) : Promise unit :=
  attempt
    ((* Unload previous sound if any *)
     await _ <- unloadPrevious in
     (* 1) If notification provided a voicePath, try that first *)
     await done <- playProvided voicePath in
     if (done : bool) then ret tt else
     (* 2) Try bundled asset *)
     attempt createAndReplay BundledAsset
     catch localErr =>
       (* 3) Try any downloaded voice files or synthetic files *)
       attempt
         (await done <- playDownloaded in
          if (done : bool) then ret tt else
          (* fallback: check for synthetic adhan files *)
          await done <- playSynthetic in
          if (done : bool) then ret tt else
          (* final fallback: remote beep *)
          createAndReplay (Uri FALLBACK_URL))
       catch e2 => console_warn "Remote/synthetic fallback failed")
  catch e =>
    console_warn "Adhan playback failed; add assets/adhan.mp3 or generate synthetic sample to the project to enable playback.".

(** The voice path a notification is given: [(await getActiveVoice())?.path]. *)
Definition activeVoicePath : Promise (option string) :=
  await active <- VoicesManager.getActiveVoice in
  ret (match active with
       | Some meta => vm_path meta
       | None => None
       end).

(** [onSchedule], for the prayer times the component holds; the alerts
    it shows are left out. *)
Definition onSchedule (prayerTimes : PrayerTimesMap) : Promise unit :=
  await ok <- NotificationsService.requestPermissions in
  if negb ok then ret tt else
  await _ <- NotificationsService.ensureNotificationChannel in
  (* fetch active voice (if any) and pass its path so notifications
     carry the voice *)
  attempt
    (await voicePath <- activeVoicePath in
     await _ <- NotificationsService.scheduleDailyPrayerNotifications
                  (NotificationsService.Object_entries prayerTimes)
                  voicePath in
     ret tt)
  catch e => ret tt.

End AppBasic.

(** The second shell: voices chosen per class in the voice selector. *)
Module AppMain.

(** [voicePath || await getAdhanUrlForPrayer(prayerName || 'dhuhr')] *)
Definition adhanUrlFor (voicePath prayerName : option string)
  : Promise string :=
  match voicePath with
  | Some path =>
      if truthy voicePath then ret path
      else AdhanVoiceSelector.getAdhanUrlForPrayer
             (AdhanVoiceSelector.or_else prayerName "dhuhr")
  | None =>
      AdhanVoiceSelector.getAdhanUrlForPrayer
        (AdhanVoiceSelector.or_else prayerName "dhuhr")
  end.

Definition playAdhan (voicePath prayerName : option string) : Promise unit :=
  await w <- get in
  if silentMode w then ret tt else
  attempt
    (await _ <- unloadPrevious in
     await adhanUrl <- adhanUrlFor voicePath prayerName in
     attempt
       (await sound <- Audio.createAsync (Uri adhanUrl) in
        await _ <- set_soundRef (Some sound) in
        await _ <- Audio.setVolumeAsync sound in
        Audio.playAsync sound)
     catch e => console_warn "Failed to play:")
  catch e => console_warn "playAdhan failed".

(** Local time, read through the time zone of the runtime. *)

(** [new Date(d.getFullYear(), d.getMonth(), d.getDate())]: the instant
    of the local midnight that begins the day of [d].  (For a year from
    0 to 99 the constructor takes the year 1900 years later; the model
    is for local readings from 1970 on.) *)
Definition Date_startOfDay (tz : TimeZone) (d : Date) : Date :=
  UTC tz (Day (LocalTime tz d) * msPerDay).

Definition Date_getHours (tz : TimeZone) (d : Date) : Z :=
  (LocalTime tz d mod msPerDay) / 3600000.

Definition Date_getMinutes (tz : TimeZone) (d : Date) : Z :=
  (LocalTime tz d mod 3600000) / 60000.

(** [d.setHours(h, m, 0, 0)]: the instant of the local reading of that
    time on the local day of [d]. *)
Definition Date_setHours (tz : TimeZone) (d : Date) (h m : Z) : Date :=
  UTC tz (Day (LocalTime tz d) * msPerDay + h * 3600000 + m * 60000).

Definition hijriMonths : list string :=
  [ "Muharram"; "Safar"; "Rabi al-Awwal"; "Rabi al-Thani"; "Jumada al-Awwal";
    "Jumada al-Thani"; "Rajab"; "Shaban"; "Ramadan"; "Shawwal"; "Dhul Qadah";
    "Dhul Hijjah" ].

Record HijriDate := { hijri_day : Z; hijri_month : string; hijri_year : Z }.

(** The day, the number of the month and the year [toHijri] computes
    from the Julian day number [jd]. *)
Definition hijriOfJulianDay (jd : Z) : Z * Z * Z :=
  let l := jd - 1948440 + 10632 in
  let n := (l - 1) / 10631 in
  let l2 := l - 10631 * n + 354 in
  let j := (10985 - l2) / 5316 * (50 * l2 / 17719)
           + l2 / 5670 * (43 * l2 / 15238) in
  let l3 := l2 - (30 - j) / 15 * (17719 * j / 50)
            - j / 16 * (15238 * j / 43) + 29 in
  let month := 24 * l3 / 709 in
  let day := l3 - 709 * month / 24 in
  let year := 30 * n + j - 30 in
  (day, month, year).

(** [hijriMonths[month - 1] || 'Unknown'] *)
Definition hijriMonthName (month : Z) : string :=
  if 0 <? month then nth (Z.to_nat (month - 1)) hijriMonths "Unknown"
  else "Unknown".

(** [toHijri(date)]; [new Date(1970, 0, 1).getTime()] is [- offset]. *)
Definition toHijri (offset : Z) (date : Date) : HijriDate :=
  (* Use the same algorithm as IslamicCalendar *)
  let jd := (date - (- offset)) / 86400000 + 2440588 in
  let '(day, month, year) := hijriOfJulianDay jd in
  {| hijri_day := day; hijri_month := hijriMonthName month;
     hijri_year := year |}.

Record CurrentPrayer := { cp_name : string; cp_time : Date; cp_endTime : Date }.
Record NextPrayer := { np_name : string; np_time : Date }.

(** The array [prayers] of [calculatePrayers]. *)
Definition prayersOf (prayerTimes : PrayerTimesMap) : list NextPrayer :=
  [ {| np_name := "Fajr"; np_time := pt_fajr prayerTimes |};
    {| np_name := "Sunrise"; np_time := pt_sunrise prayerTimes |};
    {| np_name := "Dhuhr"; np_time := pt_dhuhr prayerTimes |};
    {| np_name := "Asr"; np_time := pt_asr prayerTimes |};
    {| np_name := "Maghrib"; np_time := pt_maghrib prayerTimes |};
    {| np_name := "Isha"; np_time := pt_isha prayerTimes |} ].

(** The [for] loop of [calculatePrayers] over what is left of the array:
    it stops at the first prayer that has begun and whose successor has
    not; [lastEnd] and [tomorrowFajr] are what the loop uses at the last
    index. *)
Fixpoint findCurrent (now lastEnd : Date) (tomorrowFajr : NextPrayer)
    (prayers : list NextPrayer) : option (CurrentPrayer * NextPrayer) :=
  match prayers with
  | [] => None
  | p :: rest =>
      match rest with
      | q :: _ =>
          if (np_time p <=? now) && (now <? np_time q)
          then Some ({| cp_name := np_name p; cp_time := np_time p;
                        cp_endTime := np_time q |}, q)
          else findCurrent now lastEnd tomorrowFajr rest
      | [] =>
          if np_time p <=? now
          then Some ({| cp_name := np_name p; cp_time := np_time p;
                        cp_endTime := lastEnd |}, tomorrowFajr)
          else None
      end
  end.

(** [calculatePrayers], when the clock reads [now]. *)
Definition calculatePrayers (tz : TimeZone) (now : Date)
    (prayerTimes : PrayerTimesMap)
  : option CurrentPrayer * option NextPrayer :=
  let today := Date_startOfDay tz now in
  let tomorrow := today + 24 * 60 * 60 * 1000 in
  let prayers := prayersOf prayerTimes in
  let fajrHours := Date_getHours tz (pt_fajr prayerTimes) in
  let fajrMinutes := Date_getMinutes tz (pt_fajr prayerTimes) in
  let lastEnd := tomorrow + fajrHours * 3600000 + fajrMinutes * 60000 in
  let tomorrowFajr :=
    {| np_name := "Fajr";
       np_time := Date_setHours tz tomorrow fajrHours fajrMinutes |} in
  match findCurrent now lastEnd tomorrowFajr prayers with
  | Some (current, next) => (Some current, Some next)
  | None =>
      (None,
       if now <? pt_fajr prayerTimes
       then Some {| np_name := "Fajr"; np_time := pt_fajr prayerTimes |}
       else None)
  end.

(** [n.toString()] of an integer (below 10^21, as every quotient of a
    time value is). *)
Definition Number_toString (n : Z) : string :=
  NilZero.string_of_int (Z.to_int n).

(** [s.padStart(2, '0')] *)
Definition padStart2 (s : string) : string :=
  match String.length s with
  | O => "00"
  | S O => "0" +:+ s
  | _ => s
  end.

(** The hours, minutes and seconds [updateCountdowns] shows for a
    positive number of milliseconds. *)
Definition countdownParts (ms : Z) : Z * Z * Z :=
  (ms / 3600000, (ms mod 3600000) / 60000, (ms mod 60000) / 1000).

(** [`${h...}:${m...}:${s...}`] *)
Definition formatCountdown (ms : Z) : string :=
  let '(h, m, s) := countdownParts ms in
  padStart2 (Number_toString h) +:+ ":" +:+
  padStart2 (Number_toString m) +:+ ":" +:+
  padStart2 (Number_toString s).

(** [updateCountdowns], as a function of the clock and of the two
    countdown strings the component holds. *)
Definition updateCountdowns (now : Date) (current : option CurrentPrayer)
    (next : option NextPrayer) (countdowns : string * string)
  : string * string :=
  let currentCountdown :=
    match current with
    | Some c =>
        let remaining := cp_endTime c - now in
        if 0 <? remaining then formatCountdown remaining else fst countdowns
    | None => EmptyString
    end in
  let nextCountdown :=
    match next with
    | Some n =>
        let diff := np_time n - now in
        if 0 <? diff then formatCountdown diff else "Now"
    | None => snd countdowns
    end in
  (currentCountdown, nextCountdown).

(** [playAdhan] as the event loop runs it: turn by turn, each turn
    running without interruption up to the next [await] of the player,
    where the function is suspended until the call has settled.  Between
    two turns of one invocation, turns of another may run.  (The reads of
    [getAdhanUrlForPrayer], which change nothing, are taken within the
    turn that asks for them.) *)
Definition playTurns (sound : SoundHandle) : World -> Task * World :=
  fun w =>
    (Awaiting (fun w =>
       match Audio.setVolumeAsync sound w with
       | (Resolved _, w) =>
           (Awaiting (fun w =>
              match Audio.playAsync sound w with
              | (Resolved _, w) => (Finished, w)
              | (Threw e, w) => (Finished, after (console_warn "Failed to play:" w))
              end), w)
       | (Threw e, w) => (Finished, after (console_warn "Failed to play:" w))
       end), w).

Definition createTurns (voicePath prayerName : option string)
  : World -> Task * World :=
  fun w =>
    match adhanUrlFor voicePath prayerName w with
    | (Resolved adhanUrl, w) =>
        (Awaiting (fun w =>
           match Audio.createAsync (Uri adhanUrl) w with
           | (Resolved sound, w) => playTurns sound (with_soundRef w (Some sound))
           | (Threw e, w) => (Finished, after (console_warn "Failed to play:" w))
           end), w)
    | (Threw e, w) => (Finished, after (console_warn "playAdhan failed" w))
    end.

Definition playAdhanTurns (voicePath prayerName : option string)
  : World -> Task * World :=
  fun w =>
    if silentMode w then (Finished, w) else
    match soundRef w with
    | Some current =>
        (Awaiting (fun w =>
           let w := after (try_catch (Audio.unloadAsync current)
                             (fun e => ret tt) w) in
           createTurns voicePath prayerName (with_soundRef w None)), w)
    | None => createTurns voicePath prayerName w
    end.

(** [onSchedule], without its alerts and the [scheduled] flag. *)
Definition onSchedule (prayerTimes : PrayerTimesMap) : Promise unit :=
  await granted <- NotificationsService.requestPermissions in
  if negb granted then ret tt else
  await _ <- NotificationsService.ensureNotificationChannel in
  attempt
    (await adhanUrl <- AdhanVoiceSelector.getAdhanUrlForPrayer "dhuhr" in
     await _ <- NotificationsService.scheduleDailyPrayerNotifications
                  (NotificationsService.Object_entries prayerTimes)
                  (Some adhanUrl) in
     ret tt)
  catch e => ret tt.

(** [onTestNotification] *)
Definition onTestNotification : Promise unit :=
  attempt
    (await granted <- NotificationsService.requestPermissions in
     if negb granted then ret tt else
     await _ <- NotificationsService.ensureNotificationChannel in
     await adhanUrl <- AdhanVoiceSelector.getAdhanUrlForPrayer "dhuhr" in
     await _ <- NotificationsService.scheduleTestNotification 1
                  (Some adhanUrl) in
     ret tt)
  catch e => ret tt.

End AppMain.

(** * Vocabulary of the properties

    Worlds used as witnesses and counterexamples, and the functions in
    whose terms the run of each operation is stated. *)

Import NotificationsService VoicesManager AdhanVoiceSelector.

(** ** Worlds *)

Definition empty_storage : Storage :=
  {| scheduled_ids := None; downloaded_voices := None;
     active_voice_id := None; selected_regular := None;
     selected_fajr := None |}.

(** Universal time: no offset and no transition. *)
Definition zone_utc : TimeZone := {| tz_initial := 0; tz_transitions := [] |}.

(** A freshly installed application at time [t], in a zone at universal
    time, where the calls for which [f] holds reject. *)
Definition fresh_world (t : Date) (f : Op -> bool) : World :=
  {| storage := empty_storage;
     documentDirectory := "file:///data/";
     files := {["file:///data/"]};
     android := true; permission := true;
     pending := []; next_notification := 0%nat;
     loaded := []; next_sound := 0%nat; audio_trace := [];
     soundRef := None; silentMode := false;
     now := t; timeZone := zone_utc; console := []; fails := f |}.

Definition never : Op -> bool := fun _ => false.

(** ** Cancelling and scheduling *)

(** No platform call rejects. *)
Definition reliable (w : World) : Prop := forall op, fails w op = false.

(** The persisted list of identifiers, as the code reads it. *)
Definition persisted_ids (w : World) : list NotificationId :=
  parse_array (scheduled_ids (storage w)).

Definition cancel_fails (w : World) (id : NotificationId) : bool :=
  fails w (CancelScheduledNotification id).

(** [n] is one of the notifications of [arr] whose cancellation goes
    through. *)
Definition cancelled (w : World) (arr : list NotificationId)
    (n : ScheduledNotification) : bool :=
  existsb (fun id => Nat.eqb (identifier n) id && negb (cancel_fails w id)) arr.

Definition survivors (w : World) (arr : list NotificationId)
  : list ScheduledNotification :=
  List.filter (fun n => negb (cancelled w arr n)) (pending w).

(** What [cancelAllScheduledNotifications] does, in full. *)
Definition after_cancelAll (w : World) : World :=
  if fails w (GetItem SCHEDULED_IDS_KEY) then w
  else
    let arr := persisted_ids w in
    let w1 := with_registry w (survivors w arr) (next_notification w) in
    if existsb (cancel_fails w) arr then w1
    else if fails w (RemoveItem SCHEDULED_IDS_KEY) then w1
    else with_storage w1 (AsyncStorage.set_scheduled_ids None (storage w)).

(** A notification as [scheduleNotificationForPrayer] registers it. *)
Definition notification (id : NotificationId) (tag : IdTag)
    (title body : string) (date : Date) (voicePath : option string)
  : ScheduledNotification :=
  {| identifier := id;
     content := {| title := title; body := body; sound := "default";
                   data := {| idTag := tag; voicePath := voicePath |} |};
     trigger := date |}.

(** Two notifications are pending, both named by the persisted list. *)
Definition world_two_pending (f : Op -> bool) : World :=
  let w := fresh_world 1000 f in
  with_storage
    (with_registry w
       [ notification 0%nat {| tag_name := "asr"; tag_stamp := 0 |}
           "asr prayer time" "It's time for asr prayer" 1500 None;
         notification 1%nat {| tag_name := "isha"; tag_stamp := 0 |}
           "isha prayer time" "It's time for isha prayer" 3000 None ]
       2%nat)
    (AsyncStorage.set_scheduled_ids (Some [0; 1]%nat) (storage w)).

Definition rejects_cancel : Op -> bool :=
  fun op =>
    match op with
    | CancelScheduledNotification _ => true
    | _ => false
    end.

Definition rejects_cancel_of (id : NotificationId) : Op -> bool :=
  fun op =>
    match op with
    | CancelScheduledNotification id' => Nat.eqb id' id
    | _ => false
    end.

(** The notifications a daily run registers for [entries], from
    identifier [id] on, when the clock reads [now]. *)
Fixpoint dailyNotifications (tz : TimeZone) (now : Date) (vp : option string)
    (id : NotificationId) (entries : list (string * Date))
  : list ScheduledNotification :=
  match entries with
  | [] => []
  | (name, dt) :: rest =>
      let d := scheduledDate tz dt now in
      notification id
        {| tag_name := name; tag_stamp := Date_toISODate d |}
        (name +:+ " prayer time") ("It's time for " +:+ name +:+ " prayer")
        d vp
      :: dailyNotifications tz now vp (S id) rest
  end.

Definition after_scheduleEntries (entries : list (string * Date))
    (vp : option string) (w : World) : World :=
  match entries with
  | [] => w
  | _ =>
      with_storage
        (with_registry w
           (pending w ++
            dailyNotifications (timeZone w) (now w) vp
              (next_notification w) entries)
           (length entries + next_notification w)%nat)
        (AsyncStorage.set_scheduled_ids
           (Some (persisted_ids w ++
                  seq (next_notification w) (length entries)))
           (storage w))
  end.

(** The pending notifications the persisted list does not name. *)
Definition tracked (arr : list NotificationId) (n : ScheduledNotification) : bool :=
  existsb (Nat.eqb (identifier n)) arr.

Definition untracked (w : World) : list ScheduledNotification :=
  List.filter (fun n => negb (tracked (persisted_ids w) n)) (pending w).

(** The platform hands out identifiers it has not used: those of the
    pending notifications are below the next one. *)
Definition fresh_ids (w : World) : Prop :=
  forall n, In n (pending w) -> (identifier n < next_notification w)%nat.

(** The local calendar day and the local time of day of an instant. *)
Definition local_day (tz : TimeZone) (d : Date) : Z := Day (LocalTime tz d).

Definition local_time (tz : TimeZone) (d : Date) : Z :=
  LocalTime tz d mod MS_PER_DAY.

(** No earlier instant shows the local reading of [t]. *)
Definition first_reading (tz : TimeZone) (t : Date) : Prop :=
  forall t', LocalTime tz t' = LocalTime tz t -> t <= t'.

(** From [a] to [b] the offset of the zone stays what it is at [a], and
    no local reading of these instants was shown before. *)
Definition zone_quiet (tz : TimeZone) (a b : Date) : Prop :=
  forall t, a <= t <= b ->
    offset_at tz t = offset_at tz a /\ first_reading tz t.

(** New York in 2026: five hours behind universal time, four from
    8 March, 07:00 UTC, to 1 November, 06:00 UTC. *)
Definition zone_new_york_2026 : TimeZone :=
  {| tz_initial := -18000000;
     tz_transitions := [ (1772953200000, -14400000);
                         (1793512800000, -18000000) ] |}.

(** Prayer times of 7 March 2026 in New York: 05:10, 06:20, 12:00,
    15:20, 17:55 and 19:10 local time. *)
Definition times_of_7_march : PrayerTimesMap :=
  {| pt_fajr := 1772878200000; pt_sunrise := 1772882400000;
     pt_dhuhr := 1772902800000; pt_asr := 1772914800000;
     pt_maghrib := 1772924100000; pt_isha := 1772928600000 |}.

(** Prayer times computed for the first day of the epoch, in a zone at
    UTC: 05:00, 06:15, 12:00, 15:30, 18:00 and 19:30. *)
Definition stale_times : PrayerTimesMap :=
  {| pt_fajr := 18000000; pt_sunrise := 22500000; pt_dhuhr := 43200000;
     pt_asr := 55800000; pt_maghrib := 64800000; pt_isha := 70200000 |}.

Definition TEST_BODY : string :=
  "This notification will play the active adhan voice when received.".

(** ** The voice store *)

(** The downloaded index, as the code reads it. *)
Definition downloaded_index (w : World) : list VoiceMeta :=
  parse_array (downloaded_voices (storage w)).

Definition has_id (id : string) (a : VoiceMeta) : bool :=
  String.eqb (vm_id a) id.

(** An index with two records, and an active voice. *)
Definition world_with_voices (active : option string) (f : Op -> bool) : World :=
  let w := fresh_world 1000 f in
  with_storage w
    (AsyncStorage.set_active_voice_id active
       (AsyncStorage.set_downloaded_voices
          (Some [ {| vm_id := "deep"; vm_name := "deep";
                     vm_path := Some "file:///data/voices/voice-deep.wav";
                     vm_variant := Some "deep" |};
                  {| vm_id := "remote-a"; vm_name := "Demo Voice A";
                     vm_path := Some "file:///data/voices/voice-remote-a.wav";
                     vm_variant := Some "remote-a" |} ])
          (storage w))).

Definition demo_voice_a : RemoteVoice :=
  {| rv_id := "remote-a"; rv_name := "Demo Voice A";
     rv_previewUrl := "https://actions.google.com/sounds/v1/alarms/beep_short.ogg" |}.

Definition rejects_download : Op -> bool :=
  fun op => match op with Download _ _ => true | _ => false end.

(** Where [downloadRemoteVoice] puts the file of the voice [id]. *)
Definition voice_file (w : World) (id : string) : string :=
  (documentDirectory w +:+ "voices/") +:+ "voice-" +:+ id +:+ ".wav".

(** The record [downloadVoice] makes and the world it leaves when no
    call rejects. *)
Definition synthetic_meta (w : World) (id : string) : VoiceMeta :=
  {| vm_id := id; vm_name := id; vm_path := Some (voice_file w id);
     vm_variant := Some id |}.

Definition after_downloadVoice (id : string) (w : World) : World :=
  with_storage
    (with_files w
       (files w ∪ {[documentDirectory w +:+ "voices/"]}
        ∪ {[documentDirectory w +:+ "adhan-synthetic-" +:+ id +:+ ".wav"]}
        ∪ {[voice_file w id]}))
    (AsyncStorage.set_downloaded_voices
       (Some (List.filter (other_than id) (downloaded_index w) ++
              [synthetic_meta w id]))
       (storage w)).

Definition after_removeDownloadedVoice (id : string) (w : World) : World :=
  with_storage
    (with_files w (files w ∖ {[voice_file w id]}))
    (AsyncStorage.set_active_voice_id
       (if bool_decide (active_voice_id (storage w) = Some id)
        then None else active_voice_id (storage w))
       (AsyncStorage.set_downloaded_voices
          (Some (List.filter (other_than id) (downloaded_index w)))
          (storage w))).

(** ** Playback and resolution *)

(** The world after the opening of [playAdhan]: the reference is
    dropped whether or not the unload went through. *)
Definition after_unloadPrevious (w : World) : World :=
  match soundRef w with
  | Some current =>
      with_soundRef
        (if fails w (UnloadSound current) then w
         else with_player w (Audio.unload current (loaded w)) (next_sound w)
                (audio_trace w ++ [Unloaded current]))
        None
  | None => w
  end.

Definition after_create (src : AudioSource) (w : World) : World :=
  with_soundRef
    (with_player w (loaded w ++ [next_sound w]) (S (next_sound w))
       (audio_trace w ++ [Created (next_sound w) src]))
    (Some (next_sound w)).

Definition after_start (h : SoundHandle) (w : World) : World :=
  with_player w (loaded w) (next_sound w) (audio_trace w ++ [Played h]).

Definition is_fajr (prayerName : string) : bool :=
  String.eqb (toLowerCase prayerName) "fajr".

(** The voice id the selector yields for a class: the stored one, or
    the default when none is stored or the store rejects the read. *)
Definition selected_id (w : World) (isFajr : bool) : string :=
  if isFajr
  then if fails w (GetItem STORAGE_KEY_FAJR) then "makkah-fajr"
       else or_else (selected_fajr (storage w)) "makkah-fajr"
  else if fails w (GetItem STORAGE_KEY_REGULAR) then "makkah-regular"
       else or_else (selected_regular (storage w)) "makkah-regular".

(** The same, read off the store: the id stored under the key of the
    class when the read goes through and the id is not empty, and the
    default id of the class otherwise. *)
Definition chosen_id (w : World) (isFajr : bool) : string :=
  let key := if isFajr then STORAGE_KEY_FAJR else STORAGE_KEY_REGULAR in
  let stored := if isFajr then selected_fajr (storage w)
                else selected_regular (storage w) in
  let default := if isFajr then "makkah-fajr" else "makkah-regular" in
  if fails w (GetItem key) then default
  else match stored with
       | Some (String c rest) => String c rest
       | Some EmptyString | None => default
       end.

Definition default_url (isFajr : bool) : string :=
  if isFajr then DEFAULT_FAJR_URL else DEFAULT_REGULAR_URL.

Definition local_file (w : World) (voice : AdhanVoice) : string :=
  documentDirectory w +:+ "adhan/" +:+ av_id voice +:+ ".mp3".

(** The local copy of [voice] is found: the file exists and the
    platform answers the question. *)
Definition local_found (w : World) (voice : AdhanVoice) : bool :=
  negb (fails w (GetInfo (local_file w voice))) &&
  FileSystem.exists_ (local_file w voice) w.

Definition resolved_url (w : World) (isFajr : bool) : string :=
  match AdhanVoices.getAdhanVoiceById (selected_id w isFajr) with
  | None => default_url isFajr
  | Some voice =>
      if local_found w voice then local_file w voice
      else av_previewUrl voice
  end.

Definition rejects_replay_of (h : SoundHandle) : Op -> bool :=
  fun op => match op with ReplaySound h' => Nat.eqb h' h | _ => false end.

Definition rejects_unload_of (h : SoundHandle) : Op -> bool :=
  fun op => match op with UnloadSound h' => Nat.eqb h' h | _ => false end.

(** The sounds loaded after an event, and after each event of a trace. *)
Definition apply_event (l : list SoundHandle) (ev : AudioEvent)
  : list SoundHandle :=
  match ev with
  | Created h _ => l ++ [h]
  | Unloaded h => Audio.unload h l
  | VolumeSet _ | Played _ => l
  end.

Definition loaded_after (l : list SoundHandle) (t : list AudioEvent)
  : list SoundHandle :=
  fold_left apply_event t l.

Fixpoint loaded_during (l : list SoundHandle) (t : list AudioEvent)
  : list (list SoundHandle) :=
  match t with
  | [] => []
  | ev :: t' => apply_event l ev :: loaded_during (apply_event l ev) t'
  end.

(** The only sound loaded is the one [soundRef] holds. *)
Definition held_by_ref (w : World) : Prop :=
  loaded w = match soundRef w with Some h => [h] | None => [] end.

Section PlayerVocabulary.
Variables (voicePath prayerName : option string).

(** The source the second shell plays. *)
Definition adhanUrl (w : World) : string :=
  match voicePath with
  | Some path =>
      if truthy voicePath then path
      else resolved_url w (is_fajr (or_else prayerName "dhuhr"))
  | None => resolved_url w (is_fajr (or_else prayerName "dhuhr"))
  end.

(** The inner [try] of the second shell's [playAdhan]: the world it
    leaves and the events it adds. *)
Definition after_play (src : AudioSource) (w : World) : World :=
  let h := next_sound w in
  if fails w (CreateSound src)
  then with_console w (console w ++ ["Failed to play:"])
  else
    let w1 := after_create src w in
    if fails w (SetVolume h)
    then with_console w1 (console w1 ++ ["Failed to play:"])
    else
      let w2 := with_player w1 (loaded w1) (next_sound w1)
                  (audio_trace w1 ++ [VolumeSet h]) in
      if fails w (PlaySound h)
      then with_console w2 (console w2 ++ ["Failed to play:"])
      else after_start h w2.

Definition events_of_play (src : AudioSource) (w : World) : list AudioEvent :=
  let h := next_sound w in
  if fails w (CreateSound src) then []
  else Created h src ::
       if fails w (SetVolume h) then []
       else VolumeSet h :: if fails w (PlaySound h) then [] else [Played h].

(** One invocation of the second shell's [playAdhan]. *)
Definition after_playAdhan (w : World) : World :=
  if silentMode w then w
  else after_play (Uri (adhanUrl (after_unloadPrevious w)))
         (after_unloadPrevious w).

Definition events_of_unload (w : World) : list AudioEvent :=
  match soundRef w with
  | Some h => if fails w (UnloadSound h) then [] else [Unloaded h]
  | None => []
  end.

Definition events_of_playAdhan (w : World) : list AudioEvent :=
  if silentMode w then []
  else events_of_unload w ++
       events_of_play (Uri (adhanUrl (after_unloadPrevious w)))
         (after_unloadPrevious w).

End PlayerVocabulary.

(** ** Rejections by call *)

Definition IdTag_eqb (a b : IdTag) : bool :=
  String.eqb (tag_name a) (tag_name b) && Z.eqb (tag_stamp a) (tag_stamp b).

(** The tag the daily run gives the notification of an entry. *)
Definition dailyTag (tz : TimeZone) (now : Date) (e : string * Date) : IdTag :=
  {| tag_name := fst e;
     tag_stamp := Date_toISODate (scheduledDate tz (snd e) now) |}.

Definition rejects_schedule_of (tag : IdTag) : Op -> bool :=
  fun op =>
    match op with
    | ScheduleNotification t => IdTag_eqb t tag
    | _ => false
    end.

Definition rejects_write_of_ids : Op -> bool :=
  fun op => match op with SetItem SCHEDULED_IDS_KEY => true | _ => false end.

(** A world where two notifications are pending and the user has not
    granted the permission to notify. *)
Definition world_without_permission (f : Op -> bool) : World :=
  let w := world_two_pending f in
  {| storage := storage w; documentDirectory := documentDirectory w;
     files := files w; android := android w; permission := false;
     pending := pending w; next_notification := next_notification w;
     loaded := loaded w; next_sound := next_sound w;
     audio_trace := audio_trace w; soundRef := soundRef w;
     silentMode := silentMode w; now := now w; timeZone := timeZone w;
     console := console w;
     fails := fails w |}.

(** ** Voices on disk *)

(** The record [downloadRemoteVoice] makes. *)
Definition remote_meta (w : World) (remote : RemoteVoice) : VoiceMeta :=
  {| vm_id := rv_id remote; vm_name := rv_name remote;
     vm_path := Some (voice_file w (rv_id remote));
     vm_variant := Some (rv_id remote) |}.

(** Where [generateSyntheticAdhan] writes the variant. *)
Definition synthetic_file (w : World) (variant : string) : string :=
  documentDirectory w +:+ "adhan-synthetic-" +:+ variant +:+ ".wav".

(** The two voices of the index are on disk, and [active] is the active
    voice. *)
Definition world_with_installed_voices (active : option string)
    (f : Op -> bool) : World :=
  with_files (world_with_voices active f)
    ({[ "file:///data/"; "file:///data/voices/";
        "file:///data/voices/voice-deep.wav";
        "file:///data/voices/voice-remote-a.wav" ]}).

Definition rejects_info : Op -> bool :=
  fun op => match op with GetInfo _ => true | _ => false end.

Definition rejects_write : Op -> bool :=
  fun op => match op with WriteFile _ => true | _ => false end.

(** The ids of the records of an index. *)
Definition index_ids (l : list VoiceMeta) : list string := map vm_id l.

(** ** The WAV header *)

(** The unsigned integer a run of bytes holds, least significant byte
    first. *)
Fixpoint little_endian (bytes : list Z) : Z :=
  match bytes with
  | [] => 0
  | b :: rest => b + 256 * little_endian rest
  end.

(** An integer that doubles hold exactly. *)
Definition safe_integer (x : Z) : Prop := - 2 ^ 53 < x < 2 ^ 53.

(** The [n] bytes of a buffer from [offset] on. *)
Definition bytes_at (offset n : nat) (buffer : list Z) : list Z :=
  firstn n (skipn offset buffer).

(** The codes of the characters of a four-letter chunk identifier. *)
Definition ascii_codes (s : string) : list Z :=
  map (fun c => Z.of_nat (nat_of_ascii c)) (list_ascii_of_string s).

(** ** The selection of the voice selector *)

(** The key under which the selector keeps the choice of a class, and
    whether a class is that of Fajr. *)
Definition selection_key (type : AdhanType) : Key :=
  match type with
  | regular => STORAGE_KEY_REGULAR
  | fajr => STORAGE_KEY_FAJR
  end.

Definition is_fajr_type (type : AdhanType) : bool :=
  match type with
  | regular => false
  | fajr => true
  end.

(** ** Prayer times and countdowns *)

(** The six instants follow one another. *)
Definition in_order (pt : PrayerTimesMap) : Prop :=
  pt_fajr pt <= pt_sunrise pt /\ pt_sunrise pt <= pt_dhuhr pt /\
  pt_dhuhr pt <= pt_asr pt /\ pt_asr pt <= pt_maghrib pt /\
  pt_maghrib pt <= pt_isha pt.

(** The prayer a [CurrentPrayer] was made from. *)
Definition begun (c : AppMain.CurrentPrayer) : AppMain.NextPrayer :=
  {| AppMain.np_name := AppMain.cp_name c;
     AppMain.np_time := AppMain.cp_time c |}.

(** A number below 100 in two decimal digits. *)
Definition digit (n : Z) : ascii := ascii_of_nat (48 + Z.to_nat n).

Definition two_digits (n : Z) : string :=
  String (digit (n / 10)) (String (digit (n mod 10)) EmptyString).

(** A zone at a fixed offset from universal time. *)
Definition fixed_zone (offset : Z) : TimeZone :=
  {| tz_initial := offset; tz_transitions := [] |}.

(** Prayer times of 4 July 2026 in New York: 03:50, 05:30, 13:00, 17:00,
    20:30 and 22:10 local time. *)
Definition times_of_4_july : PrayerTimesMap :=
  {| pt_fajr := 1783151400000; pt_sunrise := 1783157400000;
     pt_dhuhr := 1783184400000; pt_asr := 1783198800000;
     pt_maghrib := 1783211400000; pt_isha := 1783217400000 |}.

(** Prayer times of 1 November 2026 in New York, the day the clocks are
    set back: 05:30, 06:30, 11:40, 14:30, 16:50 and 18:10 local time. *)
Definition times_of_1_november : PrayerTimesMap :=
  {| pt_fajr := 1793529000000; pt_sunrise := 1793532600000;
     pt_dhuhr := 1793551200000; pt_asr := 1793561400000;
     pt_maghrib := 1793569800000; pt_isha := 1793574600000 |}.

(** Prayer times of a day in a zone three hours ahead of UTC: Fajr at
    04:30:20 local time. *)
Definition times_of_day_100 : PrayerTimesMap :=
  {| pt_fajr := 8645420000; pt_sunrise := 8650800000;
     pt_dhuhr := 8672400000; pt_asr := 8685000000;
     pt_maghrib := 8694000000; pt_isha := 8699400000 |}.

(** ** The Hijri date *)

(** The day, the month and the year within the cycle of thirty years
    that [toHijri] computes from the day [l2] of the cycle. *)
Definition hijriInCycle (l2 : Z) : Z * Z * Z :=
  let j := (10985 - l2) / 5316 * (50 * l2 / 17719)
           + l2 / 5670 * (43 * l2 / 15238) in
  let l3 := l2 - (30 - j) / 15 * (17719 * j / 50)
            - j / 16 * (15238 * j / 43) + 29 in
  let month := 24 * l3 / 709 in
  let day := l3 - 709 * month / 24 in
  (day, month, j).

Definition in_calendar (dmj : Z * Z * Z) : bool :=
  let '(d, m, j) := dmj in
  (1 <=? d) && (d <=? 30) && (1 <=? m) && (m <=? 12) &&
  (1 <=? j) && (j <=? 30).

(** [b] is the day after [a] within a cycle: the next day of the month,
    or the first of the next month after a 29th or 30th, or the first
    of the first month of the next year after a 29th or 30th of the
    twelfth. *)
Definition day_after (a b : Z * Z * Z) : bool :=
  let '(d, m, j) := a in
  let '(d', m', j') := b in
  ((d' =? d + 1) && (m' =? m) && (j' =? j)) ||
  ((d' =? 1) && (29 <=? d) && (m' =? m + 1) && (j' =? j)) ||
  ((d' =? 1) && (29 <=? d) && (m =? 12) && (m' =? 1) && (j' =? j + 1)).

(** ** Sounds that stay loaded *)

(** A computation that unloads nothing: whatever it does, the sounds
    loaded before it are still loaded after it, followed by those it
    has loaded. *)
Definition keeps_loaded {A} (m : Promise A) : Prop :=
  forall w, exists l, loaded (after (m w)) = loaded w ++ l.

Definition rejects_create_of (src : AudioSource) : Op -> bool :=
  fun op =>
    match op, src with
    | CreateSound (Uri u), Uri u' => String.eqb u u'
    | CreateSound BundledAsset, BundledAsset => true
    | _, _ => false
    end.

(** * Properties *)

(** ** Running a computation *)

Lemma fresh_world_reliable t : reliable (fresh_world t never).
Proof. intros op. reflexivity. Qed.

(** Projections of an updated world. *)
Ltac proj :=
  cbn [ storage documentDirectory files android permission pending
        next_notification loaded next_sound audio_trace soundRef silentMode
        now timeZone console fails
        with_storage with_files with_registry with_player with_soundRef
        with_console with_timeZone
        scheduled_ids downloaded_voices active_voice_id selected_regular
        selected_fajr
        AsyncStorage.set_scheduled_ids AsyncStorage.set_downloaded_voices
        AsyncStorage.set_active_voice_id
        idTag voicePath title body sound data identifier content trigger
        result after fst snd ] in *.

Section Run.
Context {A B : Type}.

Lemma bind_run (m : Promise A) (k : A -> Promise B) w :
  bind m k w =
  match m w with
  | (Resolved a, w') => k a w'
  | (Threw e, w') => (Threw e, w')
  end.
Proof. reflexivity. Qed.

Lemma try_run (m : Promise A) (h : Error -> Promise A) w :
  try_catch m h w =
  match m w with
  | (Resolved a, w') => (Resolved a, w')
  | (Threw e, w') => h e w'
  end.
Proof. reflexivity. Qed.

Lemma ret_run (a : A) w : ret a w = (Resolved a, w).
Proof. reflexivity. Qed.

Lemma throw_run e w : @throw A e w = (Threw e, w).
Proof. reflexivity. Qed.

End Run.

Lemma get_run w : get w = (Resolved w, w).
Proof. reflexivity. Qed.

Lemma modify_run f w : modify f w = (Resolved tt, f w).
Proof. reflexivity. Qed.

Lemma call_run op w :
  call op w = if fails w op then (Threw (Rejected op), w) else (Resolved tt, w).
Proof. reflexivity. Qed.

Lemma Date_now_run w : Date_now w = (Resolved (now w), w).
Proof. reflexivity. Qed.

Lemma Date_timeZone_run w : Date_timeZone w = (Resolved (timeZone w), w).
Proof. reflexivity. Qed.

Lemma console_warn_run msg w :
  console_warn msg w = (Resolved tt, with_console w (console w ++ [msg])).
Proof. reflexivity. Qed.

Ltac run_core :=
  rewrite ?bind_run, ?try_run, ?ret_run, ?throw_run, ?get_run, ?modify_run,
    ?call_run, ?Date_now_run, ?Date_timeZone_run, ?console_warn_run.

(** Symbolic execution: unfold the next bind, run the primitive under
    it, reduce. *)
Ltac run := repeat (progress (run_core; cbv beta iota; proj)).

(** ** Run equations of the platform calls *)

Section PlatformRuns.
Variable w : World.

Lemma getItem_run {A} k (field : Storage -> option A) :
  AsyncStorage.getItem k field w =
  if fails w (GetItem k) then (Threw (Rejected (GetItem k)), w)
  else (Resolved (field (storage w)), w).
Proof. unfold AsyncStorage.getItem. run. by destruct (fails w _). Qed.

Lemma setItem_run {A} k (update : option A -> Storage -> Storage) v :
  AsyncStorage.setItem k update v w =
  if fails w (SetItem k) then (Threw (Rejected (SetItem k)), w)
  else (Resolved tt, with_storage w (update (Some v) (storage w))).
Proof. unfold AsyncStorage.setItem. run. by destruct (fails w _). Qed.

Lemma removeItem_run {A} k (update : option A -> Storage -> Storage) :
  AsyncStorage.removeItem k update w =
  if fails w (RemoveItem k) then (Threw (Rejected (RemoveItem k)), w)
  else (Resolved tt, with_storage w (update None (storage w))).
Proof. unfold AsyncStorage.removeItem. run. by destruct (fails w _). Qed.

Lemma scheduleNotificationAsync_run c date :
  Notifications.scheduleNotificationAsync c date w =
  if fails w (ScheduleNotification (idTag (data c)))
  then (Threw (Rejected (ScheduleNotification (idTag (data c)))), w)
  else (Resolved (next_notification w),
        with_registry w
          (pending w ++ [{| identifier := next_notification w;
                            content := c; trigger := date |}])
          (S (next_notification w))).
Proof.
  unfold Notifications.scheduleNotificationAsync. run.
  destruct (fails w _); [done|]. by run.
Qed.

Lemma cancelScheduledNotificationAsync_run id :
  Notifications.cancelScheduledNotificationAsync id w =
  if fails w (CancelScheduledNotification id)
  then (Threw (Rejected (CancelScheduledNotification id)), w)
  else (Resolved tt,
        with_registry w
          (List.filter (fun n => negb (Nat.eqb (identifier n) id)) (pending w))
          (next_notification w)).
Proof.
  unfold Notifications.cancelScheduledNotificationAsync. run.
  by destruct (fails w _).
Qed.

Lemma ensureNotificationChannel_run :
  NotificationsService.ensureNotificationChannel w =
  if android w && fails w SetNotificationChannel
  then (Threw (Rejected SetNotificationChannel), w)
  else (Resolved tt, w).
Proof.
  unfold NotificationsService.ensureNotificationChannel,
    Notifications.setNotificationChannelAsync. run.
  destruct (android w); [|done]. run. by destruct (fails w _).
Qed.

Lemma requestPermissions_run :
  NotificationsService.requestPermissions w =
  if fails w RequestPermissions then (Threw (Rejected RequestPermissions), w)
  else (Resolved (permission w), w).
Proof.
  unfold NotificationsService.requestPermissions,
    Notifications.requestPermissionsAsync. run. by destruct (fails w _).
Qed.

Lemma getInfoAsync_run path :
  FileSystem.getInfoAsync path w =
  if fails w (GetInfo path) then (Threw (Rejected (GetInfo path)), w)
  else (Resolved (FileSystem.exists_ path w), w).
Proof. unfold FileSystem.getInfoAsync. run. by destruct (fails w _). Qed.

Lemma makeDirectoryAsync_run dir :
  FileSystem.makeDirectoryAsync dir w =
  if fails w (MakeDirectory dir) then (Threw (Rejected (MakeDirectory dir)), w)
  else (Resolved tt, with_files w (files w ∪ {[dir]})).
Proof. unfold FileSystem.makeDirectoryAsync. run. by destruct (fails w _). Qed.

Lemma deleteAsync_run path :
  FileSystem.deleteAsync path w =
  if fails w (DeleteFile path) then (Threw (Rejected (DeleteFile path)), w)
  else (Resolved tt, with_files w (files w ∖ {[path]})).
Proof. unfold FileSystem.deleteAsync. run. by destruct (fails w _). Qed.

Lemma downloadAsync_run url path :
  FileSystem.downloadAsync url path w =
  if fails w (Download url path) then (Threw (Rejected (Download url path)), w)
  else (Resolved tt, with_files w (files w ∪ {[path]})).
Proof. unfold FileSystem.downloadAsync. run. by destruct (fails w _). Qed.

Lemma writeAsStringAsync_run path :
  FileSystem.writeAsStringAsync path w =
  if fails w (WriteFile path) then (Threw (Rejected (WriteFile path)), w)
  else (Resolved tt, with_files w (files w ∪ {[path]})).
Proof. unfold FileSystem.writeAsStringAsync. run. by destruct (fails w _). Qed.

Lemma copyAsync_run from to :
  FileSystem.copyAsync from to w =
  if fails w (CopyFile from to) then (Threw (Rejected (CopyFile from to)), w)
  else if FileSystem.exists_ from w
       then (Resolved tt, with_files w (files w ∪ {[to]}))
       else (Threw (NoSuchFile from), w).
Proof.
  unfold FileSystem.copyAsync. run. destruct (fails w _); [done|]. run.
  destruct (FileSystem.exists_ from w); by run.
Qed.

Lemma createAsync_run src :
  Audio.createAsync src w =
  if fails w (CreateSound src) then (Threw (Rejected (CreateSound src)), w)
  else (Resolved (next_sound w),
        with_player w (loaded w ++ [next_sound w]) (S (next_sound w))
          (audio_trace w ++ [Created (next_sound w) src])).
Proof.
  unfold Audio.createAsync. run. destruct (fails w _); [done|]. by run.
Qed.

Lemma unloadAsync_run h :
  Audio.unloadAsync h w =
  if fails w (UnloadSound h) then (Threw (Rejected (UnloadSound h)), w)
  else (Resolved tt,
        with_player w (Audio.unload h (loaded w)) (next_sound w)
          (audio_trace w ++ [Unloaded h])).
Proof. unfold Audio.unloadAsync. run. by destruct (fails w _). Qed.

Lemma start_run op h :
  Audio.start op h w =
  if fails w op then (Threw (Rejected op), w)
  else (Resolved tt,
        with_player w (loaded w) (next_sound w)
          (audio_trace w ++ [Played h])).
Proof. unfold Audio.start. run. by destruct (fails w _). Qed.

Lemma setVolumeAsync_run h :
  Audio.setVolumeAsync h w =
  if fails w (SetVolume h) then (Threw (Rejected (SetVolume h)), w)
  else (Resolved tt,
        with_player w (loaded w) (next_sound w)
          (audio_trace w ++ [VolumeSet h])).
Proof. unfold Audio.setVolumeAsync. run. by destruct (fails w _). Qed.

End PlatformRuns.

Ltac run_platform :=
  rewrite ?getItem_run, ?setItem_run, ?removeItem_run,
    ?scheduleNotificationAsync_run, ?cancelScheduledNotificationAsync_run,
    ?ensureNotificationChannel_run, ?requestPermissions_run,
    ?getInfoAsync_run, ?makeDirectoryAsync_run, ?deleteAsync_run,
    ?downloadAsync_run, ?writeAsStringAsync_run, ?copyAsync_run,
    ?createAsync_run, ?unloadAsync_run, ?start_run, ?setVolumeAsync_run.

(** Symbolic execution through platform calls; [exec_reliable H] when
    [H] says that no call rejects. *)
Ltac exec :=
  repeat (progress (run_core; run_platform; cbv beta iota; proj)).

Ltac exec_reliable H :=
  repeat (progress (exec; rewrite ?H, ?andb_false_r; cbv beta iota; proj)).

(** ** Cancelling: [cancelAllScheduledNotifications] *)

Section Cancel.

Lemma with_registry_id w : with_registry w (pending w) (next_notification w) = w.
Proof. by destruct w. Qed.

Lemma filter_all {X} (l : list X) : List.filter (fun _ => true) l = l.
Proof. induction l; simpl; congruence. Qed.

Lemma filter_filter {X} (p q : X -> bool) l :
  List.filter q (List.filter p l) = List.filter (fun x => p x && q x) l.
Proof.
  induction l as [|x l IH]; simpl; [done|].
  destruct (p x); simpl; [destruct (q x)|]; by rewrite IH.
Qed.

Lemma survivors_nil w : survivors w [] = pending w.
Proof. apply filter_all. Qed.

(** [Promise.all(arr.map(cancel))]: every cancellation that does not
    reject takes effect; the first rejection, if any, is the result. *)
Lemma promise_all_cancel arr : forall w,
  promise_all (map Notifications.cancelScheduledNotificationAsync arr) w =
  (match List.find (cancel_fails w) arr with
   | Some id => Threw (Rejected (CancelScheduledNotification id))
   | None => Resolved (map (fun _ => tt) arr)
   end,
   with_registry w (survivors w arr) (next_notification w)).
Proof.
  induction arr as [|id arr IH]; intros w.
  - simpl. by rewrite ret_run, survivors_nil, with_registry_id.
  - cbn [map promise_all List.find].
    rewrite cancelScheduledNotificationAsync_run.
    unfold survivors, cancelled. cbn [existsb]. fold (cancel_fails w id).
    destruct (cancel_fails w id) eqn:Hid; cbv beta iota; rewrite IH.
    + cbn [snd]. do 2 f_equal. apply filter_ext. intros n.
      by rewrite andb_false_r.
    + unfold survivors, cancelled, cancel_fails. proj.
      rewrite filter_filter.
      assert (List.filter
                (fun x => negb (identifier x =? id)%nat &&
                   negb (existsb (fun id0 => (identifier x =? id0)%nat &&
                           negb (fails w (CancelScheduledNotification id0))) arr))
                (pending w) =
              List.filter
                (fun n => negb ((identifier n =? id)%nat && negb false
                   || existsb (fun id0 => (identifier n =? id0)%nat &&
                        negb (fails w (CancelScheduledNotification id0))) arr))
                (pending w)) as ->.
      { apply filter_ext. intros n. rewrite andb_true_r.
        by rewrite negb_orb. }
      by destruct (List.find _ arr).
Qed.

Lemma find_existsb {X} (p : X -> bool) l :
  existsb p l = match List.find p l with Some _ => true | None => false end.
Proof. induction l as [|x l IH]; simpl; [done|]. by destruct (p x). Qed.

Lemma cancelAll_run w :
  cancelAllScheduledNotifications w = (Resolved tt, after_cancelAll w).
Proof.
  unfold cancelAllScheduledNotifications, after_cancelAll. exec.
  destruct (fails w (GetItem _)); [by exec|]. exec.
  rewrite promise_all_cancel, find_existsb. fold (persisted_ids w).
  destruct (List.find _ _); exec; [done|].
  by destruct (fails w (RemoveItem _)).
Qed.

Lemma survivors_again w arr p :
  List.filter (fun n => negb (cancelled w arr n))
    (List.filter (fun n => negb (cancelled w arr n)) p) =
  List.filter (fun n => negb (cancelled w arr n)) p.
Proof.
  rewrite filter_filter. apply filter_ext. intros n. apply andb_diag.
Qed.

Lemma survivors_settled w arr s :
  survivors
    (with_registry w (survivors w arr) (next_notification w)) arr =
  survivors w arr /\
  survivors
    (with_storage (with_registry w (survivors w arr) (next_notification w)) s)
    arr = survivors w arr.
Proof. split; exact (survivors_again w arr (pending w)). Qed.

Lemma after_cancelAll_idempotent w :
  after_cancelAll (after_cancelAll w) = after_cancelAll w.
Proof.
  unfold after_cancelAll at 2.
  destruct (fails w (GetItem SCHEDULED_IDS_KEY)) eqn:Hget.
  { unfold after_cancelAll. by rewrite Hget. }
  cbv zeta.
  destruct (existsb (cancel_fails w) (persisted_ids w)) eqn:Hc;
    [|destruct (fails w (RemoveItem SCHEDULED_IDS_KEY)) eqn:Hrm].
  - unfold after_cancelAll. proj. rewrite Hget. cbv zeta.
    change (persisted_ids (with_registry w _ _)) with (persisted_ids w).
    rewrite (proj1 (survivors_settled w _ (storage w))).
    change (cancel_fails (with_registry w _ _)) with (cancel_fails w).
    by rewrite Hc.
  - unfold after_cancelAll. proj. rewrite Hget. cbv zeta.
    change (persisted_ids (with_registry w _ _)) with (persisted_ids w).
    rewrite (proj1 (survivors_settled w _ (storage w))).
    change (cancel_fails (with_registry w _ _)) with (cancel_fails w).
    by rewrite Hc, Hrm.
  - unfold after_cancelAll. proj. rewrite Hget, Hrm. cbv zeta.
    change (persisted_ids (with_storage _ _)) with (@nil NotificationId).
    cbn [existsb]. by rewrite survivors_nil, Hc.
Qed.

Lemma cancelled_true w arr n :
  cancelled w arr n = true <->
  In (identifier n) arr /\ cancel_fails w (identifier n) = false.
Proof.
  unfold cancelled. rewrite existsb_exists. split.
  - intros (id & Hin & H). apply andb_prop in H as [H1 H2].
    apply Nat.eqb_eq in H1. subst id. split; [done|].
    by apply negb_true_iff.
  - intros [Hin H]. exists (identifier n). split; [done|].
    by rewrite Nat.eqb_refl, H.
Qed.

Lemma in_survivors w arr n :
  In n (survivors w arr) <->
  In n (pending w) /\
  ~ (In (identifier n) arr /\ cancel_fails w (identifier n) = false).
Proof.
  unfold survivors. rewrite filter_In, negb_true_iff.
  rewrite <- cancelled_true. by destruct (cancelled w arr n); intuition.
Qed.

End Cancel.

(** C5, as stated, fails: with two listed notifications of which the
    first cannot be cancelled, [cancelAllScheduledNotifications] returns
    normally but the persisted list is not cleared, and nothing is
    logged. *)
Lemma cancelAll_keeps_list_when_a_cancel_rejects :
  let w := world_two_pending (rejects_cancel_of 0%nat) in
  let r := NotificationsService.cancelAllScheduledNotifications w in
  persisted_ids w = [0; 1]%nat /\
  cancel_fails w 0%nat = true /\
  result r = Resolved tt /\
  persisted_ids (after r) = [0; 1]%nat /\
  map identifier (pending (after r)) = [0%nat] /\
  console (after r) = console w.
Proof. vm_compute. repeat split. Qed.

(** C5 (amended): [cancelAllScheduledNotifications] never passes a
    failure on to its caller; every listed identifier whose cancellation
    is not rejected is no longer pending afterwards and no unlisted
    notification is touched; the persisted list is cleared when neither
    a cancellation nor a storage call rejects; with an empty list the
    call succeeds and changes no pending notification; and running it a
    second time changes nothing more. *)
Theorem cancelAll_swallows_and_clears (w : World) :
  let r := NotificationsService.cancelAllScheduledNotifications w in
  result r = Resolved tt /\
  (fails w (GetItem SCHEDULED_IDS_KEY) = false ->
   forall n, In n (pending (after r)) <->
             In n (pending w) /\
             ~ (In (identifier n) (persisted_ids w) /\
                cancel_fails w (identifier n) = false)) /\
  (fails w (GetItem SCHEDULED_IDS_KEY) = false ->
   fails w (RemoveItem SCHEDULED_IDS_KEY) = false ->
   (forall id, In id (persisted_ids w) -> cancel_fails w id = false) ->
   scheduled_ids (storage (after r)) = None) /\
  (persisted_ids w = [] ->
   pending (after r) = pending w /\ persisted_ids (after r) = []) /\
  NotificationsService.cancelAllScheduledNotifications (after r) = r.
Proof.
  cbv zeta. rewrite !cancelAll_run. proj.
  split; [done|]. split; [|split; [|split]].
  - intros Hget n. unfold after_cancelAll. rewrite Hget. proj.
    destruct (existsb _ _); [|destruct (fails w (RemoveItem _))]; proj;
      apply in_survivors.
  - intros Hget Hrm Hall. unfold after_cancelAll. rewrite Hget, Hrm.
    assert (existsb (cancel_fails w) (persisted_ids w) = false) as ->; [|done].
    apply not_true_is_false. intros (id & Hin & Hf)%existsb_exists.
    rewrite Hall in Hf; done.
  - intros Hnil. unfold after_cancelAll. rewrite Hnil. cbn [existsb].
    rewrite survivors_nil, with_registry_id.
    destruct (fails w (GetItem _)); [by rewrite Hnil|].
    destruct (fails w (RemoveItem _)); [by rewrite Hnil|]. done.
  - by rewrite after_cancelAll_idempotent.
Qed.

Lemma cancelAll_swallows_and_clears_witness :
  scheduled_ids
    (storage (after (NotificationsService.cancelAllScheduledNotifications
                       (world_two_pending never)))) = None.
Proof.
  apply (cancelAll_swallows_and_clears (world_two_pending never));
    intros; reflexivity.
Defined.

(** ** Scheduling: [scheduleNotificationForPrayer] and the daily run *)

Section Schedule.

(** What [scheduleNotificationForPrayer] does, in full: the
    notification is registered, and its identifier is appended to the
    persisted list unless the store rejects the read or the write. *)
Lemma scheduleNotificationForPrayer_run w tag t b date vp :
  scheduleNotificationForPrayer tag t b date vp w =
  if fails w (ScheduleNotification tag)
  then (Threw (Rejected (ScheduleNotification tag)), w)
  else
    let id := next_notification w in
    let w1 := with_registry w (pending w ++ [notification id tag t b date vp])
                (S id) in
    (Resolved id,
     if fails w (GetItem SCHEDULED_IDS_KEY) || fails w (SetItem SCHEDULED_IDS_KEY)
     then w1
     else with_storage w1
            (AsyncStorage.set_scheduled_ids
               (Some (persisted_ids w ++ [id])) (storage w))).
Proof.
  unfold scheduleNotificationForPrayer. exec.
  destruct (fails w (ScheduleNotification tag)); [done|]. exec.
  destruct (fails w (GetItem _)); exec; [done|].
  by destruct (fails w (SetItem _)); exec.
Qed.

Lemma dailyNotifications_identifier tz now vp entries : forall id,
  map identifier (dailyNotifications tz now vp id entries) =
  seq id (length entries).
Proof.
  induction entries as [|[name dt] rest IH]; intros id; simpl; [done|].
  by rewrite IH.
Qed.

Lemma dailyNotifications_trigger tz now vp entries : forall id,
  map trigger (dailyNotifications tz now vp id entries) =
  map (fun e => scheduledDate tz (snd e) now) entries.
Proof.
  induction entries as [|[name dt] rest IH]; intros id; simpl; [done|].
  by rewrite IH.
Qed.

Lemma dailyNotifications_voicePath tz now vp entries : forall id,
  Forall (fun n => voicePath (data (content n)) = vp)
    (dailyNotifications tz now vp id entries).
Proof.
  induction entries as [|[name dt] rest IH]; intros id; simpl; auto.
Qed.

Lemma dailyNotifications_name tz now vp entries : forall id,
  map (fun n => tag_name (idTag (data (content n))))
    (dailyNotifications tz now vp id entries) = map fst entries.
Proof.
  induction entries as [|[name dt] rest IH]; intros id; simpl; [done|].
  by rewrite IH.
Qed.

Lemma scheduleEntries_run vp entries : forall scheduled w,
  reliable w ->
  scheduleEntries entries vp scheduled w =
  (Resolved (scheduled ++ seq (next_notification w) (length entries)),
   after_scheduleEntries entries vp w).
Proof.
  induction entries as [|[name dt] rest IH]; intros scheduled w Hw.
  - simpl. by rewrite ret_run, app_nil_r.
  - cbn [scheduleEntries]. exec.
    rewrite scheduleNotificationForPrayer_run, !Hw. cbv beta iota zeta.
    cbn [orb]. rewrite IH by (intros op; apply Hw).
    proj. rewrite <- app_assoc. cbn [app length seq].
    f_equal. unfold after_scheduleEntries.
    destruct rest as [|e rest]; [done|]. proj.
    unfold persisted_ids. proj. cbn [parse_array].
    rewrite <- !app_assoc. cbn [app]. rewrite Nat.add_succ_r.
    destruct e. reflexivity.
Qed.

Lemma existsb_pointwise {X} (p q : X -> bool) l :
  (forall x, p x = q x) -> existsb p l = existsb q l.
Proof. intros H. induction l; simpl; [done|]. by rewrite H, IHl. Qed.

Lemma survivors_reliable w arr :
  reliable w ->
  survivors w arr = List.filter (fun n => negb (tracked arr n)) (pending w).
Proof.
  intros Hw. apply filter_ext. intros n. f_equal.
  unfold cancelled, tracked, cancel_fails. apply existsb_pointwise.
  intros id. by rewrite Hw, andb_true_r.
Qed.

Lemma after_cancelAll_reliable w :
  reliable w ->
  after_cancelAll w =
  with_storage (with_registry w (untracked w) (next_notification w))
    (AsyncStorage.set_scheduled_ids None (storage w)).
Proof.
  intros Hw. unfold after_cancelAll. rewrite !Hw.
  assert (existsb (cancel_fails w) (persisted_ids w) = false) as ->.
  { apply not_true_is_false. intros (id & _ & Hf)%existsb_exists.
    unfold cancel_fails in Hf. by rewrite Hw in Hf. }
  cbv zeta. by rewrite survivors_reliable.
Qed.

(** A daily run when no call rejects. *)
Lemma scheduleDaily_run entries vp w :
  reliable w ->
  scheduleDailyPrayerNotifications entries vp w =
  (Resolved (seq (next_notification w) (length entries)),
   after_scheduleEntries entries vp (after_cancelAll w)).
Proof.
  intros Hw. unfold scheduleDailyPrayerNotifications. exec.
  rewrite cancelAll_run. exec.
  assert (reliable (after_cancelAll w)) as Hw'.
  { rewrite after_cancelAll_reliable by done. intros op. apply Hw. }
  rewrite Hw', andb_false_r. cbv beta iota zeta.
  rewrite scheduleEntries_run by done.
  by rewrite after_cancelAll_reliable.
Qed.

End Schedule.

(** ** The daily run (C1, C2) and the test notification (C4) *)


Section LocalTimeFacts.
Variable tz : TimeZone.

Lemma offset_from_in o transitions t :
  In (offset_from o transitions t) (o :: map snd transitions).
Proof.
  revert o. induction transitions as [|[instant o'] rest IH]; intros o.
  - by left.
  - cbn [offset_from map snd]. destruct (instant <=? t); [|by left].
    right. apply IH.
Qed.

Lemma offset_at_in t : In (offset_at tz t) (offsets tz).
Proof. apply offset_from_in. Qed.

Lemma skipped_by_in o transitions tl o' :
  skipped_by o transitions tl = Some o' -> In o' (o :: map snd transitions).
Proof.
  revert o. induction transitions as [|[instant o''] rest IH]; intros o.
  - discriminate.
  - cbn [skipped_by map snd]. destruct (_ && _).
    + intros [= <-]. by left.
    + intros H. right. by apply IH.
Qed.

Lemma fold_max_greatest o rest :
  In (fold_right Z.max o rest) (o :: rest) /\
  forall x, In x (o :: rest) -> x <= fold_right Z.max o rest.
Proof.
  induction rest as [|a rest [IHin IHmax]]; cbn [fold_right].
  - split; [by left|]. intros x [<-|[]]. lia.
  - split.
    + destruct (Z.max_spec a (fold_right Z.max o rest)) as [[_ ->]|[_ ->]].
      * destruct IHin as [<-|Hin]; [by left|]. right. by right.
      * right. by left.
    + intros x [<-|[<-|Hin]].
      * specialize (IHmax o ltac:(by left)). lia.
      * lia.
      * specialize (IHmax x ltac:(by right)). lia.
Qed.

Lemma possible_offsets_reading tl t :
  LocalTime tz t = tl -> In (offset_at tz t) (possible_offsets tz tl).
Proof.
  intros <-. apply filter_In. split; [apply offset_at_in|].
  apply Z.eqb_eq. unfold LocalTime. f_equal. lia.
Qed.

(** The instant of a local reading that some instant shows: the first
    instant that shows it. *)
Lemma UTC_of_reading tl :
  (exists t, LocalTime tz t = tl) ->
  LocalTime tz (UTC tz tl) = tl /\
  forall t, LocalTime tz t = tl -> UTC tz tl <= t.
Proof.
  intros [t0 Ht0]. unfold UTC.
  pose proof (possible_offsets_reading tl t0 Ht0) as Hin0.
  destruct (possible_offsets tz tl) as [|o rest] eqn:E; [destruct Hin0|].
  destruct (fold_max_greatest o rest) as [Hin Hmax]. rewrite <- E in Hin, Hmax.
  apply filter_In in Hin as [_ Heq]. apply Z.eqb_eq in Heq. split.
  - unfold LocalTime. rewrite Heq. lia.
  - intros t Ht. specialize (Hmax _ (possible_offsets_reading tl t Ht)).
    unfold LocalTime in Ht. lia.
Qed.

(** Whatever the reading, its instant is the reading less one of the
    offsets of the zone. *)
Lemma UTC_offset tl : exists o, In o (offsets tz) /\ UTC tz tl = tl - o.
Proof.
  unfold UTC. destruct (possible_offsets tz tl) as [|o rest] eqn:E.
  - destruct (skipped_by _ _ tl) as [o|] eqn:Hs.
    + exists o. split; [by apply skipped_by_in in Hs|done].
    + exists (tz_initial tz). split; [by left|done].
  - destruct (fold_max_greatest o rest) as [Hin _]. rewrite <- E in Hin.
    apply filter_In in Hin as [Hin _]. by eexists.
Qed.

Lemma UTC_LocalTime t : first_reading tz t -> UTC tz (LocalTime tz t) = t.
Proof.
  intros Hfirst.
  destruct (UTC_of_reading (LocalTime tz t)) as [Hreads Hleast]; [by eexists|].
  specialize (Hleast t eq_refl). specialize (Hfirst _ Hreads). lia.
Qed.

(** [setDate(getDate() + 1)] when some instant shows the reading one
    day on. *)
Lemma Date_addDay_wall_clock d :
  (exists t, LocalTime tz t = LocalTime tz d + MS_PER_DAY) ->
  local_day tz (Date_addDay tz d) = local_day tz d + 1 /\
  local_time tz (Date_addDay tz d) = local_time tz d /\
  (forall t, LocalTime tz t = LocalTime tz d + MS_PER_DAY ->
             Date_addDay tz d <= t) /\
  Date_addDay tz d - d =
    MS_PER_DAY - (offset_at tz (Date_addDay tz d) - offset_at tz d).
Proof.
  intros Hreads. unfold Date_addDay.
  change msPerDay with MS_PER_DAY.
  destruct (UTC_of_reading _ Hreads) as [Hl Hleast].
  unfold local_day, local_time, Day. change msPerDay with MS_PER_DAY.
  rewrite Hl. split; [|split; [|split; [done|]]].
  - replace (LocalTime tz d + MS_PER_DAY)
      with (LocalTime tz d + 1 * MS_PER_DAY) by lia.
    by apply Z_div_plus_full.
  - replace (LocalTime tz d + MS_PER_DAY)
      with (LocalTime tz d + 1 * MS_PER_DAY) by lia.
    by apply Z_mod_plus_full.
  - unfold LocalTime in Hl |- *. lia.
Qed.

Lemma Date_addDay_offset d :
  exists o, In o (offsets tz) /\
            Date_addDay tz d = d + MS_PER_DAY - (o - offset_at tz d).
Proof.
  unfold Date_addDay. destruct (UTC_offset (LocalTime tz d + msPerDay))
    as (o & Hin & ->).
  exists o. split; [done|]. unfold LocalTime, msPerDay, MS_PER_DAY. lia.
Qed.

(** [setDate(getDate() + 1)] over a day without a change of offset. *)
Lemma Date_addDay_quiet d :
  zone_quiet tz d (d + MS_PER_DAY) -> Date_addDay tz d = d + MS_PER_DAY.
Proof.
  intros Hquiet. unfold Date_addDay. change msPerDay with MS_PER_DAY.
  destruct (Hquiet (d + MS_PER_DAY)) as [Hoff Hfirst];
    [unfold MS_PER_DAY; lia|].
  replace (LocalTime tz d + MS_PER_DAY) with (LocalTime tz (d + MS_PER_DAY))
    by (unfold LocalTime; lia).
  by apply UTC_LocalTime.
Qed.

Lemma scheduledDate_future dt now :
  now - MS_PER_DAY < dt ->
  (dt <= now -> zone_quiet tz dt (dt + MS_PER_DAY)) ->
  now < scheduledDate tz dt now.
Proof.
  unfold scheduledDate. intros H Hquiet.
  destruct (Z.leb_spec dt now); [|lia].
  rewrite Date_addDay_quiet by auto. lia.
Qed.

End LocalTimeFacts.

(** A zone without transitions is quiet throughout. *)
Lemma zone_quiet_without_transitions tz a b :
  tz_transitions tz = [] -> zone_quiet tz a b.
Proof.
  intros Hnone t _. unfold first_reading, LocalTime, offset_at.
  rewrite Hnone. cbn [offset_from]. split; [done|]. intros t' H. lia.
Qed.

Lemma untracked_nil w :
  (forall n, In n (pending w) -> In (identifier n) (persisted_ids w)) ->
  untracked w = [].
Proof.
  intros H. unfold untracked.
  induction (pending w) as [|n l IH]; simpl; [done|].
  assert (tracked (persisted_ids w) n = true) as ->.
  { unfold tracked. apply existsb_exists. exists (identifier n).
    split; [apply H; by left | apply Nat.eqb_refl]. }
  simpl. apply IH. intros m Hm. apply H. by right.
Qed.

(** C1, as stated, fails: when the scheduler runs at noon two days after
    the day the instants were computed for, every instant is in the past,
    six notifications are registered, and each of them is still in the
    past: one day is added, once. *)
Lemma scheduleDaily_stale_instants_stay_past :
  let w := fresh_world (2 * MS_PER_DAY + 43200000) never in
  let r := scheduleDailyPrayerNotifications (Object_entries stale_times) None w in
  Forall (fun e => snd e <= now w) (Object_entries stale_times) /\
  length (pending (after r)) = 6%nat /\
  Forall (fun n => trigger n <= now w) (pending (after r)).
Proof.
  cbv zeta. rewrite scheduleDaily_run by apply fresh_world_reliable.
  split; [|split].
  - repeat constructor; vm_compute; discriminate.
  - reflexivity.
  - repeat constructor; vm_compute; discriminate.
Qed.

(** A rolled instant can stay in the past although it is less than a
    day old: in New York at 12:30 on 8 March 2026, the day the clocks
    are set forward, the Dhuhr of 7 March, 12:00, is rolled to 12:00 of
    8 March, twenty-three hours later. *)
Lemma scheduleDaily_short_day_stays_past :
  let w := with_timeZone (fresh_world 1772987400000 never)
             zone_new_york_2026 in
  let r := scheduleDailyPrayerNotifications
             (Object_entries times_of_7_march) None w in
  now w - MS_PER_DAY < pt_dhuhr times_of_7_march <= now w /\
  map trigger (pending (after r)) =
    [ 1772961000000; 1772965200000; 1772985600000; 1772997600000;
      1773006900000; 1773011400000 ] /\
  1772985600000 < now w.
Proof.
  cbv zeta. rewrite scheduleDaily_run by (intros op; reflexivity).
  vm_compute. repeat split; discriminate.
Qed.

(** C1 (amended): when no platform call rejects, a daily run registers
    exactly one notification per entry of the six-entry map, in order;
    a future instant is left unchanged and an instant that is [<= now]
    is replaced by what [setDate(getDate() + 1)] makes of it: one day
    on, give or take a change of the offset of the zone, and, when some
    instant shows that reading, the first instant that shows the same
    local time of day on the next local calendar day, which is a day
    later less the change of the offset between the two; over a day
    without such a change it is exactly one day later, so that when
    every instant is less than one day before [now] and no change of
    offset falls in the day after an instant that is rolled, all six
    notifications fire strictly after [now]. *)
Theorem scheduleDaily_rolls_past_instants
    (w : World) (times : PrayerTimesMap) (vp : option string) :
  reliable w ->
  let tz := timeZone w in
  let entries := Object_entries times in
  let r := scheduleDailyPrayerNotifications entries vp w in
  let created := dailyNotifications tz (now w) vp (next_notification w) entries in
  result r = Resolved (map identifier created) /\
  length created = 6%nat /\
  pending (after r) = untracked w ++ created /\
  Forall2 (fun e n =>
             tag_name (idTag (data (content n))) = fst e /\
             trigger n = if snd e <=? now w then Date_addDay tz (snd e)
                         else snd e)
    entries created /\
  (forall d,
     exists o, In o (offsets tz) /\
               Date_addDay tz d = d + MS_PER_DAY - (o - offset_at tz d)) /\
  (forall d,
     (exists t, LocalTime tz t = LocalTime tz d + MS_PER_DAY) ->
     local_day tz (Date_addDay tz d) = local_day tz d + 1 /\
     local_time tz (Date_addDay tz d) = local_time tz d /\
     (forall t, LocalTime tz t = LocalTime tz d + MS_PER_DAY ->
                Date_addDay tz d <= t) /\
     Date_addDay tz d - d =
       MS_PER_DAY - (offset_at tz (Date_addDay tz d) - offset_at tz d)) /\
  (forall d, zone_quiet tz d (d + MS_PER_DAY) ->
             Date_addDay tz d = d + MS_PER_DAY) /\
  (Forall (fun e => now w - MS_PER_DAY < snd e /\
                    (snd e <= now w ->
                     zone_quiet tz (snd e) (snd e + MS_PER_DAY))) entries ->
   Forall (fun n => now w < trigger n) created).
Proof.
  intros Hw. cbv zeta. rewrite scheduleDaily_run by done.
  rewrite after_cancelAll_reliable by done.
  split; [|split; [|split; [|split; [|split; [|split; [|split]]]]]].
  - by rewrite dailyNotifications_identifier.
  - reflexivity.
  - reflexivity.
  - repeat constructor.
  - apply Date_addDay_offset.
  - apply Date_addDay_wall_clock.
  - apply Date_addDay_quiet.
  - intros H. apply Forall_map. rewrite dailyNotifications_trigger.
    apply Forall_map. eapply Forall_impl; [exact H|].
    intros e [He Hquiet]. by apply scheduledDate_future.
Qed.

Lemma scheduleDaily_rolls_past_instants_witness :
  let w := fresh_world (43200000 + 3600000) never in
  Forall (fun n => now w < trigger n)
    (dailyNotifications (timeZone w) (now w) None (next_notification w)
       (Object_entries stale_times)).
Proof.
  apply (scheduleDaily_rolls_past_instants
           (fresh_world (43200000 + 3600000) never) stale_times None).
  - apply fresh_world_reliable.
  - repeat (constructor;
              [split; [reflexivity
                      |intros _; by apply zone_quiet_without_transitions]|]).
    constructor.
Defined.

Lemma after_daily_reliable entries vp w :
  reliable w -> reliable (after_scheduleEntries entries vp (after_cancelAll w)).
Proof.
  intros Hw. rewrite after_cancelAll_reliable by done.
  destruct entries; intros op; apply Hw.
Qed.

Lemma filter_keeps {X} (p : X -> bool) l :
  (forall x, In x l -> p x = true) -> List.filter p l = l.
Proof.
  induction l as [|x l IH]; intros H; simpl; [done|].
  rewrite H by (by left). f_equal. apply IH. intros y Hy. apply H. by right.
Qed.

Lemma filter_drops {X} (p : X -> bool) l :
  (forall x, In x l -> p x = false) -> List.filter p l = [].
Proof.
  induction l as [|x l IH]; intros H; simpl; [done|].
  rewrite H by (by left). apply IH. intros y Hy. apply H. by right.
Qed.

Lemma tracked_in arr n : tracked arr n = true <-> In (identifier n) arr.
Proof.
  unfold tracked. rewrite existsb_exists. split.
  - intros (id & Hin & Heq). apply Nat.eqb_eq in Heq. by rewrite Heq.
  - intros Hin. exists (identifier n). split; [done|apply Nat.eqb_refl].
Qed.

(** After a daily run, the notifications the new list does not name are
    those the old list did not name. *)
Lemma untracked_after_daily e entries vp w :
  reliable w -> fresh_ids w ->
  untracked (after_scheduleEntries (e :: entries) vp (after_cancelAll w)) =
  untracked w.
Proof.
  intros Hw Hfresh. rewrite after_cancelAll_reliable by done.
  unfold after_scheduleEntries. unfold untracked at 1, persisted_ids at 1. proj.
  cbn [parse_array]. change (persisted_ids (with_storage _ _)) with (@nil nat).
  cbn [app]. rewrite List.filter_app, filter_keeps, filter_drops.
  - apply app_nil_r.
  - intros n Hn. apply negb_false_iff, tracked_in.
    rewrite <- dailyNotifications_identifier
      with (tz := timeZone w) (now := now w) (vp := vp).
    by apply in_map.
  - intros n Hn. apply negb_true_iff, not_true_iff_false.
    rewrite tracked_in, in_seq. intros [Hle _].
    unfold untracked in Hn. apply filter_In in Hn as [Hn _].
    apply Hfresh in Hn. lia.
Qed.

Lemma fresh_ids_after_daily entries vp w :
  reliable w -> fresh_ids w ->
  fresh_ids (after_scheduleEntries entries vp (after_cancelAll w)).
Proof.
  intros Hw Hfresh. rewrite after_cancelAll_reliable by done.
  assert (forall n, In n (untracked w) ->
                    (identifier n < next_notification w)%nat) as Hu.
  { intros n Hn. apply filter_In in Hn as [Hn _]. by apply Hfresh. }
  destruct entries as [|e entries]; intros n; unfold after_scheduleEntries;
    proj; [apply Hu|].
  rewrite in_app_iff. intros [Hn|Hn]; [apply Hu in Hn; lia|].
  apply (in_map identifier) in Hn.
  rewrite dailyNotifications_identifier in Hn. apply in_seq in Hn. lia.
Qed.

(** C2, as stated, fails: on a fresh installation where the platform
    rejects every cancellation, two daily runs in succession both
    return their six identifiers, the rejections being swallowed by
    [cancelAllScheduledNotifications], and twelve notifications are
    pending after the second run, the six of the first among them. *)
Lemma scheduleDaily_twice_can_leave_twelve :
  let w := fresh_world (43200000 + 3600000) rejects_cancel in
  let r1 := scheduleDailyPrayerNotifications (Object_entries stale_times)
              None w in
  let r2 := scheduleDailyPrayerNotifications (Object_entries stale_times)
              None (after r1) in
  pending w = [] /\ persisted_ids w = [] /\
  result r1 = Resolved [0; 1; 2; 3; 4; 5]%nat /\
  result r2 = Resolved [6; 7; 8; 9; 10; 11]%nat /\
  map identifier (pending (after r2)) =
    [0; 1; 2; 3; 4; 5; 6; 7; 8; 9; 10; 11]%nat /\
  length (pending (after r2)) = 12%nat.
Proof. vm_compute. repeat split. Qed.

(** C2 (amended): when no platform call rejects and the registry hands
    out fresh identifiers, two daily runs in succession leave pending,
    of all the notifications the scheduler keeps track of, exactly the
    six of the second run: the second run cancels the six of the first
    and registers its own, and the persisted list names these six and
    no other.  Only notifications the persisted list did not name
    before the first run stay beside them; when it named every pending
    notification, exactly six are pending after the second run. *)
Theorem scheduleDaily_twice_leaves_six
    (w : World) (times1 times2 : PrayerTimesMap) (vp1 vp2 : option string) :
  reliable w -> fresh_ids w ->
  let r1 := scheduleDailyPrayerNotifications (Object_entries times1) vp1 w in
  let r2 := scheduleDailyPrayerNotifications (Object_entries times2) vp2
              (after r1) in
  let first := dailyNotifications (timeZone w) (now w) vp1
                 (next_notification w) (Object_entries times1) in
  let second := dailyNotifications (timeZone w) (now w) vp2
                  (6 + next_notification w)%nat (Object_entries times2) in
  pending (after r1) = untracked w ++ first /\
  result r2 = Resolved (map identifier second) /\
  pending (after r2) = untracked w ++ second /\
  length second = 6%nat /\
  scheduled_ids (storage (after r2)) = Some (map identifier second) /\
  (forall n, In n first -> ~ In n (pending (after r2))) /\
  ((forall n, In n (pending w) -> In (identifier n) (persisted_ids w)) ->
   pending (after r2) = second /\ length (pending (after r2)) = 6%nat).
Proof.
  intros Hw Hfresh. cbv zeta.
  rewrite (scheduleDaily_run _ vp1 w) by done. proj.
  pose proof (after_daily_reliable (Object_entries times1) vp1 w Hw) as Hw1.
  pose proof (untracked_after_daily _ _ vp1 w Hw Hfresh
              : untracked (after_scheduleEntries (Object_entries times1) vp1
                             (after_cancelAll w)) = untracked w) as Hsame.
  remember (after_scheduleEntries (Object_entries times1) vp1
              (after_cancelAll w)) as w1 eqn:Ew1.
  rewrite (scheduleDaily_run _ vp2 w1) by done. proj.
  rewrite (after_cancelAll_reliable w1) by done. rewrite Hsame.
  assert (pending w1 = untracked w ++
            dailyNotifications (timeZone w) (now w) vp1
              (next_notification w)
              (Object_entries times1) /\
          next_notification w1 = (6 + next_notification w)%nat /\
          now w1 = now w /\ timeZone w1 = timeZone w)
    as (Hp1 & Hn1 & Ht1 & Hz1).
  { rewrite Ew1, after_cancelAll_reliable by done. done. }
  cbn [Object_entries after_scheduleEntries]. proj.
  rewrite Hn1, Ht1, Hz1. cbn [app].
  split; [done|]. split; [by rewrite dailyNotifications_identifier|].
  split; [done|]. split; [done|]. split; [done|]. split.
  - intros n H1. rewrite in_app_iff. intros [H2|H2].
    + apply filter_In in H2 as [H2 _]. apply Hfresh in H2.
      apply (in_map identifier) in H1.
      rewrite dailyNotifications_identifier in H1. apply in_seq in H1. lia.
    + apply (in_map identifier) in H1, H2.
      rewrite dailyNotifications_identifier in H1, H2.
      apply in_seq in H1, H2. cbn [Object_entries length] in *. lia.
  - intros Htracked. by rewrite untracked_nil.
Qed.

Lemma scheduleDaily_twice_leaves_six_witness :
  length
    (pending
       (after
          (scheduleDailyPrayerNotifications (Object_entries stale_times) None
             (after
                (scheduleDailyPrayerNotifications (Object_entries stale_times)
                   None (world_two_pending never)))))) = 6%nat.
Proof.
  apply (scheduleDaily_twice_leaves_six (world_two_pending never)
           stale_times stale_times None None).
  - intros op. reflexivity.
  - intros n [<-|[<-|[]]]; cbn; lia.
  - cbn. intros n [<-|[<-|[]]]; cbn; auto.
Defined.

(** C4, as stated, fails: on a fresh installation the test notification
    changes the persisted list from empty to its own identifier, and a
    following [cancelAllScheduledNotifications] cancels it. *)
Lemma scheduleTest_joins_the_daily_list :
  let w := fresh_world 1000 never in
  let r := scheduleTestNotification 1 None w in
  persisted_ids w = [] /\
  persisted_ids (after r) = [0%nat] /\
  map identifier (pending (after r)) = [0%nat] /\
  pending (after (cancelAllScheduledNotifications (after r))) = [].
Proof. vm_compute. repeat split. Qed.

(** C4 (amended): when no platform call rejects,
    [scheduleTestNotification] registers the test notification through
    the same function as the daily ones, so its identifier is appended to
    the one persisted list; a later [cancelAllScheduledNotifications] and
    a later daily run therefore cancel the test notification too. *)
Theorem scheduleTest_is_tracked_and_cancelled
    (w : World) (minutes : Z) (vp : option string) :
  reliable w ->
  let r := scheduleTestNotification minutes vp w in
  let id := next_notification w in
  let date := now w + minutes * 60000 in
  let test := notification id {| tag_name := "test"; tag_stamp := date |}
                "Test Adhan" TEST_BODY date vp in
  result r = Resolved (id, date) /\
  pending (after r) = pending w ++ [test] /\
  persisted_ids (after r) = persisted_ids w ++ [id] /\
  ~ In test (pending (after (cancelAllScheduledNotifications (after r)))) /\
  (forall times vp',
     ~ In test
         (pending
            (after (scheduleDailyPrayerNotifications (Object_entries times) vp'
                      (after r))))).
Proof.
  intros Hw. cbv zeta.
  assert (scheduleTestNotification minutes vp w =
          (Resolved (next_notification w, now w + minutes * 60000),
           with_storage
             (with_registry w
                (pending w ++
                 [notification (next_notification w)
                    {| tag_name := "test"; tag_stamp := now w + minutes * 60000 |}
                    "Test Adhan" TEST_BODY (now w + minutes * 60000) vp])
                (S (next_notification w)))
             (AsyncStorage.set_scheduled_ids
                (Some (persisted_ids w ++ [next_notification w])) (storage w))))
    as ->.
  { unfold scheduleTestNotification. exec_reliable Hw.
    rewrite scheduleNotificationForPrayer_run, !Hw.
    cbv beta iota zeta. by exec. }
  proj. set (w1 := with_storage _ _).
  assert (reliable w1) as Hw1 by (intros op; apply Hw).
  set (test := notification _ _ _ _ _ _).
  assert (~ In test (untracked w1)) as Hnot.
  { unfold untracked. rewrite filter_In. intros [_ H].
    apply negb_true_iff, not_true_iff_false in H. apply H.
    unfold tracked. apply existsb_exists. exists (next_notification w).
    split; [|apply Nat.eqb_refl].
    unfold w1, persisted_ids. proj. cbn [parse_array].
    apply in_app_iff. right. by left. }
  split; [done|]. split; [done|]. split; [done|]. split.
  - rewrite cancelAll_run. proj. by rewrite after_cancelAll_reliable.
  - intros times vp'. rewrite scheduleDaily_run by done. proj.
    rewrite after_cancelAll_reliable by done.
    cbn [Object_entries after_scheduleEntries]. proj.
    rewrite in_app_iff. intros [H|H]; [done|].
    apply (in_map identifier) in H.
    rewrite dailyNotifications_identifier in H. apply in_seq in H.
    cbn in H. lia.
Qed.

Lemma scheduleTest_is_tracked_and_cancelled_witness :
  persisted_ids
    (after (scheduleTestNotification 1 None (world_two_pending never))) =
  [0; 1; 2]%nat.
Proof.
  apply (scheduleTest_is_tracked_and_cancelled
           (world_two_pending never) 1 None).
  intros op. reflexivity.
Defined.

(** ** The voice store (C7, C8, C10) *)

Section VoiceStore.

Lemma listDownloadedVoices_run w :
  listDownloadedVoices w =
  if fails w (GetItem DOWNLOADED_KEY)
  then (Threw (Rejected (GetItem DOWNLOADED_KEY)), w)
  else (Resolved (downloaded_index w), w).
Proof.
  unfold listDownloadedVoices. exec. by destruct (fails w _).
Qed.

Lemma getActiveVoice_run w :
  getActiveVoice w =
  if fails w (GetItem ACTIVE_VOICE_KEY)
  then (Threw (Rejected (GetItem ACTIVE_VOICE_KEY)), w)
  else match active_voice_id (storage w) with
       | Some id =>
           if truthy (Some id)
           then if fails w (GetItem DOWNLOADED_KEY)
                then (Threw (Rejected (GetItem DOWNLOADED_KEY)), w)
                else (Resolved (List.find (has_id id) (downloaded_index w)), w)
           else (Resolved None, w)
       | None => (Resolved None, w)
       end.
Proof.
  unfold getActiveVoice. exec. destruct (fails w (GetItem ACTIVE_VOICE_KEY)); [done|].
  exec. destruct (active_voice_id (storage w)) as [id|]; [|done].
  destruct (truthy (Some id)); [|done]. exec.
  rewrite listDownloadedVoices_run. by destruct (fails w _).
Qed.

End VoiceStore.

(** C10: [getActiveVoice] leaves the world as it is, and, unless a read
    of the store is rejected, returns either [null] or a record of
    [listDownloadedVoices()] whose id is the stored active id; when the
    stored id names no record of the index it returns [null]. *)
Theorem getActiveVoice_null_or_downloaded (w : World) :
  let r := VoicesManager.getActiveVoice w in
  after r = w /\
  match result r with
  | Resolved None => True
  | Resolved (Some v) =>
      result (VoicesManager.listDownloadedVoices w) =
        Resolved (downloaded_index w) /\
      In v (downloaded_index w) /\
      active_voice_id (storage w) = Some (vm_id v)
  | Threw e =>
      exists k, e = Rejected (GetItem k) /\ fails w (GetItem k) = true
  end /\
  (forall id,
     active_voice_id (storage w) = Some id ->
     (forall v, In v (downloaded_index w) -> vm_id v <> id) ->
     fails w (GetItem ACTIVE_VOICE_KEY) = false ->
     fails w (GetItem DOWNLOADED_KEY) = false ->
     result r = Resolved None).
Proof.
  cbv zeta. rewrite getActiveVoice_run, listDownloadedVoices_run.
  destruct (fails w (GetItem ACTIVE_VOICE_KEY)) eqn:Hact.
  { proj. split; [done|]. split; [by eexists|]. intros; discriminate. }
  destruct (active_voice_id (storage w)) as [id|] eqn:Hid;
    [|proj; split; [done|]; split; [done|]; intros; discriminate].
  destruct (truthy (Some id)) eqn:Ht.
  2:{ proj. split; [done|]. split; [done|]. done. }
  destruct (fails w (GetItem DOWNLOADED_KEY)) eqn:Hdl.
  { proj. split; [done|]. split; [by eexists|]. intros; discriminate. }
  proj. split; [done|]. split.
  - destruct (List.find _ _) as [v|] eqn:Hfind; [|done].
    apply find_some in Hfind as [Hin Heq]. apply String.eqb_eq in Heq.
    by rewrite Heq.
  - intros id' [= <-] Hnone _ _. f_equal.
    destruct (List.find _ _) as [v|] eqn:Hfind; [|done].
    apply find_some in Hfind as [Hin Heq]. apply String.eqb_eq in Heq.
    by apply Hnone in Hin.
Qed.

Lemma getActiveVoice_null_or_downloaded_witness :
  result (VoicesManager.getActiveVoice
            (world_with_voices (Some "bright") never)) = Resolved None.
Proof.
  destruct (getActiveVoice_null_or_downloaded
              (world_with_voices (Some "bright") never)) as (_ & _ & H).
  apply (H "bright"); try reflexivity.
  cbn. intros v [<-|[<-|[]]]; discriminate.
Defined.

(** C8: [downloadRemoteVoice] never throws; when the download is
    rejected it returns [null]; and whenever it returns [null], the
    store, and with it the downloaded index and what
    [listDownloadedVoices] returns, is as it was before the call. *)
Theorem downloadRemoteVoice_failure_leaves_index
    (w : World) (remote : RemoteVoice) :
  let r := VoicesManager.downloadRemoteVoice remote w in
  (exists v, result r = Resolved v) /\
  (fails w (Download (rv_previewUrl remote) (voice_file w (rv_id remote))) = true ->
   result r = Resolved None) /\
  (result r = Resolved None ->
   storage (after r) = storage w /\
   downloaded_index (after r) = downloaded_index w /\
   result (VoicesManager.listDownloadedVoices (after r)) =
   result (VoicesManager.listDownloadedVoices w)).
Proof.
  cbv zeta.
  assert (forall w', fails w' = fails w -> storage w' = storage w ->
            storage w' = storage w /\
            downloaded_index w' = downloaded_index w /\
            result (VoicesManager.listDownloadedVoices w') =
            result (VoicesManager.listDownloadedVoices w)) as Hsame.
  { intros w' Hf Hs. rewrite !listDownloadedVoices_run.
    unfold downloaded_index. rewrite Hf, Hs.
    by destruct (fails w (GetItem _)). }
  destruct (VoicesManager.downloadRemoteVoice remote w) as [o w'] eqn:Hr.
  cbn [result after fst snd]. revert Hr.
  unfold VoicesManager.downloadRemoteVoice, voice_file. exec.
  destruct (fails w (MakeDirectory _)) eqn:Hmk; exec.
  { intros [= <- <-]. split; [by eexists|]. split; [done|]. intros _.
    by apply Hsame. }
  destruct (fails w (DeleteFile _)) eqn:Hdel; exec.
  { intros [= <- <-]. split; [by eexists|]. split; [done|]. intros _.
    by apply Hsame. }
  destruct (fails w (Download _ _)) eqn:Hdown; exec.
  { intros [= <- <-]. split; [by eexists|]. split; [done|]. intros _.
    by apply Hsame. }
  destruct (fails w (GetItem DOWNLOADED_KEY)) eqn:Hget; exec.
  { intros [= <- <-]. split; [by eexists|]. split; [done|]. intros _.
    by apply Hsame. }
  destruct (fails w (SetItem DOWNLOADED_KEY)) eqn:Hset; exec.
  { intros [= <- <-]. split; [by eexists|]. split; [done|]. intros _.
    by apply Hsame. }
  intros [= <- <-]. split; [by eexists|]. split; discriminate.
Qed.

Lemma downloadRemoteVoice_failure_leaves_index_witness :
  let w := world_with_voices (Some "deep") rejects_download in
  result (VoicesManager.downloadRemoteVoice demo_voice_a w) = Resolved None.
Proof.
  apply (downloadRemoteVoice_failure_leaves_index
           (world_with_voices (Some "deep") rejects_download) demo_voice_a).
  reflexivity.
Defined.

Section RoundTrip.

Lemma append_assoc (a b c : string) : (a +:+ b) +:+ c = a +:+ b +:+ c.
Proof.
  induction a as [|x a IH]; [done|].
  change (String x ((a +:+ b) +:+ c) = String x (a +:+ b +:+ c)).
  by f_equal.
Qed.

Lemma other_than_has_id id a : other_than id a = negb (has_id id a).
Proof. reflexivity. Qed.

Lemma find_after_filter id (meta : VoiceMeta) arr :
  vm_id meta = id ->
  List.find (has_id id) (List.filter (other_than id) arr ++ [meta]) = Some meta.
Proof.
  intros Hid. induction arr as [|a arr IH]; simpl.
  - unfold has_id. by rewrite Hid, String.eqb_refl.
  - rewrite other_than_has_id. destruct (has_id id a) eqn:E; simpl; [done|].
    by rewrite E.
Qed.

Lemma filter_after_filter id (meta : VoiceMeta) arr :
  vm_id meta = id ->
  List.filter (other_than id) (List.filter (other_than id) arr ++ [meta]) =
  List.filter (other_than id) arr.
Proof.
  intros Hid. rewrite List.filter_app, filter_filter. simpl.
  unfold other_than at 3. rewrite Hid, String.eqb_refl. simpl.
  rewrite app_nil_r. apply filter_ext. intros a. apply andb_diag.
Qed.

Lemma truthy_nonempty s : s <> EmptyString -> truthy (Some s) = true.
Proof.
  intros H. unfold truthy. apply negb_true_iff. by apply String.eqb_neq.
Qed.

Lemma downloadVoice_run id w :
  reliable w ->
  downloadVoice id w =
  (Resolved (Some (synthetic_meta w id)), after_downloadVoice id w).
Proof.
  intros Hw. unfold downloadVoice, Voices.generateSyntheticAdhan.
  exec_reliable Hw.
  unfold FileSystem.exists_. proj.
  rewrite bool_decide_eq_true_2 by set_solver.
  by exec_reliable Hw.
Qed.

Lemma setActiveVoice_run id w :
  reliable w -> id <> EmptyString ->
  setActiveVoice (Some id) w =
  (Resolved tt,
   with_storage w (AsyncStorage.set_active_voice_id (Some id) (storage w))).
Proof.
  intros Hw Hid. unfold setActiveVoice. rewrite truthy_nonempty by done.
  by exec_reliable Hw.
Qed.

Lemma removeDownloadedVoice_run id w :
  reliable w ->
  removeDownloadedVoice id w = (Resolved tt, after_removeDownloadedVoice id w).
Proof.
  intros Hw. unfold removeDownloadedVoice, after_removeDownloadedVoice.
  exec_reliable Hw.
  assert (documentDirectory w +:+ "voices/voice-" +:+ id +:+ ".wav" =
          voice_file w id) as ->.
  { unfold voice_file. by rewrite append_assoc. }
  unfold FileSystem.exists_. proj.
  destruct (bool_decide (voice_file w id ∈ files w)) eqn:Hex;
    exec_reliable Hw.
  - by destruct (bool_decide (active_voice_id (storage w) = Some id));
      exec_reliable Hw.
  - apply bool_decide_eq_false in Hex.
    replace (files w ∖ {[voice_file w id]}) with (files w)
      by (symmetry; apply difference_disjoint_L, disjoint_singleton_r, Hex).
    destruct (bool_decide (active_voice_id (storage w) = Some id));
      exec_reliable Hw; by destruct w.
Qed.

End RoundTrip.

(** ** Playback *)

Section Playback.

Lemma replayAsync_run h w :
  Audio.replayAsync h w =
  if fails w (ReplaySound h) then (Threw (Rejected (ReplaySound h)), w)
  else (Resolved tt,
        with_player w (loaded w) (next_sound w)
          (audio_trace w ++ [Played h])).
Proof. apply start_run. Qed.

Lemma playAsync_run h w :
  Audio.playAsync h w =
  if fails w (PlaySound h) then (Threw (Rejected (PlaySound h)), w)
  else (Resolved tt,
        with_player w (loaded w) (next_sound w)
          (audio_trace w ++ [Played h])).
Proof. apply start_run. Qed.

Lemma unloadPrevious_run w :
  unloadPrevious w = (Resolved tt, after_unloadPrevious w).
Proof.
  unfold unloadPrevious, after_unloadPrevious, set_soundRef. exec.
  destruct (soundRef w) as [current|]; [|done]. exec.
  by destruct (fails w (UnloadSound current)); exec.
Qed.

Lemma createAndReplay_run src w :
  AppBasic.createAndReplay src w =
  if fails w (CreateSound src) then (Threw (Rejected (CreateSound src)), w)
  else if fails w (ReplaySound (next_sound w))
       then (Threw (Rejected (ReplaySound (next_sound w))), after_create src w)
       else (Resolved tt, after_start (next_sound w) (after_create src w)).
Proof.
  unfold AppBasic.createAndReplay, set_soundRef. exec.
  destruct (fails w (CreateSound src)); [done|]. exec.
  rewrite replayAsync_run. proj.
  by destruct (fails w (ReplaySound _)).
Qed.

Lemma after_unloadPrevious_reliable w :
  reliable w -> reliable (after_unloadPrevious w).
Proof.
  intros Hw op. unfold after_unloadPrevious.
  destruct (soundRef w) as [s|]; [|apply Hw].
  rewrite Hw. apply Hw.
Qed.

(** Without a voice path the first shell plays the bundled asset. *)
Lemma playAdhan_bundled w :
  reliable w ->
  AppBasic.playAdhan None w =
  (Resolved tt,
   after_start (next_sound (after_unloadPrevious w))
     (after_create BundledAsset (after_unloadPrevious w))).
Proof.
  intros Hw. unfold AppBasic.playAdhan, AppBasic.playProvided. exec.
  rewrite unloadPrevious_run. exec. rewrite createAndReplay_run.
  pose proof (after_unloadPrevious_reliable w Hw) as Hw'.
  by rewrite !Hw'.
Qed.

End Playback.

(** C7: when no platform call rejects, installing the synthetic voice
    [voiceId] with [downloadVoice] and making it the active voice lets
    the path of the active voice resolve to the file of the installed
    record, which exists; after [removeDownloadedVoice] the active voice
    resolves to [null], the file and the record are gone, and playback
    without a path starts from the bundled asset. *)
Theorem install_activate_remove_round_trip (w : World) (voiceId : string) :
  reliable w -> voiceId <> EmptyString ->
  let path := voice_file w voiceId in
  let r1 := VoicesManager.downloadVoice voiceId w in
  let w2 := after (VoicesManager.setActiveVoice (Some voiceId) (after r1)) in
  let w3 := after (VoicesManager.removeDownloadedVoice voiceId w2) in
  (exists meta, result r1 = Resolved (Some meta) /\
                vm_id meta = voiceId /\ vm_path meta = Some path) /\
  result (AppBasic.activeVoicePath w2) = Resolved (Some path) /\
  (path ∈ files w2) /\
  result (VoicesManager.getActiveVoice w3) = Resolved None /\
  result (AppBasic.activeVoicePath w3) = Resolved None /\
  (path ∉ files w3) /\
  (forall v, In v (downloaded_index w3) -> vm_id v <> voiceId) /\
  (exists h, audio_trace (after (AppBasic.playAdhan None w3)) =
             audio_trace (after_unloadPrevious w3) ++
             [Created h BundledAsset; Played h]).
Proof.
  intros Hw Hid. cbv zeta.
  rewrite downloadVoice_run by done. proj.
  assert (reliable (after_downloadVoice voiceId w)) as Hw1
    by (intros op; apply Hw).
  rewrite setActiveVoice_run by done. proj.
  set (w2 := with_storage (after_downloadVoice voiceId w) _).
  assert (reliable w2) as Hw2 by (intros op; apply Hw).
  rewrite removeDownloadedVoice_run by done. proj.
  set (w3 := after_removeDownloadedVoice voiceId w2).
  assert (reliable w3) as Hw3 by (intros op; apply Hw).
  assert (voice_file w2 voiceId = voice_file w voiceId) as Hpath by done.
  assert (VoicesManager.getActiveVoice w2 =
          (Resolved (Some (synthetic_meta w voiceId)), w2)) as Hactive2.
  { rewrite getActiveVoice_run, !Hw2. unfold w2 at 1. proj.
    rewrite truthy_nonempty by done. f_equal. f_equal.
    unfold w2, downloaded_index, after_downloadVoice. proj.
    cbn [parse_array]. by apply find_after_filter. }
  assert (VoicesManager.getActiveVoice w3 = (Resolved None, w3)) as Hactive3.
  { rewrite getActiveVoice_run, !Hw3.
    unfold w3 at 1, after_removeDownloadedVoice, w2 at 1 2. proj.
    by rewrite bool_decide_eq_true_2. }
  split; [by eexists|].
  split; [unfold AppBasic.activeVoicePath; exec; by rewrite Hactive2|].
  split; [unfold w2, after_downloadVoice; proj; set_solver|].
  split; [by rewrite Hactive3|].
  split; [unfold AppBasic.activeVoicePath; exec; by rewrite Hactive3|].
  split.
  { unfold w3, after_removeDownloadedVoice. proj. rewrite Hpath.
    rewrite elem_of_difference, elem_of_singleton. by intros [_ []]. }
  split.
  - intros v. unfold w3, after_removeDownloadedVoice, downloaded_index. proj.
    cbn [parse_array]. rewrite filter_In. intros [_ Hv] Heq.
    unfold VoicesManager.other_than in Hv. by rewrite Heq, String.eqb_refl in Hv.
  - rewrite playAdhan_bundled by done. unfold after_start, after_create. proj.
    rewrite <- app_assoc. by eexists.
Qed.

Lemma install_activate_remove_round_trip_witness :
  let w := fresh_world 1000 never in
  result (AppBasic.activeVoicePath
            (after (VoicesManager.setActiveVoice (Some "deep")
                      (after (VoicesManager.downloadVoice "deep" w))))) =
  Resolved (Some "file:///data/voices/voice-deep.wav").
Proof.
  apply (install_activate_remove_round_trip (fresh_world 1000 never) "deep").
  - apply fresh_world_reliable.
  - discriminate.
Defined.

(** ** Resolving the audio reference (C6, C3) *)

Section Resolver.

Lemma getSelectedFajrAdhan_run w :
  getSelectedFajrAdhan w = (Resolved (selected_id w true), w).
Proof.
  unfold getSelectedFajrAdhan, selected_id. exec.
  by destruct (fails w (GetItem _)).
Qed.

Lemma getSelectedRegularAdhan_run w :
  getSelectedRegularAdhan w = (Resolved (selected_id w false), w).
Proof.
  unfold getSelectedRegularAdhan, selected_id. exec.
  by destruct (fails w (GetItem _)).
Qed.

(** Resolution always returns, and changes nothing. *)
Lemma getAdhanUrlForPrayer_run prayerName w :
  getAdhanUrlForPrayer prayerName w =
  (Resolved (resolved_url w (is_fajr prayerName)), w).
Proof.
  unfold getAdhanUrlForPrayer, resolved_url. fold (is_fajr prayerName).
  rewrite bind_run.
  assert ((if is_fajr prayerName then getSelectedFajrAdhan
           else getSelectedRegularAdhan) w =
          (Resolved (selected_id w (is_fajr prayerName)), w)) as ->.
  { destruct (is_fajr prayerName);
      [apply getSelectedFajrAdhan_run | apply getSelectedRegularAdhan_run]. }
  cbv beta iota.
  destruct (AdhanVoices.getAdhanVoiceById _) as [voice|]; [|done].
  exec. unfold local_found. fold (local_file w voice).
  destruct (fails w (GetInfo _)); exec; [done|].
  by destruct (FileSystem.exists_ _ w).
Qed.

Lemma append_nonempty (a b : string) :
  b <> EmptyString -> a +:+ b <> EmptyString.
Proof. intros Hb. destruct a; [done|discriminate]. Qed.

Lemma catalogue_urls_nonempty voice id :
  AdhanVoices.getAdhanVoiceById id = Some voice ->
  av_previewUrl voice <> EmptyString.
Proof.
  intros H. apply find_some in H as [Hin _].
  assert (Forall (fun v => av_previewUrl v <> EmptyString)
            AdhanVoices.ADHAN_VOICES)
    as Hall by (repeat constructor; discriminate).
  rewrite Forall_forall in Hall. apply Hall. by apply list_elem_of_In.
Qed.

Lemma selected_id_chosen w isFajr : selected_id w isFajr = chosen_id w isFajr.
Proof.
  unfold selected_id, chosen_id.
  destruct isFajr;
    [destruct (fails w (GetItem STORAGE_KEY_FAJR)); [done|];
     by destruct (selected_fajr (storage w)) as [[|c rest]|]
    |destruct (fails w (GetItem STORAGE_KEY_REGULAR)); [done|];
     by destruct (selected_regular (storage w)) as [[|c rest]|]].
Qed.

(** The ids of the catalogue are pairwise distinct: every voice is the
    one found for its id. *)
Lemma catalogue_lookup_by_own_id v :
  In v AdhanVoices.ADHAN_VOICES ->
  AdhanVoices.getAdhanVoiceById (av_id v) = Some v.
Proof.
  intros Hin. repeat (destruct Hin as [<-|Hin]; [reflexivity|]). destruct Hin.
Qed.

End Resolver.

(** C6: for every prayer name and every world, [getAdhanUrlForPrayer]
    returns a non-empty reference and changes nothing.  The selected id
    is the one stored for the class of the prayer, or the default id of
    the class when none is stored, the stored one is empty or the read
    is rejected.  When a voice of the catalogue has the selected id,
    the reference is the local file of that voice when the file is
    found on disk, and the preview URL of that voice otherwise; when no
    voice of the catalogue has the selected id, it is the hard-coded
    default URL of the class. *)
Theorem getAdhanUrlForPrayer_total (w : World) (prayerName : string) :
  exists url,
    AdhanVoiceSelector.getAdhanUrlForPrayer prayerName w = (Resolved url, w) /\
    url <> EmptyString /\
    (forall voice,
       In voice AdhanVoices.ADHAN_VOICES ->
       av_id voice = chosen_id w (is_fajr prayerName) ->
       (url = local_file w voice /\ local_file w voice ∈ files w /\
        fails w (GetInfo (local_file w voice)) = false) \/
       (url = av_previewUrl voice /\
        (local_file w voice ∉ files w \/
         fails w (GetInfo (local_file w voice)) = true))) /\
    ((forall voice,
        In voice AdhanVoices.ADHAN_VOICES ->
        av_id voice <> chosen_id w (is_fajr prayerName)) ->
     url = if is_fajr prayerName
           then "https://www.islamcan.com/audio/adhan/azan7.mp3"
           else "https://www.islamcan.com/audio/adhan/azan1.mp3").
Proof.
  exists (resolved_url w (is_fajr prayerName)).
  split; [apply getAdhanUrlForPrayer_run|].
  unfold resolved_url. rewrite selected_id_chosen. split; [|split].
  - destruct (AdhanVoices.getAdhanVoiceById _) as [voice|] eqn:Hvoice.
    + destruct (local_found w voice);
        [unfold local_file; by apply append_nonempty
        |by eapply catalogue_urls_nonempty].
    + unfold default_url. by destruct (is_fajr prayerName).
  - intros voice Hin Hid. rewrite <- Hid, catalogue_lookup_by_own_id by done.
    unfold local_found, FileSystem.exists_.
    destruct (fails w (GetInfo _)) eqn:Hinfo; cbn [negb andb];
      [right; auto|].
    destruct (bool_decide _) eqn:Hex.
    + apply bool_decide_eq_true in Hex. left. auto.
    + apply bool_decide_eq_false in Hex. right. auto.
  - intros Hnone.
    destruct (AdhanVoices.getAdhanVoiceById _) as [voice|] eqn:Hvoice; [|done].
    apply find_some in Hvoice as [Hin Heq]. apply String.eqb_eq in Heq.
    by apply Hnone in Hin.
Qed.

(** C3, as stated, fails: on a fresh installation, where the dawn class
    resolves to azan7.mp3 and the regular class to azan1.mp3, the second
    shell's [onSchedule] registers a Fajr notification that carries the
    regular reference, and a Sunrise notification that carries it too. *)
Lemma onSchedule_one_reference_for_all :
  let w := fresh_world 1000 never in
  let r := AppMain.onSchedule stale_times w in
  result (AdhanVoiceSelector.getAdhanUrlForPrayer "fajr" w) =
    Resolved "https://www.islamcan.com/audio/adhan/azan7.mp3" /\
  result (AdhanVoiceSelector.getAdhanUrlForPrayer "dhuhr" w) =
    Resolved "https://www.islamcan.com/audio/adhan/azan1.mp3" /\
  map (fun n => (tag_name (idTag (data (content n))),
                 voicePath (data (content n))))
    (pending (after r)) =
  [ ("fajr", Some "https://www.islamcan.com/audio/adhan/azan1.mp3");
    ("sunrise", Some "https://www.islamcan.com/audio/adhan/azan1.mp3");
    ("dhuhr", Some "https://www.islamcan.com/audio/adhan/azan1.mp3");
    ("asr", Some "https://www.islamcan.com/audio/adhan/azan1.mp3");
    ("maghrib", Some "https://www.islamcan.com/audio/adhan/azan1.mp3");
    ("isha", Some "https://www.islamcan.com/audio/adhan/azan1.mp3") ].
Proof. vm_compute. repeat split. Qed.

(** C3 (amended): on a successful run of the second shell's
    [onSchedule] (permission granted, no platform call rejected), the
    audio reference is resolved once, for the regular class, six
    notifications are registered, and those of Dhuhr, Asr, Maghrib and
    Isha, as that of Sunrise, carry that reference. *)
Theorem onSchedule_attaches_regular_reference
    (w : World) (times : PrayerTimesMap) :
  reliable w -> permission w = true ->
  let r := AppMain.onSchedule times w in
  exists url created,
    result (AdhanVoiceSelector.getAdhanUrlForPrayer "dhuhr" w) = Resolved url /\
    url = resolved_url w false /\
    result r = Resolved tt /\
    pending (after r) = untracked w ++ created /\
    map (fun n => tag_name (idTag (data (content n)))) created =
      ["fajr"; "sunrise"; "dhuhr"; "asr"; "maghrib"; "isha"] /\
    Forall (fun n => tag_name (idTag (data (content n))) <> "fajr" ->
                     voicePath (data (content n)) = Some url) created.
Proof.
  intros Hw Hperm. cbv zeta.
  exists (resolved_url w false),
    (dailyNotifications (timeZone w) (now w) (Some (resolved_url w false))
       (next_notification w) (Object_entries times)).
  rewrite getAdhanUrlForPrayer_run.
  split; [done|]. split; [done|].
  unfold AppMain.onSchedule. exec_reliable Hw. rewrite Hperm. cbn [negb].
  exec_reliable Hw. rewrite getAdhanUrlForPrayer_run. exec.
  rewrite scheduleDaily_run by done. exec.
  rewrite after_cancelAll_reliable by done.
  split; [done|]. split; [done|]. split; [done|].
  eapply Forall_impl; [apply dailyNotifications_voicePath|]. auto.
Qed.

Lemma onSchedule_attaches_regular_reference_witness :
  exists url created,
    result (AdhanVoiceSelector.getAdhanUrlForPrayer "dhuhr"
              (world_two_pending never)) = Resolved url /\
    url = resolved_url (world_two_pending never) false /\
    result (AppMain.onSchedule stale_times (world_two_pending never)) =
      Resolved tt /\
    pending (after (AppMain.onSchedule stale_times (world_two_pending never))) =
      untracked (world_two_pending never) ++ created /\
    map (fun n => tag_name (idTag (data (content n)))) created =
      ["fajr"; "sunrise"; "dhuhr"; "asr"; "maghrib"; "isha"] /\
    Forall (fun n => tag_name (idTag (data (content n))) <> "fajr" ->
                     voicePath (data (content n)) = Some url) created.
Proof.
  apply (onSchedule_attaches_regular_reference
           (world_two_pending never) stale_times).
  - intros op. reflexivity.
  - reflexivity.
Defined.

(** ** One player at a time (C9) *)

(** C9: the code breaks the claim.  When the handler is invoked a second
    time while the first invocation is suspended at [createAsync] (the
    notification fires, the user taps it), the second invocation finds
    [soundRef] still empty, unloads nothing, and both sounds are loaded
    and started: no call is rejected.  It fails on error paths too, with
    the invocations one after the other.  In the second shell, when the
    unload of the previous sound is rejected, the reference is dropped
    all the same and a second sound is loaded.  In the first shell, when
    the sound of the given path is created but its replay is rejected,
    the bundled asset is loaded next to it. *)
Lemma playAdhan_can_hold_two_sounds :
  (let w := fresh_world 1000 never in
   let invocation :=
     Awaiting (AppMain.playAdhanTurns
                 (Some "file:///data/voices/voice-deep.wav") None) in
   let r := interleave [true; false; true; true; true; false; false; false]
              invocation invocation w in
   fst r = (Finished, Finished) /\
   loaded (snd r) = [0; 1]%nat /\
   audio_trace (snd r) =
     [ Created 0 (Uri "file:///data/voices/voice-deep.wav");
       VolumeSet 0; Played 0;
       Created 1 (Uri "file:///data/voices/voice-deep.wav");
       VolumeSet 1; Played 1 ]%nat) /\
  (let w := fresh_world 1000 (rejects_unload_of 0%nat) in
   let r1 := AppMain.playAdhan (Some "file:///data/voices/voice-deep.wav") None w in
   let r2 := AppMain.playAdhan (Some "file:///data/voices/voice-deep.wav") None
               (after r1) in
   loaded (after r1) = [0%nat] /\ result r2 = Resolved tt /\
   loaded (after r2) = [0; 1]%nat /\ soundRef (after r2) = Some 1%nat) /\
  (let w := fresh_world 1000 (rejects_replay_of 0%nat) in
   let r := AppBasic.playAdhan (Some "file:///data/voices/voice-deep.wav") w in
   loaded w = [] /\ result r = Resolved tt /\
   loaded (after r) = [0; 1]%nat /\ soundRef (after r) = Some 1%nat).
Proof. vm_compute. repeat split. Qed.

Lemma loaded_during_app l t1 t2 :
  loaded_during l (t1 ++ t2) =
  loaded_during l t1 ++ loaded_during (loaded_after l t1) t2.
Proof.
  revert l. induction t1 as [|ev t1 IH]; intros l; simpl; [done|].
  by rewrite IH.
Qed.

Section OnePlayer.
Variables (voicePath prayerName : option string).

Lemma adhanUrlFor_run w :
  AppMain.adhanUrlFor voicePath prayerName w =
  (Resolved (adhanUrl voicePath prayerName w), w).
Proof.
  unfold AppMain.adhanUrlFor, adhanUrl.
  destruct voicePath as [path|];
    [destruct (truthy (Some path)); [done|]|];
    apply getAdhanUrlForPrayer_run.
Qed.

Lemma play_run src w :
  try_catch
    (await sound <- Audio.createAsync src in
     await _ <- set_soundRef (Some sound) in
     await _ <- Audio.setVolumeAsync sound in
     Audio.playAsync sound)
    (fun e => console_warn "Failed to play:") w =
  (Resolved tt, after_play src w).
Proof.
  unfold after_play, set_soundRef. exec.
  destruct (fails w (CreateSound src)); exec; [done|].
  destruct (fails w (SetVolume _)); exec; [done|].
  rewrite playAsync_run. proj.
  by destruct (fails w (PlaySound _)); exec.
Qed.

Lemma playAdhan_run w :
  AppMain.playAdhan voicePath prayerName w =
  (Resolved tt, after_playAdhan voicePath prayerName w).
Proof.
  unfold AppMain.playAdhan, after_playAdhan. exec.
  destruct (silentMode w); [done|].
  rewrite try_run, bind_run, unloadPrevious_run. cbv beta iota.
  rewrite bind_run, adhanUrlFor_run. cbv beta iota.
  by rewrite play_run.
Qed.

Lemma after_unloadPrevious_frame w :
  fails (after_unloadPrevious w) = fails w /\
  silentMode (after_unloadPrevious w) = silentMode w /\
  next_sound (after_unloadPrevious w) = next_sound w /\
  soundRef (after_unloadPrevious w) = None /\
  audio_trace (after_unloadPrevious w) = audio_trace w ++ events_of_unload w /\
  loaded (after_unloadPrevious w) = loaded_after (loaded w) (events_of_unload w).
Proof.
  unfold after_unloadPrevious, events_of_unload.
  destruct (soundRef w) as [h|] eqn:Href;
    [destruct (fails w (UnloadSound h))|]; proj;
    rewrite ?app_nil_r; auto 10.
Qed.

Lemma after_play_frame src w :
  fails (after_play src w) = fails w /\
  silentMode (after_play src w) = silentMode w /\
  audio_trace (after_play src w) = audio_trace w ++ events_of_play src w /\
  loaded (after_play src w) = loaded_after (loaded w) (events_of_play src w) /\
  soundRef (after_play src w) =
    if fails w (CreateSound src) then soundRef w else Some (next_sound w).
Proof.
  unfold after_play, events_of_play, after_create, after_start.
  destruct (fails w (CreateSound src));
    [|destruct (fails w (SetVolume _)); [|destruct (fails w (PlaySound _))]];
    proj; rewrite <- ?app_assoc, ?app_nil_r; auto 10.
Qed.

Lemma loaded_after_app l t1 t2 :
  loaded_after l (t1 ++ t2) = loaded_after (loaded_after l t1) t2.
Proof. apply fold_left_app. Qed.

Lemma after_playAdhan_frame w :
  fails (after_playAdhan voicePath prayerName w) = fails w /\
  silentMode (after_playAdhan voicePath prayerName w) = silentMode w /\
  audio_trace (after_playAdhan voicePath prayerName w) =
    audio_trace w ++ events_of_playAdhan voicePath prayerName w /\
  loaded (after_playAdhan voicePath prayerName w) =
    loaded_after (loaded w) (events_of_playAdhan voicePath prayerName w).
Proof.
  unfold after_playAdhan, events_of_playAdhan.
  destruct (silentMode w) eqn:Hs; [by rewrite app_nil_r|].
  destruct (after_unloadPrevious_frame w) as (Hf & Hsm & _ & _ & Ht & Hl).
  destruct (after_play_frame
              (Uri (adhanUrl voicePath prayerName (after_unloadPrevious w)))
              (after_unloadPrevious w)) as (Hf' & Hsm' & Ht' & Hl' & _).
  rewrite Hf', Hsm', Ht', Hl', Hf, Hsm, Ht, Hl, loaded_after_app, app_assoc.
  auto.
Qed.

Lemma unload_self h : Audio.unload h [h] = [].
Proof. unfold Audio.unload. cbn. by rewrite Nat.eqb_refl. Qed.

(** One invocation, when unloading is not rejected and the sound held
    is the only one loaded: at no point are two sounds loaded, and the
    invariant holds again at the end. *)
Lemma playAdhan_one_player w :
  held_by_ref w ->
  (forall h, fails w (UnloadSound h) = false) ->
  Forall (fun l => (length l <= 1)%nat)
    (loaded_during (loaded w) (events_of_playAdhan voicePath prayerName w)) /\
  held_by_ref (after_playAdhan voicePath prayerName w).
Proof.
  intros Hheld Hunload. unfold held_by_ref in *.
  unfold events_of_playAdhan, after_playAdhan.
  destruct (silentMode w); [by split; [constructor|]|].
  destruct (after_unloadPrevious_frame w) as (Hf & _ & Hn & Hr & _ & Hl).
  destruct (after_play_frame
              (Uri (adhanUrl voicePath prayerName (after_unloadPrevious w)))
              (after_unloadPrevious w)) as (_ & _ & _ & Hl' & Hr').
  rewrite Hl', Hr', Hl, Hr, Hf, Hn, loaded_during_app, Hheld.
  unfold events_of_unload, events_of_play.
  rewrite Hf, Hn.
  destruct (soundRef w) as [h|]; rewrite ?Hunload;
    destruct (fails w (CreateSound _));
    [| destruct (fails w (SetVolume _)); [|destruct (fails w (PlaySound _))]
     | | destruct (fails w (SetVolume _)); [|destruct (fails w (PlaySound _))]];
    cbn [app loaded_during loaded_after fold_left apply_event];
    rewrite ?unload_self; cbn [app length];
    (split; [repeat constructor|done]).
Qed.

(** Run on its own, the turn-by-turn [playAdhan] is the function run to
    completion. *)
Lemma createTurns_alone w :
  let r := AppMain.createTurns voicePath prayerName w in
  run_turns 3 (fst r) (snd r) =
  (Finished, after_play (Uri (adhanUrl voicePath prayerName w)) w).
Proof.
  cbv zeta. unfold AppMain.createTurns, AppMain.playTurns, after_play,
    after_create, after_start.
  rewrite adhanUrlFor_run. cbn [fst snd run_turns advance].
  rewrite createAsync_run.
  destruct (fails w (CreateSound _)); [done|].
  cbn [fst snd run_turns advance]. rewrite setVolumeAsync_run. proj.
  destruct (fails w (SetVolume _)); [done|].
  cbn [fst snd run_turns advance]. rewrite playAsync_run. proj.
  by destruct (fails w (PlaySound _)).
Qed.

Lemma run_turns_S n t w :
  run_turns (S n) t w = run_turns n (fst (advance t w)) (snd (advance t w)).
Proof. cbn [run_turns]. by destruct (advance t w). Qed.

Lemma run_turns_Finished n w : run_turns n Finished w = (Finished, w).
Proof. induction n; [done|]. by rewrite run_turns_S. Qed.

Lemma run_turns_more n t w w' :
  run_turns n t w = (Finished, w') -> run_turns (S n) t w = (Finished, w').
Proof.
  revert t w. induction n as [|n IH]; intros t w H.
  - cbn in H. injection H as -> ->. apply run_turns_Finished.
  - rewrite run_turns_S in *. by apply IH.
Qed.

Lemma playAdhanTurns_alone w :
  run_turns 5 (Awaiting (AppMain.playAdhanTurns voicePath prayerName)) w =
  (Finished, after (AppMain.playAdhan voicePath prayerName w)).
Proof.
  rewrite playAdhan_run. proj. unfold after_playAdhan, after_unloadPrevious.
  rewrite run_turns_S. cbn [advance]. unfold AppMain.playAdhanTurns.
  destruct (silentMode w); [apply run_turns_Finished|].
  destruct (soundRef w) as [current|].
  - rewrite run_turns_S. cbn [advance fst snd].
    rewrite try_run, unloadAsync_run.
    destruct (fails w (UnloadSound current)); cbv beta iota; rewrite ?ret_run;
      proj; apply createTurns_alone.
  - apply run_turns_more, createTurns_alone.
Qed.

End OnePlayer.

(** X29: two invocations of the second shell's [playAdhan] for the same
    payload, the second starting when the first has returned.
    When the sound held in [soundRef] is the only one loaded and no
    unload is rejected, both return normally; whichever of create,
    set-volume or play is rejected, at no point of the two invocations
    are two sounds loaded; and the second invocation, unless muted,
    begins by unloading the sound the first one left in [soundRef]. *)
Theorem playAdhan_twice_one_player
    (w : World) (voicePath prayerName : option string) :
  held_by_ref w ->
  (forall h, fails w (UnloadSound h) = false) ->
  let r1 := AppMain.playAdhan voicePath prayerName w in
  let r2 := AppMain.playAdhan voicePath prayerName (after r1) in
  result r1 = Resolved tt /\ result r2 = Resolved tt /\
  exists t1 t2,
    audio_trace (after r1) = audio_trace w ++ t1 /\
    audio_trace (after r2) = audio_trace (after r1) ++ t2 /\
    Forall (fun l => (length l <= 1)%nat)
      (loaded_during (loaded w) (t1 ++ t2)) /\
    loaded (after r2) = loaded_after (loaded w) (t1 ++ t2) /\
    (length (loaded (after r2)) <= 1)%nat /\
    (forall h, soundRef (after r1) = Some h -> silentMode w = false ->
               exists t2', t2 = Unloaded h :: t2').
Proof.
  intros Hheld Hunload. cbv zeta. rewrite !playAdhan_run. proj.
  destruct (after_playAdhan_frame voicePath prayerName w)
    as (Hf1 & Hs1 & Ht1 & Hl1).
  destruct (playAdhan_one_player voicePath prayerName w Hheld Hunload)
    as [Hone1 Hheld1].
  remember (after_playAdhan voicePath prayerName w) as w1 eqn:Hw1.
  destruct (after_playAdhan_frame voicePath prayerName w1)
    as (Hf2 & Hs2 & Ht2 & Hl2).
  assert (forall h, fails w1 (UnloadSound h) = false) as Hunload1.
  { intros h. rewrite Hf1. apply Hunload. }
  destruct (playAdhan_one_player voicePath prayerName w1 Hheld1 Hunload1)
    as [Hone2 Hheld2].
  split; [done|]. split; [done|].
  exists (events_of_playAdhan voicePath prayerName w),
    (events_of_playAdhan voicePath prayerName w1).
  split; [done|]. split; [done|]. split.
  { rewrite loaded_during_app. apply Forall_app. split; [done|].
    by rewrite <- Hl1. }
  split; [by rewrite Hl2, Hl1, loaded_after_app|]. split.
  { rewrite Hheld2. destruct (soundRef _); cbn; lia. }
  intros h Hh Hs. unfold events_of_playAdhan, events_of_unload.
  rewrite Hs1, Hs, Hh, Hunload1. by eexists.
Qed.

Lemma playAdhan_twice_one_player_witness :
  let w := fresh_world 1000 never in
  let r1 := AppMain.playAdhan (Some "file:///data/voices/voice-deep.wav") None w in
  let r2 := AppMain.playAdhan (Some "file:///data/voices/voice-deep.wav") None
              (after r1) in
  result r1 = Resolved tt /\ result r2 = Resolved tt /\
  exists t1 t2,
    audio_trace (after r1) = audio_trace w ++ t1 /\
    audio_trace (after r2) = audio_trace (after r1) ++ t2 /\
    Forall (fun l => (length l <= 1)%nat)
      (loaded_during (loaded w) (t1 ++ t2)) /\
    loaded (after r2) = loaded_after (loaded w) (t1 ++ t2) /\
    (length (loaded (after r2)) <= 1)%nat /\
    (forall h, soundRef (after r1) = Some h -> silentMode w = false ->
               exists t2', t2 = Unloaded h :: t2').
Proof.
  apply (playAdhan_twice_one_player (fresh_world 1000 never)
           (Some "file:///data/voices/voice-deep.wav") None).
  - reflexivity.
  - reflexivity.
Defined.

(** * Further properties *)

(** ** Scheduling when a call rejects *)

Section SchedulingFailures.

Lemma IdTag_eqb_eq a b : IdTag_eqb a b = true <-> a = b.
Proof.
  unfold IdTag_eqb. rewrite andb_true_iff, String.eqb_eq, Z.eqb_eq.
  destruct a, b; simpl. split; [intros [-> ->]; done | intros [= -> ->]; done].
Qed.

Lemma rejects_schedule_of_only tag op :
  op <> ScheduleNotification tag -> rejects_schedule_of tag op = false.
Proof.
  intros Hop. destruct op; try reflexivity. simpl.
  apply not_true_is_false. intros H%IdTag_eqb_eq. by subst.
Qed.

Lemma rejects_schedule_of_self tag :
  rejects_schedule_of tag (ScheduleNotification tag) = true.
Proof. simpl. by apply IdTag_eqb_eq. Qed.

(** [cancelAllScheduledNotifications] when neither the store nor a
    cancellation rejects. *)
Lemma after_cancelAll_clean w :
  fails w (GetItem SCHEDULED_IDS_KEY) = false ->
  fails w (RemoveItem SCHEDULED_IDS_KEY) = false ->
  (forall id, cancel_fails w id = false) ->
  after_cancelAll w =
  with_storage (with_registry w (untracked w) (next_notification w))
    (AsyncStorage.set_scheduled_ids None (storage w)).
Proof.
  intros Hget Hrm Hc. unfold after_cancelAll. rewrite Hget, Hrm.
  assert (existsb (cancel_fails w) (persisted_ids w) = false) as ->.
  { apply not_true_is_false. intros (id & _ & Hf)%existsb_exists.
    by rewrite Hc in Hf. }
  cbv zeta. do 2 f_equal. apply filter_ext. intros n. f_equal.
  unfold cancelled, tracked. apply existsb_pointwise.
  intros id. by rewrite Hc, andb_true_r.
Qed.

(** The loop of the daily run up to the entry whose scheduling is
    rejected: the entries before it are scheduled and recorded, and the
    rejection ends the loop. *)
Lemma scheduleEntries_stops vp name dt post : forall pre scheduled w,
  fails w (ScheduleNotification
             (dailyTag (timeZone w) (now w) (name, dt))) = true ->
  (forall op,
     op <> ScheduleNotification (dailyTag (timeZone w) (now w) (name, dt)) ->
              fails w op = false) ->
  Forall (fun e => fst e <> name) pre ->
  scheduleEntries (pre ++ (name, dt) :: post) vp scheduled w =
  (Threw (Rejected (ScheduleNotification
                      (dailyTag (timeZone w) (now w) (name, dt)))),
   after_scheduleEntries pre vp w).
Proof.
  induction pre as [|[name' dt'] pre IH]; intros scheduled w Hrej Hothers Hpre.
  - cbn [app scheduleEntries]. exec.
    rewrite scheduleNotificationForPrayer_run.
    unfold dailyTag in Hrej. cbn [fst snd] in Hrej. by rewrite Hrej.
  - apply Forall_cons in Hpre as [Hname Hpre]. cbn [fst] in Hname.
    cbn [app scheduleEntries]. exec.
    rewrite scheduleNotificationForPrayer_run.
    rewrite !Hothers by (unfold dailyTag; cbn [fst snd]; congruence).
    cbv beta iota zeta. cbn [orb].
    rewrite IH by done. proj. f_equal.
    unfold after_scheduleEntries.
    destruct pre as [|e pre]; [done|]. proj.
    unfold persisted_ids. proj. cbn [parse_array].
    rewrite <- !app_assoc. cbn [app length seq]. rewrite Nat.add_succ_r.
    destruct e. reflexivity.
Qed.

End SchedulingFailures.

(** X1: when the store rejects the read or the write of the persisted
    list, [scheduleNotificationForPrayer] still registers the
    notification and returns its identifier, but the list does not name
    it; a later [cancelAllScheduledNotifications], whatever rejects
    then, leaves that notification pending. *)
Theorem scheduleNotificationForPrayer_untracked_on_store_failure
    (w : World) (tag : IdTag) (title body : string) (date : Date)
    (vp : option string) :
  fails w (ScheduleNotification tag) = false ->
  fails w (GetItem SCHEDULED_IDS_KEY) || fails w (SetItem SCHEDULED_IDS_KEY)
    = true ->
  ~ In (next_notification w) (persisted_ids w) ->
  let r := NotificationsService.scheduleNotificationForPrayer
             tag title body date vp w in
  let n := notification (next_notification w) tag title body date vp in
  result r = Resolved (next_notification w) /\
  pending (after r) = pending w ++ [n] /\
  persisted_ids (after r) = persisted_ids w /\
  In n (pending (after (NotificationsService.cancelAllScheduledNotifications
                          (after r)))).
Proof.
  intros Hsched Hstore Hfresh. cbv zeta.
  rewrite scheduleNotificationForPrayer_run, Hsched, Hstore. cbv zeta. proj.
  split; [done|]. split; [done|]. split; [done|].
  rewrite cancelAll_run. proj. unfold after_cancelAll. proj.
  assert (In (notification (next_notification w) tag title body date vp)
            (pending w ++
             [notification (next_notification w) tag title body date vp]))
    as Hin by (apply in_or_app; right; by left).
  destruct (fails w (GetItem SCHEDULED_IDS_KEY)); [done|]. cbv zeta.
  assert (In (notification (next_notification w) tag title body date vp)
            (survivors
               (with_registry w
                  (pending w ++
                   [notification (next_notification w) tag title body date vp])
                  (S (next_notification w)))
               (persisted_ids w))) as Hs.
  { apply in_survivors. split; [done|]. by intros [Hin' _]. }
  change (persisted_ids (with_registry w _ _)) with (persisted_ids w).
  destruct (existsb _ _); [done|].
  by destruct (fails w (RemoveItem _)).
Qed.

Lemma scheduleNotificationForPrayer_untracked_on_store_failure_witness :
  let w := fresh_world 1000 rejects_write_of_ids in
  let r := NotificationsService.scheduleNotificationForPrayer
             {| tag_name := "asr"; tag_stamp := 0 |} "asr prayer time"
             "It's time for asr prayer" 55800000 None w in
  persisted_ids (after r) = [] /\
  map identifier
    (pending (after (NotificationsService.cancelAllScheduledNotifications
                       (after r)))) = [0%nat].
Proof.
  destruct (scheduleNotificationForPrayer_untracked_on_store_failure
              (fresh_world 1000 rejects_write_of_ids)
              {| tag_name := "asr"; tag_stamp := 0 |} "asr prayer time"
              "It's time for asr prayer" 55800000 None)
    as (_ & _ & Hids & _); [reflexivity | reflexivity | intros [] |].
  split; [exact Hids | reflexivity].
Defined.

(** X2: when the scheduling of one entry of the daily run is rejected
    (and nothing else is), [scheduleDailyPrayerNotifications] rejects with
    that rejection and takes nothing back: the former notifications of
    the list have been cancelled, the entries before the rejected one are
    scheduled and are the ones the persisted list names, and no later
    entry is scheduled. *)
Theorem scheduleDaily_rejection_keeps_earlier_entries
    (w : World) (pre post : list (string * Date)) (name : string) (dt : Date)
    (vp : option string) :
  fails w (ScheduleNotification
             (dailyTag (timeZone w) (now w) (name, dt))) = true ->
  (forall op,
     op <> ScheduleNotification (dailyTag (timeZone w) (now w) (name, dt)) ->
              fails w op = false) ->
  Forall (fun e => fst e <> name) pre ->
  let r := NotificationsService.scheduleDailyPrayerNotifications
             (pre ++ (name, dt) :: post) vp w in
  result r =
    Threw (Rejected (ScheduleNotification
                       (dailyTag (timeZone w) (now w) (name, dt)))) /\
  pending (after r) =
    untracked w ++
    dailyNotifications (timeZone w) (now w) vp (next_notification w) pre /\
  persisted_ids (after r) = seq (next_notification w) (length pre).
Proof.
  intros Hrej Hothers Hpre. cbv zeta.
  unfold scheduleDailyPrayerNotifications. exec.
  rewrite cancelAll_run. exec.
  rewrite after_cancelAll_clean
    by (try intros id; unfold cancel_fails; by apply Hothers).
  proj. rewrite (Hothers SetNotificationChannel), andb_false_r by done.
  cbv beta iota.
  rewrite scheduleEntries_stops by done. proj.
  split; [done|]. unfold after_scheduleEntries.
  destruct pre as [|e pre]; proj.
  - by rewrite app_nil_r.
  - done.
Qed.

Lemma scheduleDaily_rejection_keeps_earlier_entries_witness :
  let w := fresh_world 1000
             (rejects_schedule_of
                (dailyTag zone_utc 1000 ("dhuhr", 43200000))) in
  let r := NotificationsService.scheduleDailyPrayerNotifications
             (Object_entries stale_times) None w in
  persisted_ids (after r) = [0; 1]%nat.
Proof.
  apply (scheduleDaily_rejection_keeps_earlier_entries
           (fresh_world 1000
              (rejects_schedule_of
                 (dailyTag zone_utc 1000 ("dhuhr", 43200000))))
           [("fajr", 18000000); ("sunrise", 22500000)]
           [("asr", 55800000); ("maghrib", 64800000); ("isha", 70200000)]
           "dhuhr" 43200000 None).
  - reflexivity.
  - intros op Hop. by apply rejects_schedule_of_only.
  - repeat constructor; discriminate.
Defined.

(** ** The handlers of the shells *)

(** X3: without the permission to notify, [onSchedule] of either shell
    and [onTestNotification] return without cancelling or scheduling
    anything: the world is as before. *)
Theorem handlers_do_nothing_without_permission
    (w : World) (prayerTimes : PrayerTimesMap) :
  permission w = false ->
  fails w RequestPermissions = false ->
  AppBasic.onSchedule prayerTimes w = (Resolved tt, w) /\
  AppMain.onSchedule prayerTimes w = (Resolved tt, w) /\
  AppMain.onTestNotification w = (Resolved tt, w).
Proof.
  intros Hperm Hreq.
  unfold AppBasic.onSchedule, AppMain.onSchedule, AppMain.onTestNotification.
  exec. by rewrite Hreq, Hperm.
Qed.

Lemma handlers_do_nothing_without_permission_witness :
  let w := world_without_permission never in
  AppMain.onSchedule stale_times w = (Resolved tt, w).
Proof.
  apply (handlers_do_nothing_without_permission
           (world_without_permission never) stale_times); reflexivity.
Defined.

(** X4: [onSchedule] of either shell rejects only with the rejection of
    the permission request or of the channel set-up, and then it has
    changed nothing; [onTestNotification] never rejects. *)
Theorem handlers_reject_only_before_scheduling
    (w : World) (prayerTimes : PrayerTimesMap) :
  (forall r e,
     r = AppBasic.onSchedule prayerTimes w \/
     r = AppMain.onSchedule prayerTimes w ->
     result r = Threw e ->
     after r = w /\
     ((e = Rejected RequestPermissions /\ fails w RequestPermissions = true) \/
      (e = Rejected SetNotificationChannel /\
       fails w SetNotificationChannel = true))) /\
  result (AppMain.onTestNotification w) = Resolved tt.
Proof.
  split.
  - intros r e Hr.
    assert (forall (m : Promise unit),
              r = (await ok <- NotificationsService.requestPermissions in
                   if negb ok then ret tt else
                   await _ <- NotificationsService.ensureNotificationChannel in
                   attempt m catch e => ret tt) w ->
              result r = Threw e ->
              after r = w /\
              ((e = Rejected RequestPermissions /\
                fails w RequestPermissions = true) \/
               (e = Rejected SetNotificationChannel /\
                fails w SetNotificationChannel = true))) as Hgen.
    { intros m ->. exec.
      destruct (fails w RequestPermissions) eqn:Hreq; proj.
      { intros [= <-]. split; [done|]. by left. }
      destruct (permission w); cbn [negb]; exec; [|discriminate].
      destruct (android w); cbn [andb].
      - destruct (fails w SetNotificationChannel) eqn:Hch; proj.
        + intros [= <-]. split; [done|]. by right.
        + rewrite try_run. destruct (m w) as [[[]|e'] w']; run; discriminate.
      - rewrite try_run. destruct (m w) as [[[]|e'] w']; run; discriminate. }
    destruct Hr as [-> | ->]; eapply Hgen; reflexivity.
  - unfold AppMain.onTestNotification. rewrite try_run.
    match goal with |- context [match ?m w with _ => _ end] =>
      destruct (m w) as [[[]|e'] w'] end; by run.
Qed.

(** X5: in the first shell, when the read of the active voice is
    rejected, [onSchedule] returns normally and has neither cancelled nor
    scheduled anything. *)
Theorem onSchedule_basic_gives_up_when_the_store_rejects
    (w : World) (prayerTimes : PrayerTimesMap) (e : Error) :
  permission w = true ->
  fails w RequestPermissions = false ->
  android w && fails w SetNotificationChannel = false ->
  result (VoicesManager.getActiveVoice w) = Threw e ->
  AppBasic.onSchedule prayerTimes w = (Resolved tt, w).
Proof.
  intros Hperm Hreq Hch Hact. unfold AppBasic.onSchedule, AppBasic.activeVoicePath.
  exec. rewrite Hreq, Hperm. cbn [negb]. exec. rewrite Hch. exec.
  revert Hact. rewrite getActiveVoice_run.
  destruct (fails w (GetItem ACTIVE_VOICE_KEY)); [done|].
  destruct (active_voice_id (storage w)) as [id|]; [|discriminate].
  destruct (truthy (Some id)); [|discriminate].
  destruct (fails w (GetItem DOWNLOADED_KEY)); [done|discriminate].
Qed.

Lemma onSchedule_basic_gives_up_when_the_store_rejects_witness :
  let w := world_two_pending
             (fun op => match op with GetItem _ => true | _ => false end) in
  AppBasic.onSchedule stale_times w = (Resolved tt, w).
Proof.
  apply (onSchedule_basic_gives_up_when_the_store_rejects
           (world_two_pending
              (fun op => match op with GetItem _ => true | _ => false end))
           stale_times (Rejected (GetItem ACTIVE_VOICE_KEY))); reflexivity.
Defined.

(** ** The voice store when calls reject *)

Section VoiceIndex.

Lemma synthetic_file_eq w id :
  documentDirectory w +:+ "adhan-synthetic-" +:+ id +:+ ".wav" =
  synthetic_file w id.
Proof. reflexivity. Qed.

Lemma voice_file_eq w id :
  (documentDirectory w +:+ "voices/") +:+ "voice-" +:+ id +:+ ".wav" =
  voice_file w id.
Proof. reflexivity. Qed.

Lemma voice_file_eq' w id :
  documentDirectory w +:+ "voices/voice-" +:+ id +:+ ".wav" = voice_file w id.
Proof. unfold voice_file. by rewrite append_assoc. Qed.

Lemma index_ids_filter p l :
  NoDup (index_ids l) -> NoDup (index_ids (List.filter p l)).
Proof.
  unfold index_ids. induction l as [|a l IH]; simpl; [done|].
  intros H. inversion H as [|? ? Hnotin Hnodup]; subst.
  destruct (p a); simpl; [|by apply IH].
  constructor; [|by apply IH].
  intros Hin. apply Hnotin. apply list_elem_of_In in Hin.
  apply list_elem_of_In.
  apply in_map_iff in Hin as (x & Hx & Hin).
  apply in_map_iff. exists x. split; [done|].
  by apply filter_In in Hin as [Hin _].
Qed.

Lemma index_ids_replaced id meta l :
  vm_id meta = id ->
  NoDup (index_ids l) ->
  NoDup (index_ids (List.filter (other_than id) l ++ [meta])).
Proof.
  intros Hid Hl. unfold index_ids. rewrite map_app. apply NoDup_app.
  split; [by apply index_ids_filter|]. split; [|apply NoDup_singleton].
  intros x Hx Hx'. apply list_elem_of_In in Hx.
  apply in_map_iff in Hx as (a & <- & Hin).
  apply filter_In in Hin as [_ Hne]. simpl in Hx'.
  apply list_elem_of_singleton in Hx'. unfold other_than in Hne.
  rewrite Hx', Hid, String.eqb_refl in Hne. discriminate.
Qed.

(** What the three operations of the voice manager can leave in the
    store under the index key, whatever rejects. *)
Lemma downloadRemoteVoice_index w remote :
  let r := downloadRemoteVoice remote w in
  storage (after r) = storage w \/
  downloaded_index (after r) =
    List.filter (other_than (rv_id remote)) (downloaded_index w) ++
    [remote_meta w remote].
Proof.
  cbv zeta. unfold downloadRemoteVoice. exec.
  destruct (fails w (MakeDirectory _)); exec; [by left|].
  destruct (fails w (DeleteFile _)); exec; [by left|].
  destruct (fails w (Download _ _)); exec; [by left|].
  destruct (fails w (GetItem _)); exec; [by left|].
  destruct (fails w (SetItem _)); exec; [by left|]. by right.
Qed.

Lemma downloadVoice_index w id :
  let r := downloadVoice id w in
  storage (after r) = storage w \/
  downloaded_index (after r) =
    List.filter (other_than id) (downloaded_index w) ++ [synthetic_meta w id].
Proof.
  cbv zeta. unfold downloadVoice, Voices.generateSyntheticAdhan. exec.
  destruct (fails w (MakeDirectory _)); exec; [by left|].
  destruct (fails w (WriteFile _)); exec; [by left|].
  destruct (fails w (CopyFile _ _)); exec; [by left|].
  destruct (FileSystem.exists_ _ _); exec; [|by left].
  destruct (fails w (GetItem _)); exec; [by left|].
  destruct (fails w (SetItem _)); exec; [by left|]. by right.
Qed.

Lemma removeDownloadedVoice_index w id :
  let r := removeDownloadedVoice id w in
  downloaded_voices (storage (after r)) = downloaded_voices (storage w) \/
  downloaded_index (after r) = List.filter (other_than id) (downloaded_index w).
Proof.
  cbv zeta. unfold removeDownloadedVoice. exec.
  destruct (fails w (GetItem DOWNLOADED_KEY)); exec; [by left|].
  destruct (fails w (SetItem _)); exec; [by left|]. right.
  destruct (fails w (GetInfo _)); exec; [done|].
  destruct (FileSystem.exists_ _ _); exec.
  - destruct (fails w (DeleteFile _)); exec; [done|].
    destruct (fails w (GetItem ACTIVE_VOICE_KEY)); exec; [done|].
    destruct (bool_decide _); exec; [|done].
    by destruct (fails w (RemoveItem _)); exec.
  - destruct (fails w (GetItem ACTIVE_VOICE_KEY)); exec; [done|].
    destruct (bool_decide _); exec; [|done].
    by destruct (fails w (RemoveItem _)); exec.
Qed.

End VoiceIndex.

(** X6: the ids of the downloaded index stay pairwise distinct under
    [downloadRemoteVoice], [downloadVoice] and [removeDownloadedVoice],
    whichever calls reject. *)
Theorem voice_index_ids_stay_distinct
    (w : World) (remote : RemoteVoice) (voiceId : string) :
  NoDup (index_ids (downloaded_index w)) ->
  NoDup (index_ids (downloaded_index
                      (after (VoicesManager.downloadRemoteVoice remote w)))) /\
  NoDup (index_ids (downloaded_index
                      (after (VoicesManager.downloadVoice voiceId w)))) /\
  NoDup (index_ids (downloaded_index
                      (after (VoicesManager.removeDownloadedVoice voiceId w)))).
Proof.
  intros Hw. split; [|split].
  - destruct (downloadRemoteVoice_index w remote) as [H|H].
    + unfold downloaded_index. by rewrite H.
    + rewrite H. by apply index_ids_replaced.
  - destruct (downloadVoice_index w voiceId) as [H|H].
    + unfold downloaded_index. by rewrite H.
    + rewrite H. by apply index_ids_replaced.
  - destruct (removeDownloadedVoice_index w voiceId) as [H|H].
    + unfold downloaded_index. by rewrite H.
    + rewrite H. by apply index_ids_filter.
Qed.

Lemma voice_index_ids_stay_distinct_witness :
  NoDup (index_ids (downloaded_index
                      (after (VoicesManager.downloadRemoteVoice demo_voice_a
                                (world_with_voices None never))))).
Proof.
  apply (voice_index_ids_stay_distinct
           (world_with_voices None never) demo_voice_a "deep").
  cbn. constructor; [intros [H|[]]%list_elem_of_In; discriminate H|].
  constructor; [intros []%list_elem_of_In|constructor].
Defined.

(** X7: when no call rejects, [downloadRemoteVoice] returns the record
    of the voice, whose file then exists; the record is the last of the
    index and the only one with its id, the other records keep their
    order, no file of another path is removed, and the active voice is
    as before. *)
Theorem downloadRemoteVoice_installs (w : World) (remote : RemoteVoice) :
  reliable w ->
  let r := VoicesManager.downloadRemoteVoice remote w in
  let meta := remote_meta w remote in
  result r = Resolved (Some meta) /\
  (voice_file w (rv_id remote) ∈ files (after r)) /\
  (forall f, f ∈ files w -> f ∈ files (after r)) /\
  downloaded_index (after r) =
    List.filter (other_than (rv_id remote)) (downloaded_index w) ++ [meta] /\
  List.filter (has_id (rv_id remote)) (downloaded_index (after r)) = [meta] /\
  active_voice_id (storage (after r)) = active_voice_id (storage w).
Proof.
  intros Hw. cbv zeta. unfold downloadRemoteVoice. exec_reliable Hw.
  rewrite !voice_file_eq. fold (remote_meta w remote).
  fold (downloaded_index w).
  split; [done|]. split; [set_solver|]. split.
  { intros f Hf. destruct (decide (f = voice_file w (rv_id remote)));
      set_solver. }
  split; [done|]. split; [|done].
  unfold downloaded_index. proj. cbn [parse_array]. fold (downloaded_index w).
  rewrite List.filter_app, filter_filter.
  cbn [List.filter]. unfold has_id at 2. cbn [remote_meta vm_id].
  rewrite String.eqb_refl.
  assert (List.filter
            (fun x => other_than (rv_id remote) x && has_id (rv_id remote) x)
            (downloaded_index w) = []) as ->; [|done].
  induction (downloaded_index w) as [|a l IH]; [done|]. cbn [List.filter].
  rewrite other_than_has_id. by destruct (has_id _ a).
Qed.

Lemma downloadRemoteVoice_installs_witness :
  let w := world_with_voices (Some "deep") never in
  index_ids (downloaded_index
               (after (VoicesManager.downloadRemoteVoice demo_voice_a w))) =
  ["deep"; "remote-a"].
Proof.
  destruct (downloadRemoteVoice_installs
              (world_with_voices (Some "deep") never) demo_voice_a)
    as (_ & _ & _ & H & _); [intros op; reflexivity|].
  cbv zeta. rewrite H. reflexivity.
Defined.

(** X8: a download that fails after the old file was deleted leaves the
    index naming a file that is gone: [downloadRemoteVoice] returns
    [null] and logs a warning, every record of the index is still there,
    and the file of the voice does not exist. *)
Theorem downloadRemoteVoice_failure_deletes_the_old_file
    (w : World) (remote : RemoteVoice) :
  let file := voice_file w (rv_id remote) in
  fails w (MakeDirectory (documentDirectory w +:+ "voices/")) = false ->
  fails w (DeleteFile file) = false ->
  fails w (Download (rv_previewUrl remote) file) = true ->
  let r := VoicesManager.downloadRemoteVoice remote w in
  result r = Resolved None /\
  downloaded_index (after r) = downloaded_index w /\
  (file ∉ files (after r)) /\
  console (after r) = console w ++ ["downloadRemoteVoice failed"].
Proof.
  cbv zeta. intros Hmk Hdel Hdown. unfold downloadRemoteVoice. exec.
  rewrite Hmk. exec. rewrite !voice_file_eq, Hdel. exec. rewrite Hdown. exec.
  split; [done|]. split; [done|]. split; [|done].
  rewrite elem_of_difference, elem_of_singleton. by intros [_ []].
Qed.

Lemma downloadRemoteVoice_failure_deletes_the_old_file_witness :
  let w := world_with_installed_voices (Some "remote-a") rejects_download in
  let r := VoicesManager.downloadRemoteVoice demo_voice_a w in
  ("file:///data/voices/voice-remote-a.wav" ∈ files w) /\
  ("file:///data/voices/voice-remote-a.wav" ∉ files (after r)) /\
  index_ids (downloaded_index (after r)) = ["deep"; "remote-a"].
Proof.
  destruct (downloadRemoteVoice_failure_deletes_the_old_file
              (world_with_installed_voices (Some "remote-a") rejects_download)
              demo_voice_a) as (_ & Hidx & Hfile & _); try reflexivity.
  split; [|split].
  - apply (bool_decide_unpack _). vm_compute. exact I.
  - exact Hfile.
  - cbv zeta. rewrite Hidx. reflexivity.
Defined.

(** X9: when no call rejects, [removeDownloadedVoice] removes the
    records of the voice and its file and nothing else of either, clears
    the active voice exactly when it is the removed one, and a second
    removal changes nothing more. *)
Theorem removeDownloadedVoice_idempotent (w : World) (voiceId : string) :
  reliable w ->
  let r := VoicesManager.removeDownloadedVoice voiceId w in
  result r = Resolved tt /\
  downloaded_index (after r) =
    List.filter (other_than voiceId) (downloaded_index w) /\
  files (after r) = files w ∖ {[voice_file w voiceId]} /\
  active_voice_id (storage (after r)) =
    (if bool_decide (active_voice_id (storage w) = Some voiceId)
     then None else active_voice_id (storage w)) /\
  VoicesManager.removeDownloadedVoice voiceId (after r) =
    (Resolved tt, after r).
Proof.
  intros Hw. cbv zeta. rewrite removeDownloadedVoice_run by done. proj.
  split; [done|]. split; [done|]. split; [done|]. split; [done|].
  rewrite removeDownloadedVoice_run by (intros op; apply Hw). f_equal.
  assert (files w ∖ {[voice_file w voiceId]} ∖ {[voice_file w voiceId]} =
          files w ∖ {[voice_file w voiceId]}) as Hfiles.
  { apply set_eq. intros x. rewrite !elem_of_difference. tauto. }
  assert (List.filter (other_than voiceId)
            (List.filter (other_than voiceId) (downloaded_index w)) =
          List.filter (other_than voiceId) (downloaded_index w)) as Hindex.
  { rewrite filter_filter. apply filter_ext. intros a. apply andb_diag. }
  remember (after_removeDownloadedVoice voiceId w) as w1 eqn:E.
  unfold after_removeDownloadedVoice.
  assert (files w1 ∖ {[voice_file w1 voiceId]} = files w1) as ->
    by (subst w1; exact Hfiles).
  assert (List.filter (other_than voiceId) (downloaded_index w1) =
          downloaded_index w1) as -> by (subst w1; exact Hindex).
  assert ((if bool_decide (active_voice_id (storage w1) = Some voiceId)
           then None else active_voice_id (storage w1)) =
          active_voice_id (storage w1)) as ->.
  { subst w1. unfold after_removeDownloadedVoice. proj.
    destruct (bool_decide (active_voice_id (storage w) = Some voiceId)) eqn:Ha.
    - by rewrite bool_decide_eq_false_2.
    - by rewrite Ha. }
  assert (Some (downloaded_index w1) = downloaded_voices (storage w1)) as ->
    by (by subst w1).
  destruct w1 as [[] ? ? ? ? ? ? ? ? ? ? ? ? ? ? ?]. reflexivity.
Qed.

Lemma removeDownloadedVoice_idempotent_witness :
  let w := world_with_installed_voices (Some "deep") never in
  let r := VoicesManager.removeDownloadedVoice "deep" w in
  VoicesManager.removeDownloadedVoice "deep" (after r) = (Resolved tt, after r).
Proof.
  apply (removeDownloadedVoice_idempotent
           (world_with_installed_voices (Some "deep") never) "deep").
  intros op. reflexivity.
Defined.

(** X10: when the file query of [removeDownloadedVoice] is rejected, the
    call rejects after the index has been rewritten: the records of the
    voice are gone, but its file and the active id stay; when the voice
    was the active one, [getActiveVoice] then answers [null] although
    the active id is still stored. *)
Theorem removeDownloadedVoice_stops_half_way (w : World) (voiceId : string) :
  fails w (GetItem DOWNLOADED_KEY) = false ->
  fails w (SetItem DOWNLOADED_KEY) = false ->
  fails w (GetInfo (voice_file w voiceId)) = true ->
  let r := VoicesManager.removeDownloadedVoice voiceId w in
  result r = Threw (Rejected (GetInfo (voice_file w voiceId))) /\
  downloaded_index (after r) =
    List.filter (other_than voiceId) (downloaded_index w) /\
  files (after r) = files w /\
  active_voice_id (storage (after r)) = active_voice_id (storage w) /\
  (active_voice_id (storage w) = Some voiceId ->
   fails w (GetItem ACTIVE_VOICE_KEY) = false ->
   result (VoicesManager.getActiveVoice (after r)) = Resolved None).
Proof.
  intros Hget Hset Hinfo. cbv zeta. unfold removeDownloadedVoice. exec.
  rewrite Hget. exec. rewrite Hset. exec. rewrite voice_file_eq', Hinfo. proj.
  split; [done|]. split; [done|]. split; [done|]. split; [done|].
  intros Hact Hgeta. rewrite getActiveVoice_run. proj.
  rewrite Hgeta, Hact, Hget. destruct (truthy (Some voiceId)); [|done]. proj.
  f_equal. unfold downloaded_index. proj. cbn [parse_array].
  fold (downloaded_index w).
  induction (downloaded_index w) as [|a l IH]; [done|]. cbn [List.filter].
  rewrite other_than_has_id. destruct (has_id voiceId a) eqn:E; [done|].
  cbn [negb List.find]. by rewrite E.
Qed.

Lemma removeDownloadedVoice_stops_half_way_witness :
  let w := world_with_installed_voices (Some "deep") rejects_info in
  let r := VoicesManager.removeDownloadedVoice "deep" w in
  active_voice_id (storage (after r)) = Some "deep" /\
  result (VoicesManager.getActiveVoice (after r)) = Resolved None.
Proof.
  destruct (removeDownloadedVoice_stops_half_way
              (world_with_installed_voices (Some "deep") rejects_info) "deep")
    as (_ & _ & _ & Hact & Hnull); try reflexivity.
  split; [exact Hact | apply Hnull; reflexivity].
Defined.

(** X11: when no call rejects, [getActiveVoice] after
    [setActiveVoice(id)] returns the first record of the index with that
    id, and [null] when the index has none (the id is stored unchecked)
    or when [id] is [null] or empty; the index is not touched. *)
Theorem setActiveVoice_then_getActiveVoice
    (w : World) (voiceId : option string) :
  reliable w ->
  let r := VoicesManager.setActiveVoice voiceId w in
  result r = Resolved tt /\
  downloaded_index (after r) = downloaded_index w /\
  active_voice_id (storage (after r)) =
    (if truthy voiceId then voiceId else None) /\
  result (VoicesManager.getActiveVoice (after r)) =
    Resolved (match voiceId with
              | Some id =>
                  if truthy voiceId
                  then List.find (has_id id) (downloaded_index w)
                  else None
              | None => None
              end).
Proof.
  intros Hw. cbv zeta. unfold setActiveVoice.
  destruct voiceId as [id|]; [destruct (truthy (Some id)) eqn:Ht|];
    exec_reliable Hw; rewrite getActiveVoice_run; exec_reliable Hw;
    rewrite ?Ht; done.
Qed.

Lemma setActiveVoice_then_getActiveVoice_witness :
  result (VoicesManager.getActiveVoice
            (after (VoicesManager.setActiveVoice (Some "bright")
                      (world_with_voices None never)))) = Resolved None.
Proof.
  apply (setActiveVoice_then_getActiveVoice
           (world_with_voices None never) (Some "bright")).
  intros op. reflexivity.
Defined.

(** ** services/voices.ts *)

Section Synthetic.

Lemma ensureSyntheticAdhanExists_run variant w :
  Voices.ensureSyntheticAdhanExists variant w =
  let path := synthetic_file w variant in
  if fails w (GetInfo path) then (Threw (Rejected (GetInfo path)), w)
  else if FileSystem.exists_ path w then (Resolved (Some path), w)
  else if fails w (WriteFile path) then (Resolved None, w)
  else (Resolved (Some path), with_files w (files w ∪ {[path]})).
Proof.
  unfold Voices.ensureSyntheticAdhanExists, Voices.generateSyntheticAdhan.
  exec. rewrite !synthetic_file_eq. cbv zeta.
  destruct (fails w (GetInfo _)); exec; [done|].
  destruct (FileSystem.exists_ _ w); exec; [done|].
  by destruct (fails w (WriteFile _)); exec.
Qed.

Lemma removeSyntheticAdhan_run variant w :
  Voices.removeSyntheticAdhan variant w =
  let path := synthetic_file w variant in
  if fails w (GetInfo path) then (Threw (Rejected (GetInfo path)), w)
  else if FileSystem.exists_ path w
       then if fails w (DeleteFile path)
            then (Threw (Rejected (DeleteFile path)), w)
            else (Resolved tt, with_files w (files w ∖ {[path]}))
       else (Resolved tt, w).
Proof.
  unfold Voices.removeSyntheticAdhan. exec. rewrite !synthetic_file_eq.
  cbv zeta. destruct (fails w (GetInfo _)); exec; [done|].
  destruct (FileSystem.exists_ _ w); exec; [|done].
  by destruct (fails w (DeleteFile _)).
Qed.

Lemma exists_true path w : FileSystem.exists_ path w = true <-> path ∈ files w.
Proof. unfold FileSystem.exists_. apply bool_decide_eq_true. Qed.

Lemma exists_false path w : FileSystem.exists_ path w = false <-> path ∉ files w.
Proof. unfold FileSystem.exists_. apply bool_decide_eq_false. Qed.

End Synthetic.

(** X12: [ensureSyntheticAdhanExists], for every world: when it returns
    a path, that is the path of the variant's file and the file exists,
    nothing else having changed among the files; it returns [null] only
    when the file is missing and the write was rejected, and rejects
    only when the file query was, in both cases without any change; an
    existing file is not written again; and a second call gives the
    result of the first and changes nothing. *)
Theorem ensureSyntheticAdhanExists_postcondition
    (w : World) (variant : string) :
  let path := synthetic_file w variant in
  let r := Voices.ensureSyntheticAdhanExists variant w in
  match result r with
  | Resolved (Some p) =>
      p = path /\ (path ∈ files (after r)) /\
      files (after r) = files w ∪ {[path]}
  | Resolved None =>
      (path ∉ files w) /\ fails w (WriteFile path) = true /\ after r = w
  | Threw e =>
      e = Rejected (GetInfo path) /\ fails w (GetInfo path) = true /\
      after r = w
  end /\
  ((path ∈ files w) -> fails w (GetInfo path) = false ->
   r = (Resolved (Some path), w)) /\
  Voices.ensureSyntheticAdhanExists variant (after r) = r.
Proof.
  cbv zeta. rewrite ensureSyntheticAdhanExists_run. cbv zeta.
  destruct (fails w (GetInfo _)) eqn:Hinfo; proj.
  { split; [done|]. split; [done|].
    rewrite ensureSyntheticAdhanExists_run. cbv zeta. by rewrite Hinfo. }
  destruct (FileSystem.exists_ _ w) eqn:Hex; proj.
  { apply exists_true in Hex as Hin. split; [|split; [done|]].
    - split; [done|]. split; [done|]. apply set_eq. intros x.
      rewrite elem_of_union, elem_of_singleton. split; [tauto|].
      intros [?| ->]; done.
    - rewrite ensureSyntheticAdhanExists_run. cbv zeta.
      by rewrite Hinfo, Hex. }
  apply exists_false in Hex as Hnotin.
  destruct (fails w (WriteFile _)) eqn:Hwrite; proj.
  { split; [done|]. split; [done|].
    rewrite ensureSyntheticAdhanExists_run. cbv zeta.
    by rewrite Hinfo, Hex, Hwrite. }
  split; [|split; [done|]].
  - split; [done|]. split; [|done].
    rewrite elem_of_union, elem_of_singleton. by right.
  - rewrite ensureSyntheticAdhanExists_run. cbv zeta.
    change (synthetic_file (with_files w _) variant)
      with (synthetic_file w variant). proj. rewrite Hinfo.
    assert (FileSystem.exists_ (synthetic_file w variant)
              (with_files w (files w ∪ {[synthetic_file w variant]})) = true)
      as ->; [|done].
    apply exists_true. proj. rewrite elem_of_union, elem_of_singleton.
    by right.
Qed.

Lemma ensureSyntheticAdhanExists_postcondition_witness :
  let w := with_files (fresh_world 1000 rejects_write)
             {[ "file:///data/"; "file:///data/adhan-synthetic-deep.wav" ]} in
  Voices.ensureSyntheticAdhanExists "deep" w =
  (Resolved (Some "file:///data/adhan-synthetic-deep.wav"), w).
Proof.
  apply (ensureSyntheticAdhanExists_postcondition
           (with_files (fresh_world 1000 rejects_write)
              {[ "file:///data/"; "file:///data/adhan-synthetic-deep.wav" ]})
           "deep").
  - apply (bool_decide_unpack _). vm_compute. exact I.
  - reflexivity.
Defined.

(** X13: [removeSyntheticAdhan], for every world: when it returns, the
    file of the variant does not exist and no other file has been
    touched; it rejects only with the rejection of the file query or of
    the deletion, and has then changed nothing; the deletion is not
    asked for when the file is missing.  When no call rejects,
    [ensureSyntheticAdhanExists] after it writes the file anew. *)
Theorem removeSyntheticAdhan_postcondition (w : World) (variant : string) :
  let path := synthetic_file w variant in
  let r := Voices.removeSyntheticAdhan variant w in
  match result r with
  | Resolved _ =>
      (path ∉ files (after r)) /\ files (after r) = files w ∖ {[path]}
  | Threw e =>
      after r = w /\
      ((e = Rejected (GetInfo path) /\ fails w (GetInfo path) = true) \/
       (e = Rejected (DeleteFile path) /\ fails w (DeleteFile path) = true /\
        path ∈ files w))
  end /\
  ((path ∉ files w) -> fails w (GetInfo path) = false ->
   r = (Resolved tt, w)) /\
  (reliable w ->
   result (Voices.ensureSyntheticAdhanExists variant (after r)) =
     Resolved (Some path) /\
   files (after (Voices.ensureSyntheticAdhanExists variant (after r))) =
     files w ∪ {[path]}).
Proof.
  cbv zeta. rewrite removeSyntheticAdhan_run. cbv zeta.
  destruct (fails w (GetInfo _)) eqn:Hinfo; proj.
  { split; [split; [done|by left]|]. split; [done|].
    intros Hw. by rewrite Hw in Hinfo. }
  destruct (FileSystem.exists_ _ w) eqn:Hex; proj.
  - apply exists_true in Hex as Hin.
    destruct (fails w (DeleteFile _)) eqn:Hdel; proj.
    { split; [split; [done|by right]|]. split; [done|].
      intros Hw. by rewrite Hw in Hdel. }
    split; [|split; [done|]].
    + split; [|done]. rewrite elem_of_difference, elem_of_singleton.
      by intros [_ []].
    + intros Hw. rewrite ensureSyntheticAdhanExists_run. cbv zeta.
      change (synthetic_file (with_files w _) variant)
        with (synthetic_file w variant). proj. rewrite !Hw.
      assert (FileSystem.exists_ (synthetic_file w variant)
                (with_files w (files w ∖ {[synthetic_file w variant]})) = false)
        as ->.
      { apply exists_false. proj. rewrite elem_of_difference, elem_of_singleton.
        by intros [_ []]. }
      proj. split; [done|]. apply set_eq. intros x.
      rewrite !elem_of_union, elem_of_difference, elem_of_singleton.
      destruct (decide (x = synthetic_file w variant)); tauto.
  - apply exists_false in Hex as Hnotin. split; [|split; [done|]].
    + split; [done|]. apply set_eq. intros x.
      rewrite elem_of_difference, elem_of_singleton. split; [|tauto].
      intros Hx. split; [done|]. by intros ->.
    + intros Hw. rewrite ensureSyntheticAdhanExists_run. cbv zeta.
      by rewrite !Hw, Hex.
Qed.

Lemma removeSyntheticAdhan_postcondition_witness :
  let w := fresh_world 1000 never in
  Voices.removeSyntheticAdhan "deep" w = (Resolved tt, w).
Proof.
  apply (removeSyntheticAdhan_postcondition (fresh_world 1000 never) "deep").
  - apply (bool_decide_unpack _). vm_compute. exact I.
  - reflexivity.
Defined.

Section Paths.

Lemma append_cancel (a b c : string) : a +:+ b = a +:+ c -> b = c.
Proof.
  induction a as [|x a IH]; [done|].
  change (String x (a +:+ b) = String x (a +:+ c) -> b = c).
  intros [= H]. by apply IH.
Qed.

Lemma synthetic_file_is_no_voice_file w id id' :
  synthetic_file w id <> voice_file w id'.
Proof.
  unfold synthetic_file, voice_file. rewrite append_assoc.
  intros H%append_cancel. discriminate H.
Qed.

End Paths.

(** X14: [downloadVoice] copies the generated file into the voices
    folder and does not move it: when no call rejects, both files exist
    afterwards, and [removeDownloadedVoice] then deletes the copy in the
    voices folder while the generated file stays in the document
    directory. *)
Theorem downloadVoice_keeps_the_generated_file (w : World) (voiceId : string) :
  reliable w ->
  let w1 := after (VoicesManager.downloadVoice voiceId w) in
  let w2 := after (VoicesManager.removeDownloadedVoice voiceId w1) in
  (synthetic_file w voiceId ∈ files w1) /\
  (voice_file w voiceId ∈ files w1) /\
  (synthetic_file w voiceId ∈ files w2) /\
  (voice_file w voiceId ∉ files w2).
Proof.
  intros Hw. cbv zeta. rewrite downloadVoice_run by done. proj.
  rewrite removeDownloadedVoice_run by (intros op; apply Hw).
  unfold after_removeDownloadedVoice, after_downloadVoice. proj.
  rewrite !synthetic_file_eq.
  change (voice_file (with_storage _ _) voiceId) with (voice_file w voiceId).
  pose proof (synthetic_file_is_no_voice_file w voiceId voiceId) as Hne.
  rewrite !elem_of_difference, !elem_of_union, !elem_of_singleton.
  split; [tauto|]. split; [tauto|]. split; [tauto|]. tauto.
Qed.

Lemma downloadVoice_keeps_the_generated_file_witness :
  let w := fresh_world 1000 never in
  let w1 := after (VoicesManager.downloadVoice "deep" w) in
  "file:///data/adhan-synthetic-deep.wav" ∈
    files (after (VoicesManager.removeDownloadedVoice "deep" w1)).
Proof.
  apply (downloadVoice_keeps_the_generated_file (fresh_world 1000 never) "deep").
  intros op. reflexivity.
Defined.

Section WavHeader.

Lemma low_byte x : Z.land x 255 = x mod 256.
Proof. change 255 with (Z.ones 8). by rewrite Z.land_ones. Qed.

Lemma shiftr_byte x : Z.shiftr x 8 = x / 256.
Proof. by rewrite Z.shiftr_div_pow2. Qed.

Lemma low_byte_range x : 0 <= Z.land x 255 < 256.
Proof. rewrite low_byte. by apply Z.mod_pos_bound. Qed.

(** The bytes [setUint32] and [setUint16] write hold the value modulo
    the width. *)
Lemma little_endian_low_bytes n : forall value,
  little_endian (Voices.low_bytes n value) = value mod 2 ^ (8 * Z.of_nat n).
Proof.
  induction n as [|n IH]; intros value.
  - simpl. by rewrite Z.mod_1_r.
  - cbn [Voices.low_bytes little_endian]. rewrite IH, low_byte, shiftr_byte.
    replace (8 * Z.of_nat (S n)) with (8 + 8 * Z.of_nat n) by lia.
    rewrite Z.pow_add_r by lia. change (2 ^ 8) with 256.
    rewrite Z.rem_mul_r; [done|done|]. apply Z.pow_pos_nonneg; lia.
Qed.

(** Integers that doubles hold exactly are not rounded. *)
Lemma Number_round_safe x : safe_integer x -> Voices.Number_round x = x.
Proof.
  intros [Hlo Hhi]. unfold Voices.Number_round.
  assert (Z.log2 (Z.abs x) + 1 <= 53) as Hbits.
  { destruct (Z.eq_dec (Z.abs x) 0) as [->|Hne]; [by vm_compute|].
    assert (Z.log2 (Z.abs x) < 53); [|lia].
    apply Z.log2_lt_pow2; lia. }
  by rewrite (proj2 (Z.leb_le _ _) Hbits).
Qed.

End WavHeader.

(** The header of a payload and a rate so large that the sums and
    products are rounded: the byte at offset 4 is 36, not the 35 of the
    exact sum, and the byte at offset 28 is 0, not the 2 of the exact
    product. *)
Lemma writeWavHeader_rounds_large_numbers :
  exists header,
    Voices.writeWavHeader (2 ^ 53 - 1) (2 ^ 31 + 1) (2 ^ 22 + 1) = Some header /\
    (36 + (2 ^ 53 - 1)) mod 256 = 35 /\ bytes_at 4 1 header = [36] /\
    ((2 ^ 31 + 1) * ((2 ^ 22 + 1) * 2)) mod 256 = 2 /\
    bytes_at 28 1 header = [0].
Proof. eexists. vm_compute. repeat split. Qed.

(** X15: for integers that doubles hold exactly, with sums and products
    that doubles hold exactly too, [writeWavHeader] never raises a
    [RangeError] and returns 44 bytes: the chunk identifiers RIFF, WAVE,
    [fmt ] and [data] at offsets 0, 8, 12 and 36, and, least significant
    byte first, the chunk length [36 + dataByteLength] at 4, the format
    length 16 at 16, the sample format 1 at 20, the channel count at 22,
    the sample rate at 24, the byte rate at 28, the block alignment at
    32, 16 bits per sample at 34 and [dataByteLength] at 40, each modulo
    the width of its field. *)
Theorem writeWavHeader_layout (dataByteLength sampleRate numChannels : Z) :
  safe_integer dataByteLength -> safe_integer (36 + dataByteLength) ->
  safe_integer sampleRate ->
  safe_integer numChannels -> safe_integer (numChannels * 2) ->
  safe_integer (sampleRate * (numChannels * 2)) ->
  exists header,
    Voices.writeWavHeader dataByteLength sampleRate numChannels = Some header /\
    length header = 44%nat /\
    Forall (fun b => 0 <= b < 256) header /\
    bytes_at 0 4 header = ascii_codes "RIFF" /\
    little_endian (bytes_at 4 4 header) = (36 + dataByteLength) mod 2 ^ 32 /\
    bytes_at 8 4 header = ascii_codes "WAVE" /\
    bytes_at 12 4 header = ascii_codes "fmt " /\
    little_endian (bytes_at 16 4 header) = 16 /\
    little_endian (bytes_at 20 2 header) = 1 /\
    little_endian (bytes_at 22 2 header) = numChannels mod 2 ^ 16 /\
    little_endian (bytes_at 24 4 header) = sampleRate mod 2 ^ 32 /\
    little_endian (bytes_at 28 4 header) =
      (sampleRate * (numChannels * 2)) mod 2 ^ 32 /\
    little_endian (bytes_at 32 2 header) = (numChannels * 2) mod 2 ^ 16 /\
    little_endian (bytes_at 34 2 header) = 16 /\
    bytes_at 36 4 header = ascii_codes "data" /\
    little_endian (bytes_at 40 4 header) = dataByteLength mod 2 ^ 32.
Proof.
  intros _ Hsum _ _ Halign Hrate. unfold Voices.writeWavHeader.
  rewrite (Number_round_safe (numChannels * 2)) by done.
  rewrite (Number_round_safe (36 + dataByteLength)) by done.
  rewrite (Number_round_safe (sampleRate * (numChannels * 2))) by done.
  eexists. split.
  { cbv -[Z.land Z.shiftr Z.add Z.mul]. reflexivity. }
  split; [reflexivity|]. split.
  { repeat (constructor; [apply low_byte_range|]). constructor. }
  split; [reflexivity|].
  split; [exact (little_endian_low_bytes 4 (36 + dataByteLength))|].
  split; [reflexivity|]. split; [reflexivity|]. split; [reflexivity|].
  split; [reflexivity|].
  split; [exact (little_endian_low_bytes 2 numChannels)|].
  split; [exact (little_endian_low_bytes 4 sampleRate)|].
  split; [exact (little_endian_low_bytes 4 (sampleRate * (numChannels * 2)))|].
  split; [exact (little_endian_low_bytes 2 (numChannels * 2))|].
  split; [reflexivity|]. split; [reflexivity|].
  exact (little_endian_low_bytes 4 dataByteLength).
Qed.

Lemma writeWavHeader_layout_witness :
  exists header,
    Voices.writeWavHeader 1000 22050 1 = Some header /\
    little_endian (bytes_at 4 4 header) = 1036 /\
    little_endian (bytes_at 28 4 header) = 44100 /\
    little_endian (bytes_at 40 4 header) = 1000.
Proof.
  destruct (writeWavHeader_layout 1000 22050 1)
    as (header & Hh & _ & _ & _ & H4 & _ & _ & _ & _ & _ & _ & H28 & _ & _
        & _ & H40); try (vm_compute; split; reflexivity).
  exists header. split; [exact Hh|]. rewrite H4, H28, H40.
  repeat split.
Defined.

(** ** The catalogue and the selection *)

Section Catalogue.

Lemma catalogue_ids_truthy v :
  In v AdhanVoices.ADHAN_VOICES -> truthy (Some (av_id v)) = true.
Proof.
  intros Hin. repeat (destruct Hin as [<-|Hin]; [reflexivity|]). destruct Hin.
Qed.

Lemma saveSelection_run voiceId type w :
  saveSelection voiceId type w =
  (Resolved tt,
   if fails w (SetItem (selection_key type)) then w
   else with_storage w
          (match type with
           | regular => AsyncStorage.set_selected_regular
           | fajr => AsyncStorage.set_selected_fajr
           end (Some voiceId) (storage w))).
Proof.
  unfold saveSelection. destruct type; exec; cbn [selection_key];
    by destruct (fails w (SetItem _)); exec.
Qed.

End Catalogue.

(** X16: the ids of the catalogue are pairwise distinct, so that
    [getAdhanVoiceById] returns every voice of the catalogue for its own
    id, and whatever it returns is the voice of the catalogue with the id
    asked for; the regular voices followed by the Fajr voices are all
    the voices; and the two voices [getDefaultVoices] asserts to exist do
    exist, are of the class they stand for and have the URLs
    [getAdhanUrlForPrayer] falls back to. *)
Theorem catalogue_lookups :
  (forall v, In v AdhanVoices.getAllAdhanVoices ->
             AdhanVoices.getAdhanVoiceById (av_id v) = Some v) /\
  (forall id v, AdhanVoices.getAdhanVoiceById id = Some v ->
                av_id v = id /\ In v AdhanVoices.getAllAdhanVoices) /\
  AdhanVoices.getRegularAdhanVoices ++ AdhanVoices.getFajrAdhanVoices =
    AdhanVoices.getAllAdhanVoices /\
  (forall v, In v AdhanVoices.getRegularAdhanVoices <->
             In v AdhanVoices.getAllAdhanVoices /\ av_type v = regular) /\
  (forall v, In v AdhanVoices.getFajrAdhanVoices <->
             In v AdhanVoices.getAllAdhanVoices /\ av_type v = fajr) /\
  (exists r f, AdhanVoices.getDefaultVoices = (Some r, Some f) /\
               av_type r = regular /\ av_type f = fajr /\
               av_previewUrl r = DEFAULT_REGULAR_URL /\
               av_previewUrl f = DEFAULT_FAJR_URL).
Proof.
  split; [exact catalogue_lookup_by_own_id|]. split.
  { intros id v H. apply find_some in H as [Hin Heq].
    by apply String.eqb_eq in Heq. }
  split; [reflexivity|].
  assert (forall t v, AdhanVoices.has_type t v = true <-> av_type v = t) as Ht.
  { intros t v. unfold AdhanVoices.has_type.
    destruct (av_type v), t; split; (done || discriminate). }
  split; [|split].
  - intros v. unfold AdhanVoices.getRegularAdhanVoices.
    by rewrite filter_In, Ht.
  - intros v. unfold AdhanVoices.getFajrAdhanVoices.
    by rewrite filter_In, Ht.
  - do 2 eexists. split; [reflexivity|]. repeat split.
Qed.

(** X17: [saveSelection] never rejects; when the write is rejected
    nothing changes; when it goes through, with a voice of the catalogue
    chosen for a class, [getAdhanUrlForPrayer] for a prayer of that class
    returns the local file of the voice when that file is found and its
    preview URL otherwise, and for a prayer of the other class returns
    what it did before. *)
Theorem saveSelection_then_resolve
    (w : World) (v : AdhanVoice) (type : AdhanType) (prayerName : string) :
  In v AdhanVoices.ADHAN_VOICES ->
  let r := AdhanVoiceSelector.saveSelection (av_id v) type w in
  result r = Resolved tt /\
  (fails w (SetItem (selection_key type)) = true -> after r = w) /\
  (fails w (SetItem (selection_key type)) = false ->
   (is_fajr prayerName = is_fajr_type type ->
    fails w (GetItem (selection_key type)) = false ->
    result (AdhanVoiceSelector.getAdhanUrlForPrayer prayerName (after r)) =
      Resolved (if local_found w v then local_file w v
                else av_previewUrl v)) /\
   (is_fajr prayerName = negb (is_fajr_type type) ->
    result (AdhanVoiceSelector.getAdhanUrlForPrayer prayerName (after r)) =
    result (AdhanVoiceSelector.getAdhanUrlForPrayer prayerName w))).
Proof.
  intros Hin. cbv zeta. rewrite saveSelection_run. proj.
  split; [done|]. split; [by intros ->|]. intros ->. proj.
  rewrite !getAdhanUrlForPrayer_run. proj.
  pose proof (catalogue_lookup_by_own_id v Hin) as Hfind.
  pose proof (catalogue_ids_truthy v Hin) as Htruthy.
  split.
  - intros -> Hget. f_equal. unfold resolved_url, selected_id.
    destruct type; cbn [is_fajr_type selection_key] in *; proj;
      cbn [AsyncStorage.set_selected_regular AsyncStorage.set_selected_fajr
           selected_regular selected_fajr];
      rewrite Hget; unfold or_else; rewrite Htruthy, Hfind; reflexivity.
  - intros ->. f_equal. unfold resolved_url, selected_id.
    destruct type; cbn [is_fajr_type negb]; proj;
      cbn [AsyncStorage.set_selected_regular AsyncStorage.set_selected_fajr
           selected_regular selected_fajr]; reflexivity.
Qed.

Lemma saveSelection_then_resolve_witness :
  let w := fresh_world 1000 never in
  result (AdhanVoiceSelector.getAdhanUrlForPrayer "Fajr"
            (after (AdhanVoiceSelector.saveSelection "mishary-fajr" fajr w))) =
  Resolved "https://www.islamcan.com/audio/adhan/azan9.mp3".
Proof.
  destruct (saveSelection_then_resolve (fresh_world 1000 never)
              (AdhanVoices.voice "mishary-fajr" "Mishary Fajr Adhan"
                 "Mishary Rashid Alafasy" fajr
                 "https://www.islamcan.com/audio/adhan/azan9.mp3" "4:30"
                 "Kuwait")
              fajr "Fajr") as (_ & _ & H).
  - do 8 right. by left.
  - destruct H as [H _]; [reflexivity|]. apply H; reflexivity.
Defined.

(** ** The prayer of the moment: [calculatePrayers] *)

Ltac compare_times :=
  repeat match goal with
         | |- context [?a <=? ?b] => destruct (Z.leb_spec a b); try lia
         | |- context [?a <? ?b] => destruct (Z.ltb_spec a b); try lia
         end.

Section LocalDay.
Variable tz : TimeZone.

Lemma Date_getHours_bounds d : 0 <= AppMain.Date_getHours tz d < 24.
Proof.
  unfold AppMain.Date_getHours, msPerDay.
  pose proof (Z.mod_pos_bound (LocalTime tz d) 86400000 ltac:(lia)) as H.
  split; [apply Z.div_pos; lia|].
  apply Z.div_lt_upper_bound; lia.
Qed.

Lemma Date_getMinutes_bounds d : 0 <= AppMain.Date_getMinutes tz d < 60.
Proof.
  unfold AppMain.Date_getMinutes.
  pose proof (Z.mod_pos_bound (LocalTime tz d) 3600000 ltac:(lia)) as H.
  split; [apply Z.div_pos; lia|].
  apply Z.div_lt_upper_bound; lia.
Qed.

Variable now : Date.
Hypothesis quiet : zone_quiet tz (now - MS_PER_DAY) (now + 2 * MS_PER_DAY).

Lemma quiet_offset t :
  now - MS_PER_DAY <= t <= now + 2 * MS_PER_DAY ->
  LocalTime tz t = t + offset_at tz (now - MS_PER_DAY) /\
  UTC tz (t + offset_at tz (now - MS_PER_DAY)) = t.
Proof.
  intros Ht. destruct (quiet t Ht) as [Hoff Hfirst].
  assert (LocalTime tz t = t + offset_at tz (now - MS_PER_DAY)) as Hl
    by (unfold LocalTime; by rewrite Hoff).
  split; [done|]. rewrite <- Hl. by apply UTC_LocalTime.
Qed.

(** In a quiet zone the day of [now] begins at the local midnight
    before [now]. *)
Lemma quiet_startOfDay :
  AppMain.Date_startOfDay tz now =
  (now + offset_at tz (now - MS_PER_DAY)) / MS_PER_DAY * MS_PER_DAY
  - offset_at tz (now - MS_PER_DAY).
Proof.
  unfold AppMain.Date_startOfDay, Day. change msPerDay with MS_PER_DAY.
  destruct (quiet_offset now ltac:(unfold MS_PER_DAY; lia)) as [-> _].
  set (o := offset_at tz (now - MS_PER_DAY)).
  set (m := (now + o) / MS_PER_DAY * MS_PER_DAY - o).
  replace ((now + o) / MS_PER_DAY * MS_PER_DAY) with (m + o) by (unfold m; lia).
  apply quiet_offset. unfold m, MS_PER_DAY. Z.div_mod_to_equations. lia.
Qed.

(** The Fajr of tomorrow that [calculatePrayers] makes in a quiet
    zone. *)
Lemma quiet_tomorrowFajr fajr :
  let h := AppMain.Date_getHours tz fajr in
  let m := AppMain.Date_getMinutes tz fajr in
  let tomorrow := AppMain.Date_startOfDay tz now + 24 * 60 * 60 * 1000 in
  let t := tomorrow + h * 3600000 + m * 60000 in
  AppMain.Date_setHours tz tomorrow h m = t /\
  now < t /\
  local_day tz t = local_day tz now + 1 /\
  AppMain.Date_getHours tz t = h /\
  AppMain.Date_getMinutes tz t = m /\
  LocalTime tz t mod 60000 = 0 /\
  (now - MS_PER_DAY <= fajr <= now ->
   local_day tz fajr = local_day tz now ->
   t = fajr + MS_PER_DAY - LocalTime tz fajr mod 60000).
Proof.
  cbv zeta. rewrite quiet_startOfDay.
  pose proof (Date_getHours_bounds fajr) as Hh.
  pose proof (Date_getMinutes_bounds fajr) as Hm.
  set (o := offset_at tz (now - MS_PER_DAY)) in *.
  set (today := (now + o) / MS_PER_DAY * MS_PER_DAY - o).
  assert (today <= now < today + MS_PER_DAY) as Htoday
    by (unfold today, MS_PER_DAY; Z.div_mod_to_equations; lia).
  assert (exists q, today + o = q * MS_PER_DAY /\ q = (now + o) / MS_PER_DAY)
    as (q & Hq & Hqnow) by (eexists; split; [|reflexivity]; unfold today; lia).
  destruct (quiet_offset now ltac:(unfold MS_PER_DAY; lia)) as [Hnow _].
  destruct (quiet_offset (today + 24 * 60 * 60 * 1000)
              ltac:(unfold MS_PER_DAY in *; lia)) as [Htomorrow _].
  destruct (quiet_offset
              (today + 24 * 60 * 60 * 1000
               + AppMain.Date_getHours tz fajr * 3600000
               + AppMain.Date_getMinutes tz fajr * 60000)
              ltac:(unfold MS_PER_DAY in *; lia)) as [Ht Hutc].
  fold o in Hnow, Htomorrow, Ht, Hutc.
  assert (AppMain.Date_setHours tz (today + 24 * 60 * 60 * 1000)
            (AppMain.Date_getHours tz fajr) (AppMain.Date_getMinutes tz fajr) =
          today + 24 * 60 * 60 * 1000
          + AppMain.Date_getHours tz fajr * 3600000
          + AppMain.Date_getMinutes tz fajr * 60000) as Hset.
  { unfold AppMain.Date_setHours, Day. rewrite Htomorrow.
    etransitivity; [|exact Hutc]. f_equal.
    replace (today + 24 * 60 * 60 * 1000 + o) with ((q + 1) * msPerDay)
      by (unfold msPerDay, MS_PER_DAY in *; lia).
    rewrite Z.div_mul by (unfold msPerDay; lia).
    unfold msPerDay, MS_PER_DAY in *. lia. }
  split; [exact Hset|]. split; [unfold MS_PER_DAY in *; lia|].
  clear Hutc Hset.
  remember (AppMain.Date_getHours tz fajr) as h eqn:Eh.
  remember (AppMain.Date_getMinutes tz fajr) as m eqn:Em.
  unfold local_day, Day, AppMain.Date_getHours, AppMain.Date_getMinutes.
  rewrite Ht, Hnow.
  replace (today + 24 * 60 * 60 * 1000 + h * 3600000 + m * 60000 + o)
    with ((q + 1) * 86400000 + h * 3600000 + m * 60000)
    by (unfold MS_PER_DAY in *; lia).
  unfold msPerDay, MS_PER_DAY in *.
  split; [Z.div_mod_to_equations; lia|].
  split; [Z.div_mod_to_equations; lia|].
  split; [Z.div_mod_to_equations; lia|].
  split; [Z.div_mod_to_equations; lia|].
  intros Hfajr Hday. revert Hday.
  unfold AppMain.Date_getHours, AppMain.Date_getMinutes, msPerDay in Eh, Em.
  destruct (quiet_offset fajr ltac:(unfold MS_PER_DAY in *; lia)) as [Hf _].
  unfold MS_PER_DAY in Hf. fold o in Hf. rewrite Hf in Eh, Em |- *.
  intros Hday. subst h m. clear Ht Htomorrow Hnow Hh Hm.
  Z.div_mod_to_equations. lia.
Qed.

End LocalDay.

(** New York is quiet between the two changes of 2026. *)
Lemma zone_new_york_quiet_in_summer a b :
  1772953200000 <= a -> b < 1793512800000 ->
  zone_quiet zone_new_york_2026 a b.
Proof.
  intros Ha Hb t Ht.
  unfold first_reading, LocalTime, offset_at, zone_new_york_2026.
  cbn [offset_from tz_initial tz_transitions]. split.
  - compare_times.
  - intros t'. compare_times.
Qed.

(** X18: whatever the six instants and whatever the time zone, a
    current prayer that [calculatePrayers] gives is a prayer of the
    array that has begun, and a next prayer comes with it; when the
    current prayer is not the last of the array, Isha, its end lies
    ahead and is the beginning of the next prayer, which is a prayer of
    the array; and without a current prayer the next one is Fajr, when
    it lies ahead, and is missing otherwise. *)
Theorem calculatePrayers_windows
    (tz : TimeZone) (now : Date) (prayerTimes : PrayerTimesMap) :
  let r := AppMain.calculatePrayers tz now prayerTimes in
  (forall c, fst r = Some c ->
     In (begun c) (AppMain.prayersOf prayerTimes) /\
     AppMain.cp_time c <= now /\
     exists n, snd r = Some n /\
       (AppMain.cp_name c <> "Isha" ->
        now < AppMain.cp_endTime c /\
        AppMain.np_time n = AppMain.cp_endTime c /\
        In n (AppMain.prayersOf prayerTimes))) /\
  (fst r = None ->
   snd r = if now <? pt_fajr prayerTimes
           then Some {| AppMain.np_name := "Fajr";
                        AppMain.np_time := pt_fajr prayerTimes |}
           else None).
Proof.
  cbv zeta. unfold AppMain.calculatePrayers.
  generalize (AppMain.Date_setHours tz
                (AppMain.Date_startOfDay tz now + 24 * 60 * 60 * 1000)
                (AppMain.Date_getHours tz (pt_fajr prayerTimes))
                (AppMain.Date_getMinutes tz (pt_fajr prayerTimes))).
  generalize (AppMain.Date_startOfDay tz now + 24 * 60 * 60 * 1000
              + AppMain.Date_getHours tz (pt_fajr prayerTimes) * 3600000
              + AppMain.Date_getMinutes tz (pt_fajr prayerTimes) * 60000).
  intros lastEnd tomorrowFajr.
  destruct prayerTimes as [f s d a g i].
  cbn [AppMain.prayersOf AppMain.findCurrent pt_fajr pt_sunrise pt_dhuhr
       pt_asr pt_maghrib pt_isha AppMain.np_time AppMain.np_name].
  compare_times; cbn [andb fst snd];
    (split; [|done || discriminate]);
    try discriminate;
    intros c [= <-]; cbn; (split; [tauto|]); (split; [lia|]);
    eexists; (split; [reflexivity|]); intros Hname; try done;
    cbn; (split; [lia|]); (split; [done|]); tauto.
Qed.

(** X19: when the six instants follow one another, [calculatePrayers]
    always gives a next prayer; there is no current prayer exactly when
    Fajr has not begun; and the current prayer is the latest prayer of
    the array that has begun. *)
Theorem calculatePrayers_in_order
    (tz : TimeZone) (now : Date) (prayerTimes : PrayerTimesMap) :
  in_order prayerTimes ->
  let r := AppMain.calculatePrayers tz now prayerTimes in
  (exists n, snd r = Some n) /\
  (fst r = None <-> now < pt_fajr prayerTimes) /\
  (forall c p, fst r = Some c ->
     In p (AppMain.prayersOf prayerTimes) -> AppMain.np_time p <= now ->
     AppMain.np_time p <= AppMain.cp_time c).
Proof.
  intros (H1 & H2 & H3 & H4 & H5). cbv zeta.
  unfold AppMain.calculatePrayers.
  generalize (AppMain.Date_setHours tz
                (AppMain.Date_startOfDay tz now + 24 * 60 * 60 * 1000)
                (AppMain.Date_getHours tz (pt_fajr prayerTimes))
                (AppMain.Date_getMinutes tz (pt_fajr prayerTimes))).
  generalize (AppMain.Date_startOfDay tz now + 24 * 60 * 60 * 1000
              + AppMain.Date_getHours tz (pt_fajr prayerTimes) * 3600000
              + AppMain.Date_getMinutes tz (pt_fajr prayerTimes) * 60000).
  intros lastEnd tomorrowFajr.
  destruct prayerTimes as [f s d a g i].
  cbn [AppMain.prayersOf AppMain.findCurrent pt_fajr pt_sunrise pt_dhuhr
       pt_asr pt_maghrib pt_isha AppMain.np_time AppMain.np_name] in *.
  compare_times; cbn [andb fst snd];
    (split; [by eexists|]); (split; [split; (done || lia)|]);
    try discriminate;
    intros c p [= <-] Hp Hle; cbn in *;
    repeat (destruct Hp as [<-|Hp]; [cbn in *; lia|]); destruct Hp.
Qed.

Lemma calculatePrayers_in_order_witness :
  fst (AppMain.calculatePrayers (fixed_zone 10800000) 8700000000
         times_of_day_100) <> None.
Proof.
  intros H.
  apply (calculatePrayers_in_order (fixed_zone 10800000) 8700000000
           times_of_day_100) in H.
  - revert H. apply Z.le_ngt. vm_compute. discriminate.
  - vm_compute. repeat split; discriminate.
Defined.

(** On the day the clocks are set back the local day lasts twenty-five
    hours: in New York at 20:00 on 1 November 2026, after Isha, the
    midnight of today plus twenty-four hours is 23:00 of today, so that
    the next prayer [calculatePrayers] gives is the Fajr of today,
    which is past, and not the instant at which the current prayer
    ends. *)
Lemma calculatePrayers_on_the_day_the_clocks_go_back :
  AppMain.calculatePrayers zone_new_york_2026 1793581200000
    times_of_1_november =
  (Some {| AppMain.cp_name := "Isha"; AppMain.cp_time := 1793574600000;
           AppMain.cp_endTime := 1793611800000 |},
   Some {| AppMain.np_name := "Fajr"; AppMain.np_time := 1793529000000 |}).
Proof. vm_compute. reflexivity. Qed.

(** X20: when the six instants follow one another, Isha has begun, and
    the offset of the zone does not change from a day before the
    clock's reading, a local reading from 1970 on, until two days after
    it, the current prayer is Isha
    and the next one is Fajr of tomorrow, at which the current one ends
    and which lies ahead: an instant of the local day after that of the
    clock, at the hour and minute of today's Fajr and no seconds; when
    today's Fajr is of the day of the clock, that is one day after it,
    less its seconds. *)
Theorem calculatePrayers_after_isha
    (tz : TimeZone) (now : Date) (prayerTimes : PrayerTimesMap) :
  in_order prayerTimes ->
  pt_isha prayerTimes <= now ->
  0 <= LocalTime tz now ->
  zone_quiet tz (now - MS_PER_DAY) (now + 2 * MS_PER_DAY) ->
  exists c n,
    AppMain.calculatePrayers tz now prayerTimes = (Some c, Some n) /\
    begun c = {| AppMain.np_name := "Isha";
                 AppMain.np_time := pt_isha prayerTimes |} /\
    AppMain.np_name n = "Fajr" /\
    AppMain.cp_endTime c = AppMain.np_time n /\
    now < AppMain.np_time n /\
    local_day tz (AppMain.np_time n) = local_day tz now + 1 /\
    AppMain.Date_getHours tz (AppMain.np_time n) =
      AppMain.Date_getHours tz (pt_fajr prayerTimes) /\
    AppMain.Date_getMinutes tz (AppMain.np_time n) =
      AppMain.Date_getMinutes tz (pt_fajr prayerTimes) /\
    LocalTime tz (AppMain.np_time n) mod 60000 = 0 /\
    (now - MS_PER_DAY <= pt_fajr prayerTimes ->
     local_day tz (pt_fajr prayerTimes) = local_day tz now ->
     AppMain.np_time n =
       pt_fajr prayerTimes + MS_PER_DAY
       - LocalTime tz (pt_fajr prayerTimes) mod 60000).
Proof.
  intros (H1 & H2 & H3 & H4 & H5) Hisha _ Hquiet.
  pose proof (quiet_tomorrowFajr tz now Hquiet (pt_fajr prayerTimes)) as Hw.
  cbv zeta in Hw. destruct Hw as (Hset & Hw). revert Hw.
  unfold AppMain.calculatePrayers. rewrite Hset.
  generalize (AppMain.Date_startOfDay tz now + 24 * 60 * 60 * 1000
              + AppMain.Date_getHours tz (pt_fajr prayerTimes) * 3600000
              + AppMain.Date_getMinutes tz (pt_fajr prayerTimes) * 60000).
  intros t Ht.
  destruct prayerTimes as [f s d a g i].
  cbn [AppMain.prayersOf AppMain.findCurrent pt_fajr pt_sunrise pt_dhuhr
       pt_asr pt_maghrib pt_isha AppMain.np_time AppMain.np_name] in *.
  compare_times; cbn [andb]. do 2 eexists. split; [reflexivity|].
  cbn. destruct Ht as (? & ? & ? & ? & ? & Hfajr).
  repeat (split; [done|]). intros. apply Hfajr; [lia|done].
Qed.

Lemma calculatePrayers_after_isha_witness :
  exists c n,
    AppMain.calculatePrayers zone_new_york_2026 1783220400000
      times_of_4_july = (Some c, Some n) /\
    AppMain.np_time n = 1783237800000.
Proof.
  destruct (calculatePrayers_after_isha zone_new_york_2026 1783220400000
              times_of_4_july)
    as (c & n & Hr & _ & _ & _ & _ & _ & _ & _ & _ & Ht).
  - vm_compute. repeat split; discriminate.
  - vm_compute. discriminate.
  - vm_compute. discriminate.
  - apply zone_new_york_quiet_in_summer; vm_compute; (discriminate || done).
  - exists c, n. split; [exact Hr|]. rewrite Ht; (reflexivity || idtac).
    vm_compute. discriminate.
Defined.

(** ** Countdowns: [updateCountdowns] *)

Section Countdown.

Lemma forallb_range (f : Z -> bool) (a n : Z) :
  0 <= a ->
  forallb f (map Z.of_nat (seq (Z.to_nat a) (Z.to_nat n))) = true ->
  forall z, a <= z < a + n -> f z = true.
Proof.
  intros Ha H z Hz. rewrite forallb_forall in H. apply H.
  apply in_map_iff. exists (Z.to_nat z). split; [lia|].
  apply in_seq. lia.
Qed.

Lemma padStart2_two_digits n :
  0 <= n < 100 ->
  AppMain.padStart2 (AppMain.Number_toString n) = two_digits n.
Proof.
  intros Hn. apply String.eqb_eq.
  apply (forallb_range
           (fun n => String.eqb (AppMain.padStart2 (AppMain.Number_toString n))
                       (two_digits n)) 0 100); [lia| |lia].
  vm_compute. reflexivity.
Qed.

Lemma countdownParts_bounds ms :
  0 <= ms ->
  let '(h, m, s) := AppMain.countdownParts ms in
  0 <= h /\ 0 <= m < 60 /\ 0 <= s < 60 /\
  3600 * h + 60 * m + s = ms / 1000.
Proof.
  intros Hms. unfold AppMain.countdownParts.
  repeat split; Z.div_mod_to_equations; lia.
Qed.

(** The end of the current prayer is the beginning of the next, when
    the current prayer is not the last of the array or the zone is
    quiet. *)
Lemma calculatePrayers_end_is_next tz now prayerTimes c n :
  AppMain.calculatePrayers tz now prayerTimes = (Some c, Some n) ->
  AppMain.cp_name c <> "Isha" \/
  zone_quiet tz (now - MS_PER_DAY) (now + 2 * MS_PER_DAY) ->
  AppMain.cp_endTime c = AppMain.np_time n.
Proof.
  intros Hcalc Hcase.
  assert (zone_quiet tz (now - MS_PER_DAY) (now + 2 * MS_PER_DAY) ->
          AppMain.Date_setHours tz
            (AppMain.Date_startOfDay tz now + 24 * 60 * 60 * 1000)
            (AppMain.Date_getHours tz (pt_fajr prayerTimes))
            (AppMain.Date_getMinutes tz (pt_fajr prayerTimes)) =
          AppMain.Date_startOfDay tz now + 24 * 60 * 60 * 1000
          + AppMain.Date_getHours tz (pt_fajr prayerTimes) * 3600000
          + AppMain.Date_getMinutes tz (pt_fajr prayerTimes) * 60000) as Hset.
  { intros Hquiet.
    apply (quiet_tomorrowFajr tz now Hquiet (pt_fajr prayerTimes)). }
  revert Hcalc Hcase Hset. unfold AppMain.calculatePrayers.
  generalize (AppMain.Date_setHours tz
                (AppMain.Date_startOfDay tz now + 24 * 60 * 60 * 1000)
                (AppMain.Date_getHours tz (pt_fajr prayerTimes))
                (AppMain.Date_getMinutes tz (pt_fajr prayerTimes))).
  generalize (AppMain.Date_startOfDay tz now + 24 * 60 * 60 * 1000
              + AppMain.Date_getHours tz (pt_fajr prayerTimes) * 3600000
              + AppMain.Date_getMinutes tz (pt_fajr prayerTimes) * 60000).
  intros lastEnd tomorrowFajr.
  destruct prayerTimes as [f s d a g i].
  cbn [AppMain.prayersOf AppMain.findCurrent pt_fajr pt_sunrise pt_dhuhr
       pt_asr pt_maghrib pt_isha AppMain.np_time AppMain.np_name].
  repeat match goal with
         | |- context [?a <=? ?b] => destruct (a <=? b)
         | |- context [?a <? ?b] => destruct (a <? b)
         end; cbn [andb]; intros [= <- <-] Hcase Hset; cbn in *;
    try reflexivity;
    (destruct Hcase as [Hname|Hquiet]; [done|by rewrite Hset]).
Qed.

End Countdown.

(** X21: for a remaining time of less than a hundred hours,
    [updateCountdowns] shows hours, minutes and seconds in two digits
    each, separated by colons: the minutes and the seconds are below 60
    and the three together are the remaining time in whole seconds. *)
Theorem formatCountdown_shows_whole_seconds (ms : Z) :
  0 <= ms < 360000000 ->
  exists h m s,
    AppMain.countdownParts ms = (h, m, s) /\
    0 <= h < 100 /\ 0 <= m < 60 /\ 0 <= s < 60 /\
    3600 * h + 60 * m + s = ms / 1000 /\
    AppMain.formatCountdown ms =
      two_digits h +:+ ":" +:+ two_digits m +:+ ":" +:+ two_digits s.
Proof.
  intros Hms. pose proof (countdownParts_bounds ms ltac:(lia)) as Hparts.
  unfold AppMain.formatCountdown.
  destruct (AppMain.countdownParts ms) as [[h m] s] eqn:E.
  destruct Hparts as (Hh & Hm & Hs & Hsum).
  assert (h < 100) as Hh'.
  { injection E as <- _ _. apply Z.div_lt_upper_bound; lia. }
  exists h, m, s. split; [done|]. split; [lia|]. split; [done|].
  split; [done|]. split; [done|].
  by rewrite !padStart2_two_digits by lia.
Qed.

Lemma formatCountdown_shows_whole_seconds_witness :
  AppMain.formatCountdown 3723999 = "01:02:03".
Proof.
  destruct (formatCountdown_shows_whole_seconds 3723999)
    as (h & m & s & Hparts & _ & _ & _ & _ & Hfmt); [lia|].
  rewrite Hfmt. injection Hparts as <- <- <-. reflexivity.
Defined.

(** X22: with the current and the next prayer [calculatePrayers] gave,
    when the current prayer is not Isha, or the offset of the zone does
    not change from a day before the reading of the clock at which they
    were calculated, a local reading from 1970 on, until two days after
    it, [updateCountdowns] shows
    the same countdown for both as long as the next prayer lies ahead,
    since the current one ends when the next one begins; once that
    instant is reached it shows [Now] for the next prayer and leaves
    the countdown of the current one as it was. *)
Theorem updateCountdowns_of_calculatePrayers
    (tz : TimeZone) (t0 now : Date) (prayerTimes : PrayerTimesMap)
    (c : AppMain.CurrentPrayer) (n : AppMain.NextPrayer)
    (countdowns : string * string) :
  AppMain.calculatePrayers tz t0 prayerTimes = (Some c, Some n) ->
  AppMain.cp_name c <> "Isha" \/
  (0 <= LocalTime tz t0 /\
   zone_quiet tz (t0 - MS_PER_DAY) (t0 + 2 * MS_PER_DAY)) ->
  let shown := AppMain.updateCountdowns now (Some c) (Some n) countdowns in
  (now < AppMain.np_time n ->
   shown = (AppMain.formatCountdown (AppMain.np_time n - now),
            AppMain.formatCountdown (AppMain.np_time n - now))) /\
  (AppMain.np_time n <= now -> shown = (fst countdowns, "Now")).
Proof.
  intros Hcalc Hcase. apply calculatePrayers_end_is_next in Hcalc; [|tauto].
  cbv zeta. unfold AppMain.updateCountdowns. rewrite Hcalc.
  split; intros Hnow.
  - by rewrite (proj2 (Z.ltb_lt 0 _)) by lia.
  - by rewrite (proj2 (Z.ltb_ge 0 _)) by lia.
Qed.

Lemma updateCountdowns_of_calculatePrayers_witness :
  AppMain.updateCountdowns 1783237800000
    (fst (AppMain.calculatePrayers zone_new_york_2026 1783220400000
            times_of_4_july))
    (snd (AppMain.calculatePrayers zone_new_york_2026 1783220400000
            times_of_4_july))
    ("00:00:05", "00:00:05") = ("00:00:05", "Now").
Proof.
  destruct (AppMain.calculatePrayers zone_new_york_2026 1783220400000
              times_of_4_july)
    as [[c|] [n|]] eqn:E; try (vm_compute in E; discriminate E).
  apply (updateCountdowns_of_calculatePrayers zone_new_york_2026
           1783220400000 1783237800000 times_of_4_july c n
           ("00:00:05", "00:00:05") E).
  - right. split; [vm_compute; discriminate|].
    apply zone_new_york_quiet_in_summer; vm_compute; (discriminate || done).
  - vm_compute in E. injection E as <- <-. vm_compute. discriminate.
Defined.

(** ** The Hijri date: [toHijri] *)

Section Hijri.

(** The day of the cycle [toHijri] derives from a Julian day number. *)
Lemma hijriOfJulianDay_cycle jd :
  let l := jd - 1948440 + 10632 in
  let n := (l - 1) / 10631 in
  let l2 := l - 10631 * n + 354 in
  355 <= l2 <= 10985 /\
  AppMain.hijriOfJulianDay jd =
    (let '(d, m, j) := hijriInCycle l2 in (d, m, 30 * n + j - 30)).
Proof.
  cbv zeta. split; [|reflexivity].
  Z.div_mod_to_equations; lia.
Qed.

Lemma hijriInCycle_in_calendar l2 :
  355 <= l2 <= 10985 -> in_calendar (hijriInCycle l2) = true.
Proof.
  intros H.
  apply (forallb_range (fun l2 => in_calendar (hijriInCycle l2)) 355 10631);
    [lia| |lia].
  vm_compute. reflexivity.
Qed.

Lemma hijriInCycle_day_after l2 :
  355 <= l2 < 10985 ->
  day_after (hijriInCycle l2) (hijriInCycle (l2 + 1)) = true.
Proof.
  intros H.
  apply (forallb_range
           (fun l2 => day_after (hijriInCycle l2) (hijriInCycle (l2 + 1)))
           355 10630); [lia| |lia].
  vm_compute. reflexivity.
Qed.

Lemma hijriMonthName_listed m :
  1 <= m <= 12 -> In (AppMain.hijriMonthName m) AppMain.hijriMonths.
Proof.
  intros H. assert (m = 1 \/ m = 2 \/ m = 3 \/ m = 4 \/ m = 5 \/ m = 6 \/
                    m = 7 \/ m = 8 \/ m = 9 \/ m = 10 \/ m = 11 \/ m = 12)
    as Hm by lia.
  repeat (destruct Hm as [->|Hm]; [cbn; tauto|]). subst. cbn. tauto.
Qed.

Lemma julian_day_of_next_day offset date :
  (date + 86400000 - - offset) / 86400000 + 2440588 =
  ((date - - offset) / 86400000 + 2440588) + 1.
Proof.
  replace (date + 86400000 - - offset)
    with (date - - offset + 1 * 86400000) by lia.
  rewrite Z.div_add by lia. lia.
Qed.

End Hijri.

(** X23: for every instant and every zone, [toHijri] gives a day from 1
    to 30 and one of the twelve months of [hijriMonths], never
    [Unknown]. *)
Theorem toHijri_in_calendar (offset : Z) (date : Date) :
  1 <= AppMain.hijri_day (AppMain.toHijri offset date) <= 30 /\
  In (AppMain.hijri_month (AppMain.toHijri offset date)) AppMain.hijriMonths /\
  AppMain.hijri_month (AppMain.toHijri offset date) <> "Unknown".
Proof.
  unfold AppMain.toHijri.
  destruct (hijriOfJulianDay_cycle ((date - - offset) / 86400000 + 2440588))
    as [Hl2 ->].
  pose proof (hijriInCycle_in_calendar _ Hl2) as Hcal.
  destruct (hijriInCycle _) as [[d m] j]. cbn in Hcal |- *.
  assert (1 <= d <= 30 /\ 1 <= m <= 12) as [Hd Hm] by lia.
  pose proof (hijriMonthName_listed m Hm) as Hin.
  split; [done|]. split; [done|].
  intros Heq. rewrite Heq in Hin. cbn in Hin.
  repeat (destruct Hin as [Hin|Hin]; [discriminate Hin|]). destruct Hin.
Qed.

(** X24: the Hijri date [toHijri] gives for the instant one day later is
    the day after: the next day of the same month and year, or, after a
    29th or 30th, the first day of the next month, which for the twelfth
    month is the first month of the next year. *)
Theorem toHijri_next_day (offset : Z) (date : Date) :
  let a := AppMain.toHijri offset date in
  let b := AppMain.toHijri offset (date + 86400000) in
  exists m,
    1 <= m <= 12 /\ AppMain.hijri_month a = AppMain.hijriMonthName m /\
    ((AppMain.hijri_day b = AppMain.hijri_day a + 1 /\
      AppMain.hijri_month b = AppMain.hijri_month a /\
      AppMain.hijri_year b = AppMain.hijri_year a) \/
     (29 <= AppMain.hijri_day a /\ AppMain.hijri_day b = 1 /\
      ((m < 12 /\ AppMain.hijri_month b = AppMain.hijriMonthName (m + 1) /\
        AppMain.hijri_year b = AppMain.hijri_year a) \/
       (m = 12 /\ AppMain.hijri_month b = AppMain.hijriMonthName 1 /\
        AppMain.hijri_year b = AppMain.hijri_year a + 1)))).
Proof.
  cbv zeta. unfold AppMain.toHijri. rewrite julian_day_of_next_day.
  set (jd := (date - - offset) / 86400000 + 2440588).
  destruct (hijriOfJulianDay_cycle jd) as [Hl2 ->].
  destruct (hijriOfJulianDay_cycle (jd + 1)) as [Hl2' ->].
  set (l := jd - 1948440 + 10632) in *.
  replace (jd + 1 - 1948440 + 10632) with (l + 1) in * by (unfold l; lia).
  set (n := (l - 1) / 10631) in *.
  set (l2 := l - 10631 * n + 354) in *.
  pose proof (hijriInCycle_in_calendar l2 Hl2) as Hcal.
  destruct (Z.eq_dec l2 10985) as [Hlast|Hnotlast].
  - (* the last day of a cycle *)
    assert ((l + 1 - 1) / 10631 = n + 1) as ->.
    { unfold l2 in Hlast. unfold n in *. Z.div_mod_to_equations. lia. }
    replace (l + 1 - 10631 * (n + 1) + 354) with 355 by (unfold l2 in Hlast; lia).
    rewrite Hlast.
    replace (hijriInCycle 10985) with (29, 12, 30) by (by vm_compute).
    replace (hijriInCycle 355) with (1, 1, 1) by (by vm_compute).
    exists 12. cbn [AppMain.hijri_day AppMain.hijri_month AppMain.hijri_year].
    split; [lia|]. split; [done|].
    right. split; [lia|]. split; [done|]. right. repeat split. lia.
  - assert ((l + 1 - 1) / 10631 = n) as ->.
    { unfold l2 in Hl2, Hnotlast. unfold n in *. Z.div_mod_to_equations. lia. }
    replace (l + 1 - 10631 * n + 354) with (l2 + 1) by (unfold l2; lia).
    pose proof (hijriInCycle_day_after l2 ltac:(lia)) as Hnext.
    pose proof (hijriInCycle_in_calendar (l2 + 1) ltac:(lia)) as Hcal'.
    destruct (hijriInCycle l2) as [[d m] j].
    destruct (hijriInCycle (l2 + 1)) as [[d' m'] j'].
    cbn in Hcal, Hcal', Hnext |- *. exists m. split; [lia|]. split; [done|].
    assert ((d' = d + 1 /\ m' = m /\ j' = j) \/
            (d' = 1 /\ 29 <= d /\ m' = m + 1 /\ j' = j) \/
            (d' = 1 /\ 29 <= d /\ m = 12 /\ m' = 1 /\ j' = j + 1))
      as [(-> & -> & ->)|[(-> & Hd & -> & ->)|(-> & Hd & -> & -> & ->)]]
      by lia.
    + by left.
    + right. split; [done|]. split; [done|].
      left. split; [lia|done].
    + right. split; [done|]. split; [done|]. right. repeat split. lia.
Qed.

(** ** Playback when a call rejects *)

Section KeepsLoaded.

Create HintDb keeps discriminated.

Lemma keeps_ret {A} (a : A) : keeps_loaded (ret a).
Proof. intros w. exists []. by rewrite app_nil_r. Qed.

Lemma keeps_throw {A} e : keeps_loaded (@throw A e).
Proof. intros w. exists []. by rewrite app_nil_r. Qed.

Lemma keeps_get : keeps_loaded get.
Proof. intros w. exists []. by rewrite app_nil_r. Qed.

Lemma keeps_call op : keeps_loaded (call op).
Proof.
  intros w. exists []. rewrite call_run, app_nil_r. by destruct (fails w op).
Qed.

Lemma keeps_console_warn msg : keeps_loaded (console_warn msg).
Proof. intros w. exists []. by rewrite app_nil_r. Qed.

Lemma keeps_set_soundRef r : keeps_loaded (set_soundRef r).
Proof. intros w. exists []. by rewrite app_nil_r. Qed.

Lemma keeps_bind {A B} (m : Promise A) (k : A -> Promise B) :
  keeps_loaded m -> (forall a, keeps_loaded (k a)) -> keeps_loaded (bind m k).
Proof.
  intros Hm Hk w. rewrite bind_run. destruct (Hm w) as [l Hl].
  destruct (m w) as [[a|e] w']; proj.
  - destruct (Hk a w') as [l' Hl']. exists (l ++ l').
    by rewrite Hl', Hl, app_assoc.
  - by exists l.
Qed.

Lemma keeps_try {A} (m : Promise A) (h : Error -> Promise A) :
  keeps_loaded m -> (forall e, keeps_loaded (h e)) ->
  keeps_loaded (try_catch m h).
Proof.
  intros Hm Hh w. rewrite try_run. destruct (Hm w) as [l Hl].
  destruct (m w) as [[a|e] w']; proj.
  - by exists l.
  - destruct (Hh e w') as [l' Hl']. exists (l ++ l').
    by rewrite Hl', Hl, app_assoc.
Qed.

Lemma keeps_createAsync src : keeps_loaded (Audio.createAsync src).
Proof.
  intros w. rewrite createAsync_run. destruct (fails w _); proj.
  - exists []. by rewrite app_nil_r.
  - by eexists.
Qed.

Lemma keeps_replayAsync h : keeps_loaded (Audio.replayAsync h).
Proof.
  intros w. rewrite replayAsync_run. exists []. rewrite app_nil_r.
  by destruct (fails w _).
Qed.

Lemma keeps_getInfoAsync path : keeps_loaded (FileSystem.getInfoAsync path).
Proof.
  intros w. rewrite getInfoAsync_run. exists []. rewrite app_nil_r.
  by destruct (fails w _).
Qed.

Lemma keeps_readDirectoryAsync dir :
  keeps_loaded (FileSystem.readDirectoryAsync dir).
Proof.
  intros w. unfold FileSystem.readDirectoryAsync. exec. exists [].
  rewrite app_nil_r. destruct (fails w _); [done|]. exec.
  by destruct (FileSystem.exists_ dir w).
Qed.

Hint Resolve keeps_ret keeps_throw keeps_get keeps_call keeps_console_warn
  keeps_set_soundRef keeps_createAsync keeps_replayAsync keeps_getInfoAsync
  keeps_readDirectoryAsync : keeps.

Ltac keeps :=
  repeat (first
    [ solve [auto with keeps]
    | match goal with
      | |- keeps_loaded (if ?b then _ else _) => destruct b
      | |- keeps_loaded (match ?o with Some _ => _ | None => _ end) =>
          destruct o
      end
    | apply keeps_bind; [|intros ?]
    | apply keeps_try; [|intros ?] ]).

Lemma keeps_createAndReplay src : keeps_loaded (AppBasic.createAndReplay src).
Proof. unfold AppBasic.createAndReplay. keeps. Qed.

Hint Resolve keeps_createAndReplay : keeps.

Lemma keeps_playProvided vp : keeps_loaded (AppBasic.playProvided vp).
Proof. unfold AppBasic.playProvided. keeps. Qed.

Lemma keeps_playDownloaded : keeps_loaded AppBasic.playDownloaded.
Proof. unfold AppBasic.playDownloaded. keeps. Qed.

Lemma keeps_playSynthetic : keeps_loaded AppBasic.playSynthetic.
Proof. unfold AppBasic.playSynthetic. keeps. Qed.

Hint Resolve keeps_playProvided keeps_playDownloaded keeps_playSynthetic
  : keeps.

(** The first shell's [playAdhan]: it returns normally, and after its
    opening nothing is unloaded. *)
Lemma playAdhan_basic_loaded vp w :
  result (AppBasic.playAdhan vp w) = Resolved tt /\
  exists l, loaded (after (AppBasic.playAdhan vp w)) =
            loaded (after_unloadPrevious w) ++ l.
Proof.
  unfold AppBasic.playAdhan. rewrite try_run, bind_run, unloadPrevious_run.
  cbv beta iota.
  match goal with
  | |- context [match ?m (after_unloadPrevious w) with _ => _ end] =>
      assert (keeps_loaded m) as Hm by keeps;
      destruct (Hm (after_unloadPrevious w)) as [l Hl];
      destruct (m (after_unloadPrevious w)) as [[[]|e] w']
  end; proj; run; (split; [done|]); by exists l.
Qed.

Lemma unload_keeps_others h current l :
  In h l -> h <> current -> In h (Audio.unload current l).
Proof.
  intros Hin Hne. apply filter_In. split; [done|].
  by apply negb_true_iff, Nat.eqb_neq.
Qed.

Lemma after_unloadPrevious_keeps_others h w :
  In h (loaded w) -> soundRef w <> Some h ->
  In h (loaded (after_unloadPrevious w)).
Proof.
  intros Hin Href. unfold after_unloadPrevious.
  destruct (soundRef w) as [current|]; [|done].
  destruct (fails w (UnloadSound current)); proj; [done|].
  apply unload_keeps_others; [done|]. by intros ->.
Qed.

End KeepsLoaded.

(** X25: [playAdhan] of either shell never rejects, whichever calls do,
    and never unloads a sound other than the one [soundRef] holds: a
    sound that is loaded and not referenced is still loaded when
    [playAdhan] returns. *)
Theorem playAdhan_unloads_only_the_referenced_sound
    (w : World) (voicePath prayerName : option string) (h : SoundHandle) :
  In h (loaded w) ->
  soundRef w <> Some h ->
  let basic := AppBasic.playAdhan voicePath w in
  let main := AppMain.playAdhan voicePath prayerName w in
  result basic = Resolved tt /\ In h (loaded (after basic)) /\
  result main = Resolved tt /\ In h (loaded (after main)).
Proof.
  intros Hin Href. cbv zeta.
  pose proof (after_unloadPrevious_keeps_others h w Hin Href) as Hkept.
  destruct (playAdhan_basic_loaded voicePath w) as [Hres [l Hl]].
  split; [done|]. split; [rewrite Hl; apply in_or_app; by left|].
  rewrite playAdhan_run. proj. split; [done|].
  unfold after_playAdhan. destruct (silentMode w); [done|].
  destruct (after_play_frame (Uri (adhanUrl voicePath prayerName
                                      (after_unloadPrevious w)))
              (after_unloadPrevious w)) as (_ & _ & _ & Hloaded & _).
  rewrite Hloaded. unfold events_of_play.
  destruct (fails _ (CreateSound _)); [done|].
  destruct (fails _ (SetVolume _)); [|destruct (fails _ (PlaySound _))];
    cbn; apply in_or_app; by left.
Qed.

Lemma playAdhan_unloads_only_the_referenced_sound_witness :
  let w := with_soundRef
             (with_player (fresh_world 1000 never) [0; 1]%nat 2%nat [])
             (Some 1%nat) in
  In 0%nat (loaded (after (AppMain.playAdhan None None w))).
Proof.
  apply (playAdhan_unloads_only_the_referenced_sound
           (with_soundRef
              (with_player (fresh_world 1000 never) [0; 1]%nat 2%nat [])
              (Some 1%nat))
           None None 0%nat).
  - by left.
  - discriminate.
Defined.

(** X26: in the first shell, when the sound of the path a notification
    carries cannot be created, [playAdhan] warns and plays the bundled
    asset: that sound is created, referenced and started, after the
    previous one was unloaded. *)
Theorem playAdhan_basic_falls_back_to_the_bundled_asset
    (w : World) (path : string) :
  path <> EmptyString ->
  fails w (CreateSound (Uri path)) = true ->
  fails w (CreateSound BundledAsset) = false ->
  fails w (ReplaySound (next_sound w)) = false ->
  let r := AppBasic.playAdhan (Some path) w in
  result r = Resolved tt /\
  audio_trace (after r) =
    audio_trace w ++ events_of_unload w ++
    [Created (next_sound w) BundledAsset; Played (next_sound w)] /\
  soundRef (after r) = Some (next_sound w) /\
  console (after r) =
    console w ++ ["Failed to play voice from provided path, falling back"].
Proof.
  intros Hpath Huri Hbundled Hreplay. cbv zeta.
  destruct (after_unloadPrevious_frame w) as (Hf & _ & Hn & _ & Ht & _).
  unfold AppBasic.playAdhan, AppBasic.playProvided.
  rewrite truthy_nonempty by done.
  rewrite try_run, bind_run, unloadPrevious_run. cbv beta iota.
  rewrite bind_run, try_run, bind_run, createAndReplay_run, Hf, Huri.
  cbv beta iota. exec. rewrite createAndReplay_run. proj.
  rewrite Hf, Hn, Hbundled, Hreplay. unfold after_start, after_create. proj.
  rewrite Ht, Hn, <- !app_assoc. repeat split.
  unfold after_unloadPrevious.
  destruct (soundRef w) as [current|]; [|done].
  by destruct (fails w (UnloadSound current)).
Qed.

Lemma playAdhan_basic_falls_back_to_the_bundled_asset_witness :
  let w := fresh_world 1000
             (rejects_create_of (Uri "file:///data/voices/voice-deep.wav")) in
  audio_trace
    (after (AppBasic.playAdhan (Some "file:///data/voices/voice-deep.wav") w)) =
  [Created 0%nat BundledAsset; Played 0%nat].
Proof.
  apply (playAdhan_basic_falls_back_to_the_bundled_asset
           (fresh_world 1000
              (rejects_create_of (Uri "file:///data/voices/voice-deep.wav")))
           "file:///data/voices/voice-deep.wav"); (discriminate || reflexivity).
Defined.

(** X27: in the first shell, when the sound of the path is created but
    its replay is rejected, that sound stays loaded while [playAdhan]
    goes on to the bundled asset: two sounds are loaded afterwards and
    [soundRef] holds the second only. *)
Theorem playAdhan_basic_leaves_the_rejected_sound_loaded
    (w : World) (path : string) :
  path <> EmptyString ->
  fails w (CreateSound (Uri path)) = false ->
  fails w (ReplaySound (next_sound w)) = true ->
  fails w (CreateSound BundledAsset) = false ->
  fails w (ReplaySound (S (next_sound w))) = false ->
  let r := AppBasic.playAdhan (Some path) w in
  loaded (after r) =
    loaded (after_unloadPrevious w) ++ [next_sound w; S (next_sound w)] /\
  soundRef (after r) = Some (S (next_sound w)) /\
  audio_trace (after r) =
    audio_trace w ++ events_of_unload w ++
    [Created (next_sound w) (Uri path);
     Created (S (next_sound w)) BundledAsset; Played (S (next_sound w))].
Proof.
  intros Hpath Huri Hreplay Hbundled Hreplay'. cbv zeta.
  destruct (after_unloadPrevious_frame w) as (Hf & _ & Hn & _ & Ht & _).
  unfold AppBasic.playAdhan, AppBasic.playProvided.
  rewrite truthy_nonempty by done.
  rewrite try_run, bind_run, unloadPrevious_run. cbv beta iota.
  rewrite bind_run, try_run, bind_run, createAndReplay_run, Hf, Hn, Huri,
    Hreplay.
  cbv beta iota. exec. rewrite createAndReplay_run.
  unfold after_start, after_create. proj.
  rewrite Hf, Hn, Hbundled, Hreplay'. proj.
  rewrite Ht, <- !app_assoc. done.
Qed.

Lemma playAdhan_basic_leaves_the_rejected_sound_loaded_witness :
  let w := fresh_world 1000 (rejects_replay_of 0%nat) in
  loaded
    (after (AppBasic.playAdhan (Some "file:///data/voices/voice-deep.wav") w)) =
  [0; 1]%nat.
Proof.
  apply (playAdhan_basic_leaves_the_rejected_sound_loaded
           (fresh_world 1000 (rejects_replay_of 0%nat))
           "file:///data/voices/voice-deep.wav"); (discriminate || reflexivity).
Defined.

(** X28: the second shell has no fall-back: when the sound of the path
    cannot be created, [playAdhan] warns and plays nothing; the previous
    sound has been unloaded and [soundRef] holds none. *)
Theorem playAdhan_main_plays_nothing_when_creation_rejects
    (w : World) (path : string) (prayerName : option string) :
  silentMode w = false ->
  path <> EmptyString ->
  fails w (CreateSound (Uri path)) = true ->
  let r := AppMain.playAdhan (Some path) prayerName w in
  result r = Resolved tt /\
  audio_trace (after r) = audio_trace w ++ events_of_unload w /\
  soundRef (after r) = None /\
  console (after r) = console w ++ ["Failed to play:"].
Proof.
  intros Hsilent Hpath Huri. cbv zeta. rewrite playAdhan_run. proj.
  destruct (after_unloadPrevious_frame w) as (Hf & _ & Hn & Href & Ht & _).
  unfold after_playAdhan, adhanUrl. rewrite Hsilent, truthy_nonempty by done.
  unfold after_play. rewrite Hf, Huri. proj.
  split; [done|]. split; [done|]. split; [done|].
  unfold after_unloadPrevious.
  destruct (soundRef w) as [current|]; [|done].
  by destruct (fails w (UnloadSound current)).
Qed.

Lemma playAdhan_main_plays_nothing_when_creation_rejects_witness :
  let w := fresh_world 1000
             (rejects_create_of (Uri "file:///data/voices/voice-deep.wav")) in
  audio_trace
    (after (AppMain.playAdhan (Some "file:///data/voices/voice-deep.wav")
              None w)) = [].
Proof.
  apply (playAdhan_main_plays_nothing_when_creation_rejects
           (fresh_world 1000
              (rejects_create_of (Uri "file:///data/voices/voice-deep.wav")))
           "file:///data/voices/voice-deep.wav" None);
    (discriminate || reflexivity).
Defined.
